(** * aegis: smart-card (scard) and HID-OTP (hid) transports

    A shallow embedding of the byte-level code of the repository:
    - [scard/data_object.go]: the TLV search [doFindTLV];
    - the scard card file: the status-word table [errorCodes] and
      [Card.Transmit];
    - [hid/hid_linux.go]: [calculateCRC], [checkCRC], [shouldSend],
      [formatFrame], [isSequenceUpdated] and the OTP frame engine
      ([SendAndReceive], [sendFrame], [readFrame], ...).

    Conventions.  A Go [byte]/[uint8] is a [Z] in [0, 256), a [uint16] a [Z]
    in [0, 65536); conversions that truncate are written out with [mod].
    Go [int] values (offsets, lengths) are [Z].  Bit operations are the
    [Z.land]/[Z.lor]/[Z.lxor]/[Z.shiftr] of the standard library. *)

From Stdlib Require Import ZArith List Bool Lia ZifyBool.
From stdpp Require Import base list strings gmap.

Local Open Scope Z_scope.

(** A value of a Go [byte]. *)
Definition is_byte (b : Z) : Prop := 0 <= b < 256.

(** ** Go slices *)

Module GoSlice.

(** A Go slice is a window on a backing array.  [backing] holds the array
    elements from the first element of the slice up to the capacity;
    [slen] is the length, so the capacity is [length backing] and the
    visible elements are the first [slen] ones. *)
Record slice : Type := Slice { backing : list Z; slen : Z }.

Definition cap (s : slice) : Z := Z.of_nat (length (backing s)).

(** A slice whose capacity equals its length (a literal, or [make([]byte, n)]). *)
Definition of_bytes (l : list Z) : slice := Slice l (Z.of_nat (length l)).

(** The visible elements. *)
Definition bytes_of (s : slice) : list Z := take (Z.to_nat (slen s)) (backing s).

(** [s[i]]: [None] stands for the run-time panic "index out of range". *)
Definition index (s : slice) (i : Z) : option Z :=
  if (0 <=? i) && (i <? slen s) then backing s !! Z.to_nat i else None.

(** [s[lo:]]: the bound is checked against the length. *)
Definition slice_from (s : slice) (lo : Z) : option slice :=
  if (0 <=? lo) && (lo <=? slen s)
  then Some (Slice (drop (Z.to_nat lo) (backing s)) (slen s - lo))
  else None.

(** [s[lo:hi]]: the upper bound is checked against the capacity. *)
Definition slice_range (s : slice) (lo hi : Z) : option slice :=
  if (0 <=? lo) && (lo <=? hi) && (hi <=? cap s)
  then Some (Slice (drop (Z.to_nat lo) (backing s)) (hi - lo))
  else None.

End GoSlice.

(** ** scard/data_object.go *)

Module TLV.
Import GoSlice.

(** Control flow of a function body returning [[]byte]: a step either goes
    on with a value, returns from the function ([None] is the nil slice,
    [Some bs] a non-nil slice with visible bytes [bs]), panics, or the
    model has no fuel left. *)
Inductive flow (A : Type) : Type :=
| Next (a : A)
| Return (r : option (list Z))
| Panic
| NoFuel.
Arguments Next {A} a.
Arguments Return {A} r.
Arguments Panic {A}.
Arguments NoFuel {A}.

Definition bind {A B : Type} (m : flow A) (k : A -> flow B) : flow B :=
  match m with
  | Next a => k a
  | Return r => Return r
  | Panic => Panic
  | NoFuel => NoFuel
  end.

(** A bounds-checked operation: failure is a panic. *)
Definition checked {A : Type} (o : option A) : flow A :=
  match o with Some a => Next a | None => Panic end.

(** A call of a function returning [[]byte]: its return value is the
    value of the call. *)
Definition call (m : flow Empty_set) : flow (option (list Z)) :=
  match m with
  | Next e => match e with end
  | Return r => Next r
  | Panic => Panic
  | NoFuel => NoFuel
  end.

(** [x ← m; k] is [bind m (fun x => k)]. *)
#[global] Instance flow_bind : MBind flow := fun A B k m => bind m k.

(** [binary.BigEndian.Uint16([]byte{hi, lo})]. *)
Definition Uint16 (hi lo : Z) : Z := Z.lor (Z.shiftl hi 8) lo.

(** [len] of a returned [[]byte]; the nil slice has length 0. *)
Definition len_ret (r : option (list Z)) : Z :=
  match r with None => 0 | Some bs => Z.of_nat (length bs) end.

(** The body of [doFindTLV]: one run of the [for !tagFound] loop per unit
    of fuel, with the loop variables [o] and [n]; the nested call takes
    the remaining fuel. *)
Fixpoint findLoop (fuel : nat) (data : slice) (tag nestLevel : Z) (o n : Z)
  : flow Empty_set :=
  match fuel with
  | O => NoFuel
  | S fuel' =>
    if n <? 2 then Return None else
    d0 ← checked (index data o);
    '(o, n) ← Next (if (d0 =? 0) || (d0 =? 0xff) then (o + 1, n - 1) else (o, n));
    d ← checked (index data o);
    let composite := negb (Z.land d 0x20 =? 0) in
    '(thisTag, o, n) ←
      (if Z.land d 0x1f =? 0x1f then
         let o := o + 1 in
         let n := n - 1 in
         if n <? 2 then Return None else
         d2 ← checked (index data o);
         if Z.land d2 0x1f =? 0x1f then Return None else
         d1 ← checked (index data (o - 1));
         Next (Uint16 d1 (Z.land d2 0x7f), o, n)
       else Next (Uint16 0 d, o, n));
    l ← checked (index data (o + 1));
    let tagLen := Uint16 0 l in
    let o := o + 2 in
    let n := n - 2 in
    '(tagLen, o, n) ←
      (if tagLen <? 0x80 then Next (tagLen, o, n)
       else if tagLen =? 0x81 then
         if negb (n =? 0) then Return None else
         l1 ← checked (index data o);
         Next (Uint16 0 l1, o + 1, n - 1)
       else if tagLen =? 0x82 then
         if n <? 2 then Return None else
         h ← checked (index data o);
         l2 ← checked (index data (o + 1));
         Next (Uint16 h l2, o + 2, n - 2)
       else Return None);
    _ ← (if composite && (nestLevel <? 100) then
            sub ← checked (slice_from data o);
            tmpData ← call (findLoop fuel' sub tag (nestLevel + 1) 0 (slen sub));
            if 0 <? len_ret tmpData then Return tmpData else Next tt
          else Next tt);
    if thisTag =? tag then
      r ← checked (slice_range data o (o + tagLen));
      Return (Some (bytes_of r))
    else if n <? tagLen then Return None
    else findLoop fuel' data tag nestLevel (o + tagLen) (n - tagLen)
  end.

(** [doFindTLV(data, tag, nestLevel)].  Every run of the loop consumes at
    least two bytes, so [len(data)] runs are more than enough (see
    [findLoop_enough_fuel]). *)
Definition doFindTLV (data : slice) (tag nestLevel : Z) : flow Empty_set :=
  findLoop (S (Z.to_nat (slen data))) data tag nestLevel 0 (slen data).

End TLV.

(** ** [doFindTLV]: the parts of the loop, and records on the wire *)

Module TLVParts.
Import GoSlice TLV.

(** The first half of a run of the loop: the tag and the length of the
    next record.  The value is [(composite, thisTag, tagLen, o, n)]. *)
Definition header (data : slice) (o n : Z) : flow (bool * Z * Z * Z * Z) :=
  d0 ← checked (index data o);
  '(o, n) ← Next (if (d0 =? 0) || (d0 =? 0xff) then (o + 1, n - 1) else (o, n));
  d ← checked (index data o);
  let composite := negb (Z.land d 0x20 =? 0) in
  '(thisTag, o, n) ←
    (if Z.land d 0x1f =? 0x1f then
       let o := o + 1 in
       let n := n - 1 in
       if n <? 2 then Return None else
       d2 ← checked (index data o);
       if Z.land d2 0x1f =? 0x1f then Return None else
       d1 ← checked (index data (o - 1));
       Next (Uint16 d1 (Z.land d2 0x7f), o, n)
     else Next (Uint16 0 d, o, n));
  l ← checked (index data (o + 1));
  let tagLen := Uint16 0 l in
  let o := o + 2 in
  let n := n - 2 in
  '(tagLen, o, n) ←
    (if tagLen <? 0x80 then Next (tagLen, o, n)
     else if tagLen =? 0x81 then
       if negb (n =? 0) then Return None else
       l1 ← checked (index data o);
       Next (Uint16 0 l1, o + 1, n - 1)
     else if tagLen =? 0x82 then
       if n <? 2 then Return None else
       h ← checked (index data o);
       l2 ← checked (index data (o + 1));
       Next (Uint16 h l2, o + 2, n - 2)
     else Return None);
  Next (composite, thisTag, tagLen, o, n).

(** The second half: the nested search, then the comparison of the tag;
    [dive] is the nested call and [next] the next run of the loop. *)
Definition record (dive : slice -> flow Empty_set) (next : Z -> Z -> flow Empty_set)
    (data : slice) (tag nestLevel : Z) (h : bool * Z * Z * Z * Z) : flow Empty_set :=
  let '(composite, thisTag, tagLen, o, n) := h in
  _ ← (if composite && (nestLevel <? 100) then
          sub ← checked (slice_from data o);
          tmpData ← call (dive sub);
          if 0 <? len_ret tmpData then Return tmpData else Next tt
        else Next tt);
  if thisTag =? tag then
    r ← checked (slice_range data o (o + tagLen));
    Return (Some (bytes_of r))
  else if n <? tagLen then Return None
  else next (o + tagLen) (n - tagLen).

(** [data[k:]] *)
Definition shift (data : slice) (k : Z) : slice :=
  Slice (drop (Z.to_nat k) (backing data)) (slen data - k).

Definition flow_map {A B : Type} (f : A -> B) (m : flow A) : flow B :=
  bind m (fun a => Next (f a)).

(** A filler byte between records. *)
Definition filler (b : Z) : bool := (b =? 0) || (b =? 0xff).

(** More tag bytes follow this one. *)
Definition more_tag_bytes (b : Z) : bool := Z.land b 0x1f =? 0x1f.

(** The constructed bit of the first tag byte. *)
Definition constructed (b : Z) : bool := negb (Z.land b 0x20 =? 0).

(** [tag_field tf t c]: the bytes [tf] are a tag field the code reads as
    the tag number [t], constructed or not: one byte that is no filler, or
    a first byte with the low five bits set and a second byte. *)
Inductive tag_field : list Z -> Z -> bool -> Prop :=
| tag_one (a : Z) :
    filler a = false -> more_tag_bytes a = false ->
    tag_field [a] a (constructed a)
| tag_two (a b : Z) :
    filler a = false -> more_tag_bytes a = true -> more_tag_bytes b = false ->
    tag_field [a; b] (Uint16 a (Z.land b 0x7f)) (constructed a).

(** [length_field lf L]: the bytes [lf] are a length field for [L], in the
    short form or in the form [82 hi lo]. *)
Inductive length_field : list Z -> Z -> Prop :=
| length_short (l : Z) : 0 <= l < 0x80 -> length_field [l] l
| length_two (h l : Z) : length_field [0x82; h; l] (Uint16 h l).

(** [records_without tag bs]: the bytes [bs] are a sequence of complete
    primitive records, none of them with the tag number [tag]. *)
Inductive records_without (tag : Z) : list Z -> Prop :=
| records_nil : records_without tag []
| records_cons (tf lf v rest : list Z) (t : Z) :
    tag_field tf t false -> t <> tag ->
    length_field lf (Z.of_nat (length v)) ->
    records_without tag rest ->
    records_without tag (tf ++ lf ++ v ++ rest).

(** C8 as the specification words it, on a buffer that is the outer
    record alone: a constructed outer record whose value is an inner record
    with another tag number; the search for the inner tag returns the inner
    value. *)
Definition nested_search_finds_inner : Prop :=
  forall (tfo lfo tfi lfi v : list Z) (To Ti : Z) (ci : bool),
    tag_field tfo To true -> tag_field tfi Ti ci ->
    length_field lfo (Z.of_nat (length (tfi ++ lfi ++ v))) ->
    length_field lfi (Z.of_nat (length v)) ->
    To <> Ti ->
    Forall is_byte (tfo ++ lfo ++ tfi ++ lfi ++ v) ->
    doFindTLV (of_bytes (tfo ++ lfo ++ tfi ++ lfi ++ v)) Ti 0 = Return (Some v).

End TLVParts.

(** ** scard: status words and [Card.Transmit] *)

Module Scard.
Import GoSlice.

(** The error values declared by the package, and [ClientError] for an
    error handed up by the resource-manager client. *)
Inductive error : Type :=
| ErrRespTooShort
| ErrUnspecifiedWarning
| ErrUnspecifiedWarningModified
| ErrUnspecifiedError
| ErrUnspecifiedErrorModified
| ErrWrongLength
| ErrUnsupportedFunction
| ErrCommandNotAllowed
| ErrWrongParamsNoInfo
| ErrWrongParams
| ErrUnsupportedInstruction
| ErrUnsupportedClass
| ErrNoDiag
| ErrResponseMayBeCorrupted
| ErrEOF
| ErrSelectedFileDeactivated
| ErrInvalidFileControlInfo
| ErrSelectedFileInTermination
| ErrNoSensorData
| ErrFileFilledUp
| ErrImmediateResponseRequired
| ErrMemory
| ErrLogicalChannelNotSupported
| ErrSecureMessagingNotSupported
| ErrExpectedLastCommand
| ErrCommandChainingNotSupported
| ErrCommandIncompatibleWithFile
| ErrSecurityStatusNotSatisfied
| ErrAuthenticationMethodBlocked
| ErrReferenceDataNotUsable
| ErrConditionsOfUseNotSatisfied
| ErrCommandNotAllowedNoCurrentEF
| ErrExpectedSecureMessaging
| ErrIncorrectSecureMessagingDataObjects
| ErrIncorrectData
| ErrFunctionNotSupported
| ErrFileOrAppNotFound
| ErrRecordNotFound
| ErrNoSpace
| ErrInvalidNcWithTLV
| ErrIncorrectParams
| ErrInvalidNcWithParams
| ErrReferenceNotFound
| ErrFileAlreadyExists
| ErrNameAlreadyExists
| ClientError (code : Z).

(** [APDU]: the fields are [uint8] values, a byte string and two flags. *)
Record APDU : Type := mkAPDU {
  Cla : Z;          (* Class *)
  Ins : Z;          (* Instruction *)
  P1 : Z;           (* Parameter 1 *)
  P2 : Z;           (* Parameter 2 *)
  Data : list Z;    (* Command data *)
  Len : Z;          (* Command data length *)
  Pib : bool;       (* Padding indicator byte present *)
  Elf : bool        (* Use extended length fields *)
}.

(** [errorCodes]: a [map[[2]byte]error]; the value stored for [90 00] is
    the nil error. *)
Definition errorCodes : gmap (Z * Z) (option error) :=
  list_to_map [
    ((0x90, 0x00), None);
    ((0x62, 0x00), Some ErrUnspecifiedWarning);
    ((0x63, 0x00), Some ErrUnspecifiedWarningModified);
    ((0x64, 0x00), Some ErrUnspecifiedError);
    ((0x65, 0x00), Some ErrUnspecifiedErrorModified);
    ((0x67, 0x00), Some ErrWrongLength);
    ((0x68, 0x00), Some ErrUnsupportedFunction);
    ((0x69, 0x00), Some ErrCommandNotAllowed);
    ((0x6A, 0x00), Some ErrWrongParamsNoInfo);
    ((0x6B, 0x00), Some ErrWrongParams);
    ((0x6D, 0x00), Some ErrUnsupportedInstruction);
    ((0x6E, 0x00), Some ErrUnsupportedClass);
    ((0x6F, 0x00), Some ErrNoDiag);
    ((0x62, 0x81), Some ErrResponseMayBeCorrupted);
    ((0x62, 0x82), Some ErrEOF);
    ((0x62, 0x83), Some ErrSelectedFileDeactivated);
    ((0x62, 0x84), Some ErrInvalidFileControlInfo);
    ((0x62, 0x85), Some ErrSelectedFileInTermination);
    ((0x62, 0x86), Some ErrNoSensorData);
    ((0x63, 0x81), Some ErrFileFilledUp);
    ((0x64, 0x01), Some ErrImmediateResponseRequired);
    ((0x65, 0x81), Some ErrMemory);
    ((0x68, 0x81), Some ErrLogicalChannelNotSupported);
    ((0x68, 0x82), Some ErrSecureMessagingNotSupported);
    ((0x68, 0x83), Some ErrExpectedLastCommand);
    ((0x68, 0x84), Some ErrCommandChainingNotSupported);
    ((0x69, 0x81), Some ErrCommandIncompatibleWithFile);
    ((0x69, 0x82), Some ErrSecurityStatusNotSatisfied);
    ((0x69, 0x83), Some ErrAuthenticationMethodBlocked);
    ((0x69, 0x84), Some ErrReferenceDataNotUsable);
    ((0x69, 0x85), Some ErrConditionsOfUseNotSatisfied);
    ((0x69, 0x86), Some ErrCommandNotAllowedNoCurrentEF);
    ((0x69, 0x87), Some ErrExpectedSecureMessaging);
    ((0x69, 0x88), Some ErrIncorrectSecureMessagingDataObjects);
    ((0x6A, 0x80), Some ErrIncorrectData);
    ((0x6A, 0x81), Some ErrFunctionNotSupported);
    ((0x6A, 0x82), Some ErrFileOrAppNotFound);
    ((0x6A, 0x83), Some ErrRecordNotFound);
    ((0x6A, 0x84), Some ErrNoSpace);
    ((0x6A, 0x85), Some ErrInvalidNcWithTLV);
    ((0x6A, 0x86), Some ErrIncorrectParams);
    ((0x6A, 0x87), Some ErrInvalidNcWithParams);
    ((0x6A, 0x88), Some ErrReferenceNotFound);
    ((0x6A, 0x89), Some ErrFileAlreadyExists);
    ((0x6A, 0x8A), Some ErrNameAlreadyExists)
  ].

(** [errorCodes[[2]byte{sw1, sw2}]]: a Go map yields the zero value of the
    element type, the nil error, for a key that is not present. *)
Definition errorCodes_at (sw1 sw2 : Z) : option error :=
  default None (errorCodes !! (sw1, sw2)).

Definition uint8 (x : Z) : Z := x mod 256.
Definition uint16 (x : Z) : Z := x mod 65536.

(** [binary.BigEndian.PutUint16(b, v)] on a two-byte [b]. *)
Definition PutUint16 (v : Z) : list Z := [uint8 (Z.shiftr v 8); uint8 v].

(** [bytes.Buffer.Write]: appends, and never fails. *)
Definition Write (cmd p : list Z) : list Z := cmd ++ p.

(** The first half of [Transmit]: the content of [cmd] when it is handed to
    the client. *)
Definition encodeCommand (apdu : APDU) : list Z :=
  let cmd := Write [] [Cla apdu; Ins apdu; P1 apdu; P2 apdu] in
  let cmd :=
    if 0 <? Z.of_nat (length (Data apdu)) then
      let lc := Z.of_nat (length (Data apdu)) in
      let lc := if Pib apdu then lc - 1 else lc in
      let cmd :=
        if Elf apdu then
          let lcElf := PutUint16 (uint16 lc) in
          Write cmd (0 :: lcElf)
        else Write cmd [uint8 lc] in
      Write cmd (Data apdu)
    else cmd in
  Write cmd [Len apdu].

(** What the client's [Transmit] does with the command and the 258-byte
    response buffer: it fails, or leaves [buf] in the buffer and returns
    the count [n]. *)
Inductive client_result : Type :=
| ClientErr (e : error)
| ClientOk (buf : list Z) (n : Z).

(** The outcome of [Transmit]: the pair [([]byte, error)] ([None] is nil),
    or a run-time panic. *)
Inductive tresult : Type :=
| TReturn (body : option (list Z)) (err : option error)
| TPanic.

(** The second half of [Transmit], from the client's answer on: cut the
    buffer to [resp[:n]], check its length, look the status word up. *)
Definition interpret (r : client_result) : tresult :=
  match r with
  | ClientErr e => TReturn None (Some e)
  | ClientOk buf n =>
    match slice_range (Slice buf 258) 0 n with
    | None => TPanic
    | Some resp =>
      if slen resp <? 2 then TReturn None (Some ErrRespTooShort) else
      match index resp (slen resp - 2), index resp (slen resp - 1) with
      | Some sw1, Some sw2 =>
        match errorCodes_at sw1 sw2 with
        | Some err => TReturn None (Some err)
        | None =>
          match slice_range resp 0 (slen resp - 2) with
          | Some body => TReturn (Some (bytes_of body)) None
          | None => TPanic
          end
        end
      | _, _ => TPanic
      end
    end
  end.

(** The command of [Select]:
    [APDU{Cla: 0, Ins: 0xa4, P1: 0x04, P2: 0, Data: aid}]. *)
Definition select_apdu (aid : list Z) : APDU := mkAPDU 0 0xa4 0x04 0 aid 0 false false.

Section Transmit.

(** [c.context.client.Transmit(c.cardID, c.protocol, cmd, resp)] of the
    pcsc package: the card behind the session. *)
Variable client_Transmit : list Z -> client_result.

Definition Transmit (apdu : APDU) : tresult :=
  let cmd := encodeCommand apdu in
  interpret (client_Transmit cmd).

(** [Select]: [Transmit] of the SELECT-by-AID command; only the error is
    kept. *)
Definition Select (aid : list Z) : option (option error) :=
  match Transmit (select_apdu aid) with
  | TReturn _ err => Some err
  | TPanic => None
  end.

End Transmit.

End Scard.

(** ** [Card.Transmit]: the command in the words of the specification *)

Module ScardSpec.
Import Scard.

(** The length field as the specification words it: the length of the
    data, less one with the padding indicator. *)
Definition Lc (apdu : APDU) : Z :=
  Z.of_nat (length (Data apdu)) - (if Pib apdu then 1 else 0).

(** A length in one byte, and in the extended form: [00] and the two
    bytes of the length, high byte first. *)
Definition short_length (lc : Z) : list Z := [lc mod 256].
Definition extended_length (lc : Z) : list Z := [0; lc / 256 mod 256; lc mod 256].

(** The command as the specification words it: header, then for non-empty
    data the length field and the data, then the expected-length byte. *)
Definition spec_command (apdu : APDU) : list Z :=
  [Cla apdu; Ins apdu; P1 apdu; P2 apdu]
  ++ match Data apdu with
     | [] => []
     | _ :: _ =>
       (if Elf apdu then extended_length (Lc apdu) else short_length (Lc apdu))
       ++ Data apdu
     end
  ++ [Len apdu].

(** The claim on a status word that is not in the table, as the
    specification words it: the call fails with an error and returns no
    body. *)
Definition unmapped_status_fails : Prop :=
  forall (client : list Z -> client_result) (apdu : APDU)
         (body pad : list Z) (sw1 sw2 : Z),
    client (encodeCommand apdu)
    = ClientOk (body ++ [sw1; sw2] ++ pad) (Z.of_nat (length body) + 2) ->
    length (body ++ [sw1; sw2] ++ pad) = 258%nat ->
    is_byte sw1 -> is_byte sw2 ->
    errorCodes !! (sw1, sw2) = None ->
    exists e, Transmit client apdu = TReturn None (Some e).

End ScardSpec.

(** ** hid/hid_linux.go: the OTP frame engine *)

Module Hid.

Definition FEATURE_RPT_SIZE : Z := 8.
Definition FEATURE_RPT_DATA_SIZE : Z := FEATURE_RPT_SIZE - 1.
Definition SLOT_DATA_SIZE : Z := 64.
Definition FRAME_SIZE : Z := SLOT_DATA_SIZE + 6.
Definition RESP_PENDING_FLAG : Z := 0x40.
Definition SLOT_WRITE_FLAG : Z := 0x80.
Definition RESP_TIMEOUT_WAIT_FLAG : Z := 0x20.
Definition SEQUENCE_MASK : Z := 0x1F.
Definition STATUS_OFFSET_PROG_SEQ : Z := 0x4.
Definition STATUS_OFFSET_TOUCH_LOW : Z := 0x5.
Definition CONFIG_SLOTS_PROGRAMMED_MASK : Z := 3.
Definition STATUS_PROCESSING : Z := 1.
Definition STATUS_UPNEEDED : Z := 2.
Definition CRC_OK_RESIDUAL : Z := 0xF0B8.

Definition byte (x : Z) : Z := x mod 256.

Definition len (l : list Z) : Z := Z.of_nat (length l).

(** One run of the inner loop of [calculateCRC], on the [uint16] [crc]. *)
Definition crc_bit (crc : Z) : Z :=
  let j := Z.land crc 1 in
  let crc := Z.shiftr crc 1 in
  if j =? 1 then Z.lxor crc 0x8408 else crc.

(** One run of the outer loop: [crc ^= uint16(b)], then eight inner runs. *)
Definition crc_byte (crc b : Z) : Z := Nat.iter 8 crc_bit (Z.lxor crc b).

Definition calculateCRC (data : list Z) : Z :=
  Z.land (fold_left crc_byte data 0xFFFF) 0xFFFF.

Definition checkCRC (data : list Z) : bool :=
  calculateCRC data =? CRC_OK_RESIDUAL.

Definition shouldSend (packet : list Z) (seq : Z) : bool :=
  if (seq =? 0) || (seq =? 9) then true
  else existsb (fun b => negb (b =? 0)) packet.

Definition formatFrame (slot : Z) (payload : list Z) : list Z :=
  let crc := calculateCRC payload in
  let frame := [] in
  let frame := frame ++ payload in
  let frame := frame ++ [slot] in
  let frame := frame ++ [byte crc; byte (Z.shiftr crc 8)] in
  let frame := frame ++ [0; 0; 0] in
  frame.

(** [isSequenceUpdated]: [None] is the panic of an index out of range;
    [prevSeq+1] is [byte] arithmetic. *)
Definition isSequenceUpdated (report : list Z) (prevSeq : Z) : option bool :=
  nextSeq ← report !! Z.to_nat STATUS_OFFSET_PROG_SEQ;
  touchLow ← report !! Z.to_nat STATUS_OFFSET_TOUCH_LOW;
  let empty := Z.land touchLow CONFIG_SLOTS_PROGRAMMED_MASK =? 0 in
  Some ((nextSeq =? byte (prevSeq + 1)) || ((nextSeq =? 0) && (0 <? prevSeq) && empty)).

(** The errors of the package: those of the channel, the [fmt.Errorf]
    values, and the two error types. *)
Inductive error : Type :=
| ConnError (code : Z)
| ErrReportSize (got : Z)
| ErrPayloadTooLarge
| ErrReadyTimeout
| ErrIncompleteTransfer
| TimeoutError (msg : string)
| CommandRejectedError (msg : string).

(** The outcome of a call: a value, an error, a run-time panic, or the
    model ran out of fuel. *)
Inductive outcome (A : Type) : Type :=
| Ok (a : A)
| Fail (e : error)
| Crash
| Starved.
Arguments Ok {A} a.
Arguments Fail {A} e.
Arguments Crash {A}.
Arguments Starved {A}.

Section Protocol.

(** The [Conn] behind the [Protocol]: [Chan] is the state of the channel
    and of the device at its end.  [K] is the state captured by the
    [Keepalive] callback. *)
Context {Chan K : Type}.
Variable conn_Receive : Chan -> (list Z + error) * Chan.
Variable conn_Send : list Z -> Chan -> option error * Chan.

Definition St : Type := Chan * K.
Definition M (A : Type) : Type := St -> outcome A * St.

Definition ret {A} (a : A) : M A := fun s => (Ok a, s).
Definition fail {A} (e : error) : M A := fun s => (Fail e, s).
Definition hbind {A B} (m : M A) (k : A -> M B) : M B :=
  fun s =>
    match m s with
    | (Ok a, s') => k a s'
    | (Fail e, s') => (Fail e, s')
    | (Crash, s') => (Crash, s')
    | (Starved, s') => (Starved, s')
    end.

Notation "'do' x <- m ; k" := (hbind m (fun x => k))
  (at level 10, x name, m at level 100, k at level 200).

(** [b[i]] *)
Definition at_ (b : list Z) (i : Z) : M Z :=
  fun s => match (if 0 <=? i then b !! Z.to_nat i else None) with
           | Some x => (Ok x, s)
           | None => (Crash, s)
           end.

Definition Receive : M (list Z) :=
  fun s => match conn_Receive (fst s) with
           | (inl r, c) => (Ok r, (c, snd s))
           | (inr e, c) => (Fail e, (c, snd s))
           end.

(** [p.conn.Send(report)]; the result is the error, if any. *)
Definition Send (report : list Z) : M (option error) :=
  fun s => let '(e, c) := conn_Send report (fst s) in (Ok e, (c, snd s)).

Definition keepalive (onKeepalive : Z -> K -> K) (status : Z) : M unit :=
  fun s => (Ok tt, (fst s, onKeepalive status (snd s))).

Definition receive : M (list Z) :=
  do report <- Receive;
  if negb (len report =? FEATURE_RPT_SIZE) then fail (ErrReportSize (len report))
  else ret report.

(** [awaitReadyToWrite], with [k] runs of the loop left ([time.Sleep] only
    passes time). *)
Fixpoint awaitReadyToWrite_loop (k : nat) : M unit :=
  match k with
  | O => fail ErrReadyTimeout
  | S k' =>
    do r <- receive;
    do st <- at_ r FEATURE_RPT_DATA_SIZE;
    if Z.land st SLOT_WRITE_FLAG =? 0 then ret tt
    else awaitReadyToWrite_loop k'
  end.

Definition awaitReadyToWrite : M unit := awaitReadyToWrite_loop 20.

(** The loop of [sendFrame]; every run takes at least one byte off [buf]. *)
Fixpoint sendFrame_loop (fuel : nat) (buf : list Z) (seq : Z) : M unit :=
  if 0 <? len buf then
    match fuel with
    | O => fun s => (Starved, s)
    | S fuel' =>
      let n := FEATURE_RPT_DATA_SIZE in
      let n := if len buf <? n then len buf else n in
      let chunk := take (Z.to_nat n) buf
                   ++ replicate (Z.to_nat (FEATURE_RPT_DATA_SIZE - n)) 0 in
      let buf := drop (Z.to_nat n) buf in
      do _ <- (if shouldSend chunk seq then
                 let report := chunk ++ [byte (Z.lor 0x80 seq)] in
                 do _ <- awaitReadyToWrite;
                 do err <- Send report;
                 match err with Some e => fail e | None => ret tt end
               else ret tt);
      sendFrame_loop fuel' buf (seq + 1)
    end
  else ret tt.

Definition sendFrame (buf : list Z) : M Z :=
  do r <- receive;
  do progSeq <- at_ r STATUS_OFFSET_PROG_SEQ;
  do _ <- sendFrame_loop (length buf) buf 0;
  ret progSeq.

(** [resetState]: the error of the [Send] is dropped. *)
Definition resetState : M unit :=
  do _ <- Send [0; 0; 0; 0; 0; 0; 0; 0xFF];
  ret tt.

(** The loop of [readFrame] with its variables [response] ([None] is the
    nil slice), [seq] and [needsTouch].  [ctx k] tells whether the context
    is done when the loop waits for the [k]-th time; [waits] counts the
    waits so far. *)
Fixpoint readFrame_loop (fuel : nat) (ctx : nat -> bool) (progSeq : Z)
    (onKeepalive : Z -> K -> K)
    (response : option (list Z)) (seq : Z) (needsTouch : bool) (waits : nat)
  : M (option (list Z)) :=
  match fuel with
  | O => fun s => (Starved, s)
  | S fuel' =>
    do report <- receive;
    do status <- at_ report FEATURE_RPT_DATA_SIZE;
    if negb (Z.land status RESP_PENDING_FLAG =? 0) then
      if seq =? Z.land status SEQUENCE_MASK then
        let response :=
          Some (default [] response ++ take (Z.to_nat FEATURE_RPT_DATA_SIZE) report) in
        readFrame_loop fuel' ctx progSeq onKeepalive response (seq + 1) needsTouch waits
      else if Z.land status SEQUENCE_MASK =? 0 then
        do _ <- resetState;
        ret response
      else
        readFrame_loop fuel' ctx progSeq onKeepalive response seq needsTouch waits
    else if status =? 0 then
      if 0 <? len (default [] response) then fail ErrIncompleteTransfer
      else
        match isSequenceUpdated report progSeq with
        | None => fun s => (Crash, s)
        | Some true => ret (Some (take 6 (drop 1 report)))
        | Some false =>
          if needsTouch then fail (TimeoutError "timed out waiting for touch"%string)
          else fail (CommandRejectedError "no data"%string)
        end
    else
      let needs := negb (Z.land status RESP_TIMEOUT_WAIT_FLAG =? 0) in
      do _ <- keepalive onKeepalive (if needs then STATUS_UPNEEDED else STATUS_PROCESSING);
      let needsTouch := if needs then true else needsTouch in
      if ctx waits then
        do _ <- resetState;
        fail (TimeoutError "command cancelled"%string)
      else
        readFrame_loop fuel' ctx progSeq onKeepalive response seq needsTouch (S waits)
  end.

Definition readFrame (fuel : nat) (ctx : nat -> bool) (progSeq : Z)
    (onKeepalive : Z -> K -> K) : M (option (list Z)) :=
  readFrame_loop fuel ctx progSeq onKeepalive None 0 false 0%nat.

(** [SendAndReceive]; [fuel] bounds the reports [readFrame] may read. *)
Definition SendAndReceive (fuel : nat) (ctx : nat -> bool) (slot : Z)
    (data : list Z) (onKeepalive : option (Z -> K -> K)) : M (option (list Z)) :=
  let onKeepalive := match onKeepalive with
                     | None => fun _ k => k
                     | Some f => f
                     end in
  let payload := take (Z.to_nat SLOT_DATA_SIZE) data
                 ++ replicate (Z.to_nat SLOT_DATA_SIZE - length data) 0 in
  if SLOT_DATA_SIZE <? len data then fail ErrPayloadTooLarge
  else
    let frame := formatFrame slot payload in
    do progSeq <- sendFrame frame;
    readFrame fuel ctx progSeq onKeepalive.

End Protocol.

(** A scripted channel: the reports still to be delivered and the reports
    sent so far.  [Receive] fails once the script is over. *)
Definition script : Type := list (list Z) * list (list Z).

Definition script_Receive (c : script) : (list Z + error) * script :=
  match fst c with
  | [] => (inr (ConnError 0), c)
  | r :: rs => (inl r, (rs, snd c))
  end.

Definition script_Send (report : list Z) (c : script) : option error * script :=
  (None, (fst c, snd c ++ [report])).

End Hid.

(** ** hid: the rules in the words of the specification *)

Module HidSpec.
Import Hid.

(** The rule as the specification words it, over the integers: the next
    sequence is [prevSeq + 1], or it is 0 while [prevSeq > 0] and no slot
    is programmed. *)
Definition spec_isSequenceUpdated (report : list Z) (prevSeq : Z) : bool :=
  let nextSeq := nth 4 report 0 in
  let empty := Z.land (nth 5 report 0) 3 =? 0 in
  (nextSeq =? prevSeq + 1) || ((nextSeq =? 0) && (0 <? prevSeq) && empty).

Definition is_uint16 (x : Z) : Prop := 0 <= x < 65536.

(** The two CRC bytes [formatFrame] appends, low byte first. *)
Definition crc_bytes (payload : list Z) : list Z :=
  [byte (calculateCRC payload); byte (Z.shiftr (calculateCRC payload) 8)].

(** The report [resetState] sends. *)
Definition reset_report : list Z := [0; 0; 0; 0; 0; 0; 0; 0xFF].

(** An 8-byte report whose status byte has the response-pending bit set
    and carries the 5-bit sequence number 0. *)
Definition pending_seq0 (report : list Z) : Prop :=
  length report = 8%nat /\
  exists status, report !! 7%nat = Some status /\
                 Z.land status RESP_PENDING_FLAG <> 0 /\
                 Z.land status SEQUENCE_MASK = 0.

(** The two bytes of the complemented CRC, low byte first. *)
Definition complement_bytes (payload : list Z) : list Z :=
  let c := Z.lxor 0xFFFF (calculateCRC payload) in
  [byte c; byte (Z.shiftr c 8)].

End HidSpec.

(** ** scard: the data-object registry, RID and ATR *)

Module ScardMore.
Import Scard.

(** [DataObject]; [tag] and [parent] are [uint16], [extLen] a [uint8]. *)
Record DataObject : Type := mkDO {
  tag : Z;
  constructed : bool;
  parent : Z;
  binary : bool;
  extLen : Z;
  desc : string
}.

Definition DoURL : DataObject := mkDO 0x5F50 false 0 false 2 "URL".
Definition DoHistBytes : DataObject := mkDO 0x5F52 false 0 true 0 "Historical Bytes".
Definition DoCardRelData : DataObject := mkDO 0x0065 true 0 true 0 "Cardholder Related Data".
Definition DoName : DataObject := mkDO 0x005B false 0x65 false 0 "Name".
Definition DoLangPrefs : DataObject := mkDO 0x5F2D false 0x65 false 0 "Language preferences".
Definition DoSalutation : DataObject := mkDO 0x5F35 false 0x65 false 0 "Salutation".
Definition DoAppRelData : DataObject := mkDO 0x006E true 0 true 0 "Application Related Data".
Definition DoLoginData : DataObject := mkDO 0x005E false 0 true 2 "Login Data".
Definition DoAID : DataObject := mkDO 0x004F false 0x6E true 0 "Application Idenfifier (AID)".
Definition DoDiscrDOs : DataObject := mkDO 0x0073 true 0 true 0 "Discretionary Data Objects".
Definition DoCardCaps : DataObject := mkDO 0x0047 false 0x6E true 0 "Card Capabilities".
Definition DoExtLenCaps : DataObject := mkDO 0x00C0 false 0x6E true 0 "Extended Card Capabilities".
Definition DoAlgoAttrSign : DataObject := mkDO 0x00C1 false 0x6E true 0 "Algorithm Attributes Signature".
Definition DoAlgoAttrEnc : DataObject := mkDO 0x00C2 false 0x6E true 0 "Algorithm Attributes Encryption".
Definition DoAlgoAttrAuth : DataObject := mkDO 0x00C3 false 0x6E true 0 "Algorithm Attributes Authentication".
Definition DoPWStatus : DataObject := mkDO 0x00C4 false 0x6E true 0 "Password Status Bytes".
Definition DoFingerprints : DataObject := mkDO 0x00C5 false 0x6E true 0 "Fingerprints".
Definition DoCAFingerprints : DataObject := mkDO 0x00C6 false 0x6E true 0 "CA Fingerprints".
Definition DoKeyGenDate : DataObject := mkDO 0x00CD false 0x6E true 0 "Generation times of key pairs".
Definition DoSecSuppTmpl : DataObject := mkDO 0x007A true 0 true 0 "Security Support Template".
Definition DoDigSigCtr : DataObject := mkDO 0x0093 false 0x7A true 0 "Digital Signature Counter".
Definition DoPrivateDO1 : DataObject := mkDO 0x0101 false 0 false 2 "Private DO 1".
Definition DoPrivateDO2 : DataObject := mkDO 0x0102 false 0 false 2 "Private DO 2".
Definition DoPrivateDO3 : DataObject := mkDO 0x0103 false 0 false 2 "Private DO 3".
Definition DoPrivateDO4 : DataObject := mkDO 0x0104 false 0 false 2 "Private DO 4".
Definition DoCardholderCrt : DataObject := mkDO 0x7F21 true 0 true 1 "Cardholder certificate".
Definition DoGenFeatMgmt : DataObject := mkDO 0x7F74 false 0x6E true 0 "General Feature Management".
Definition DoAESKeyData : DataObject := mkDO 0x00D5 false 0 true 0 "AES key data".
Definition DoUIFSig : DataObject := mkDO 0x00D6 false 0x6E true 0 "UIF for Signature".
Definition DoUIFDec : DataObject := mkDO 0x00D7 false 0x6E true 0 "UIF for Decryption".
Definition DoUIFAut : DataObject := mkDO 0x00D8 false 0x6E true 0 "UIF for Authentication".
Definition DoUIFAtt : DataObject := mkDO 0x00D8 false 0x6E true 0 "UIF for Yubico Attestation key".
Definition DoKDFDO : DataObject := mkDO 0x00F9 false 0 true 0 "KDF data object".
Definition DoAlgoInfo : DataObject := mkDO 0x00FA false 0 true 2 "Algorithm Information".

Definition DataObjects : list DataObject :=
  [DoURL; DoHistBytes; DoCardRelData; DoName;
   DoLangPrefs; DoSalutation; DoAppRelData; DoLoginData;
   DoAID; DoDiscrDOs; DoCardCaps; DoExtLenCaps;
   DoAlgoAttrSign; DoAlgoAttrEnc; DoAlgoAttrAuth; DoPWStatus;
   DoFingerprints; DoCAFingerprints; DoKeyGenDate; DoSecSuppTmpl;
   DoDigSigCtr; DoPrivateDO1; DoPrivateDO2; DoPrivateDO3;
   DoPrivateDO4; DoCardholderCrt; DoGenFeatMgmt; DoAESKeyData;
   DoUIFSig; DoUIFDec; DoUIFAut; DoUIFAtt;
   DoKDFDO; DoAlgoInfo].

(** [tagBytes] and [parentBytes]: the two big-endian bytes of the [uint16]. *)
Definition tagBytes (do : DataObject) : list Z := PutUint16 (uint16 (tag do)).

Definition parentBytes (do : DataObject) : list Z := PutUint16 (uint16 (parent do)).

(** [tagP1] and [tagP2]: [tagBytes()[0]] and [tagBytes()[1]]; [None] is
    the panic of an index out of range. *)
Definition tagP1 (do : DataObject) : option Z := tagBytes do !! 0%nat.

Definition tagP2 (do : DataObject) : option Z := tagBytes do !! 1%nat.

(** [bytes.Equal]. *)
Fixpoint bytes_Equal (a b : list Z) : bool :=
  match a, b with
  | [], [] => true
  | x :: a', y :: b' => (x =? y) && bytes_Equal a' b'
  | _, _ => false
  end.

(** [children], over a table: the loop appends every entry whose parent
    bytes equal the tag bytes of [do]. *)
Definition children_in (table : list DataObject) (do : DataObject) : list DataObject :=
  fold_left
    (fun c d => if bytes_Equal (parentBytes d) (tagBytes do) then c ++ [d] else c)
    table [].

Definition children (do : DataObject) : list DataObject := children_in DataObjects do.

(** The registered application provider identifiers, [RID] being a
    [[5]byte]. *)
Definition RidNIST : list Z := [0xa0; 0x00; 0x00; 0x03; 0x08].
Definition RidFSFE : list Z := [0xd2; 0x76; 0x00; 0x01; 0x24].
Definition RidYubico : list Z := [0xa0; 0x00; 0x00; 0x05; 0x27].
Definition RidFIDO : list Z := [0xa0; 0x00; 0x00; 0x06; 0x47].
Definition RidSolokeys : list Z := [0xA0; 0x00; 0x00; 0x08; 0x47].
Definition RidGlobalPlatform : list Z := [0xa0; 0x00; 0x00; 0x01; 0x51].
Definition RidNXPNFC : list Z := [0xD2; 0x76; 0x00; 0x00; 0x85].

Definition ridMap : gmap (list Z) string :=
  list_to_map [
    (RidNIST, "NIST"%string);
    (RidFSFE, "FSFE"%string);
    (RidYubico, "Yubico"%string);
    (RidFIDO, "FIDO"%string);
    (RidSolokeys, "Solokeys"%string);
    (RidGlobalPlatform, "GlobalPlatform"%string);
    (RidNXPNFC, "NXP NFC"%string)
  ].

(** The keys of [ridMap]. *)
Definition known_rids : list (list Z) :=
  [RidNIST; RidFSFE; RidYubico; RidFIDO; RidSolokeys; RidGlobalPlatform; RidNXPNFC].

(** [RID.String]: the lookup with its presence check. *)
Definition RID_String (r : list Z) : string :=
  match ridMap !! r with
  | Some s => s
  | None => "<unknown>"%string
  end.

(** [concat(prefix, rest...)]. *)
Definition concat (prefix rest : list Z) : list Z := ([] ++ prefix) ++ rest.

Definition AidOpenPGP : list Z := concat RidFSFE [0x01].
Definition AidYubicoManagement : list Z := concat RidYubico [0x47; 0x11; 0x17].

(** A hexadecimal digit as [fmt] prints it with the verb [x]: the
    characters [0] to [9] (codes 48 to 57) and [a] to [f] (codes 97 to
    102). *)
Definition hex_digit (n : Z) : Ascii.ascii :=
  Ascii.ascii_of_nat (Z.to_nat (if n <? 10 then 48 + n else 87 + n)).

(** [fmt.Sprintf("%02x", b)] for a byte [b]. *)
Definition Sprintf_02x (b : Z) : string :=
  String (hex_digit (b / 16)) (String (hex_digit (b mod 16)) EmptyString).

(** [ATR.String]: the loop writes the two digits of every byte. *)
Definition ATR_String (atr : list Z) : string :=
  fold_left (fun buffer b => (buffer +:+ Sprintf_02x b)%string) atr EmptyString.

Section GetChallenge.
Variable client_Transmit : list Z -> client_result.

(** [GetChallenge(length)]. *)
Definition GetChallenge (length : Z) : tresult :=
  Transmit client_Transmit (mkAPDU 0 0x84 0 0 [length] length false false).

End GetChallenge.

End ScardMore.

(** ** hid: more of the frame engine *)

Module HidMore.
Import Hid.

(** The answers to a readiness poll: an 8-byte report whose status byte has
    the write flag clear ([ready]) or set ([busy]). *)
Definition ready (r : list Z) : bool :=
  (len r =? FEATURE_RPT_SIZE) && (Z.land (nth 7 r 0) SLOT_WRITE_FLAG =? 0).

Definition busy (r : list Z) : bool :=
  (len r =? FEATURE_RPT_SIZE) && negb (Z.land (nth 7 r 0) SLOT_WRITE_FLAG =? 0).

(** What the device does with a report that was sent to it: the seven data
    bytes go to the place in the frame that the sequence number in the
    status byte names. *)
Definition place_report (frame r : list Z) : list Z :=
  let seq := Z.land (nth 7 r 0) SEQUENCE_MASK in
  let off := (7 * Z.to_nat seq)%nat in
  take off frame ++ take 7 r ++ drop (off + 7) frame.

(** The frame on the side of the device, an array of zeros at first, after
    the reports [sent]. *)
Definition rebuild (size : nat) (sent : list (list Z)) : list Z :=
  fold_left place_report sent (replicate size 0).

(** The reports that go out for a buffer of [m] chunks of seven bytes, from
    the sequence number [seq] on: one for every chunk that [shouldSend]
    lets through, the chunk and the status byte [80 | seq]. *)
Fixpoint packets (m : nat) (buf : list Z) (seq : Z) : list (list Z) :=
  match m with
  | O => []
  | S m' =>
    (if shouldSend (take 7 buf) seq
     then [take 7 buf ++ [byte (Z.lor 0x80 seq)]]
     else [])
    ++ packets m' (drop 7 buf) (seq + 1)
  end.

(** The reports [readFrame] tells apart by the status byte.  A response
    packet has the response-pending flag set and carries a sequence number
    in the low five bits. *)
Definition response_packet (r : list Z) (seq : Z) : Prop :=
  len r = FEATURE_RPT_SIZE /\
  Z.land (nth 7 r 0) RESP_PENDING_FLAG <> 0 /\
  Z.land (nth 7 r 0) SEQUENCE_MASK = seq.

(** [response_stream seq rs p]: the reports [rs] are response packets that
    carry the bytes [p] from the sequence number [seq] on, each packet in
    its turn; packets with another sequence number, 0 apart, may come in
    between. *)
Inductive response_stream : Z -> list (list Z) -> list Z -> Prop :=
| stream_end (seq : Z) : response_stream seq [] []
| stream_next (seq : Z) (r : list Z) (rs : list (list Z)) (p : list Z) :
    response_packet r seq ->
    response_stream (seq + 1) rs p ->
    response_stream seq (r :: rs) (take 7 r ++ p)
| stream_stale (seq seq' : Z) (r : list Z) (rs : list (list Z)) (p : list Z) :
    response_packet r seq' -> seq' <> seq -> seq' <> 0 ->
    response_stream seq rs p ->
    response_stream seq (r :: rs) p.

(** A status report: the status byte is 0. *)
Definition status_report (r : list Z) : bool :=
  (len r =? FEATURE_RPT_SIZE) && (nth 7 r 0 =? 0).

(** A report that makes [readFrame] wait: neither a response packet nor a
    status report. *)
Definition waiting_report (r : list Z) : bool :=
  (len r =? FEATURE_RPT_SIZE) && (Z.land (nth 7 r 0) RESP_PENDING_FLAG =? 0)
  && negb (nth 7 r 0 =? 0).

(** The device waits for a touch. *)
Definition wants_touch (r : list Z) : bool :=
  negb (Z.land (nth 7 r 0) RESP_TIMEOUT_WAIT_FLAG =? 0).

(** The argument of the keepalive callback for a waiting report. *)
Definition keepalive_code (r : list Z) : Z :=
  if wants_touch r then STATUS_UPNEEDED else STATUS_PROCESSING.

(** *** [parseTopLevelUsage] *)

(** The outcome of [parseTopLevelUsage]: the two results, a run-time panic,
    or the model out of fuel. *)
Inductive usage_result : Type :=
| Usage (usagePage usage : Z)
| UsagePanic
| UsageNoFuel.

(** [desc[i]] *)
Definition desc_at (desc : list Z) (i : Z) : option Z :=
  if (0 <=? i) && (i <? len desc) then desc !! Z.to_nat i else None.

Definition uint16 (x : Z) : Z := x mod 65536.
Definition uint32 (x : Z) : Z := x mod 4294967296.

(** The [switch sizeCode]. *)
Definition item_size (sizeCode : Z) : Z :=
  if sizeCode =? 0 then 0
  else if sizeCode =? 1 then 1
  else if sizeCode =? 2 then 2
  else if sizeCode =? 3 then 4
  else 0.

(** The [switch size] that reads [val], a [uint32]; [None] is the panic of
    an index out of range. *)
Definition item_value (desc : list Z) (i size : Z) : option Z :=
  if size =? 1 then
    b0 ← desc_at desc i; Some (uint32 b0)
  else if size =? 2 then
    b0 ← desc_at desc i; b1 ← desc_at desc (i + 1);
    Some (Z.lor (uint32 b0) (uint32 (Z.shiftl (uint32 b1) 8)))
  else if size =? 4 then
    b0 ← desc_at desc i; b1 ← desc_at desc (i + 1);
    b2 ← desc_at desc (i + 2); b3 ← desc_at desc (i + 3);
    Some (Z.lor (Z.lor (Z.lor (uint32 b0) (uint32 (Z.shiftl (uint32 b1) 8)))
                       (uint32 (Z.shiftl (uint32 b2) 16)))
                (uint32 (Z.shiftl (uint32 b3) 24)))
  else Some 0.

(** The loop of [parseTopLevelUsage] with its variables [i], [usagePage]
    and [usage]; every run moves [i] forward. *)
Fixpoint parse_loop (fuel : nat) (desc : list Z) (i usagePage usage : Z)
  : usage_result :=
  if i <? len desc then
    match fuel with
    | O => UsageNoFuel
    | S fuel' =>
      match desc_at desc i with
      | None => UsagePanic
      | Some prefix =>
        let i := i + 1 in
        if prefix =? 0xFE then
          if len desc <? i + 2 then Usage usagePage usage
          else
            match desc_at desc i with
            | None => UsagePanic
            | Some size =>
              parse_loop fuel' desc (i + 1 + 1 + size) usagePage usage
            end
        else
          let sizeCode := Z.land prefix 0x03 in
          let size := item_size sizeCode in
          let itemType := Z.land (Z.shiftr prefix 2) 0x03 in
          let itemTag := Z.land (Z.shiftr prefix 4) 0x0F in
          if len desc <? i + size then Usage usagePage usage
          else
            match item_value desc i size with
            | None => UsagePanic
            | Some val =>
              let i := i + size in
              if itemType =? 1 then
                parse_loop fuel' desc i
                  (if itemTag =? 0 then uint16 (Z.land val 0xFFFF) else usagePage)
                  usage
              else if itemType =? 2 then
                parse_loop fuel' desc i usagePage
                  (if itemTag =? 0 then uint16 (Z.land val 0xFFFF) else usage)
              else if itemType =? 0 then
                if itemTag =? 0x0A then Usage usagePage usage
                else parse_loop fuel' desc i usagePage usage
              else parse_loop fuel' desc i usagePage usage
            end
      end
    end
  else Usage usagePage usage.

Definition parseTopLevelUsage (desc : list Z) : usage_result :=
  parse_loop (length desc) desc 0 0 0.

(** Items of a report descriptor.  A short item is a prefix byte other than
    [FE] with as many data bytes as its low two bits announce; its value is
    the data read as a little-endian number. *)
Definition item_type (prefix : Z) : Z := Z.land (Z.shiftr prefix 2) 0x03.
Definition item_tag (prefix : Z) : Z := Z.land (Z.shiftr prefix 4) 0x0F.

Definition short_item (prefix : Z) (data : list Z) : Prop :=
  is_byte prefix /\ prefix <> 0xFE /\
  len data = item_size (Z.land prefix 0x03) /\ Forall is_byte data.

Fixpoint le_value (data : list Z) : Z :=
  match data with
  | [] => 0
  | b :: rest => b + 256 * le_value rest
  end.

(** A Collection main item. *)
Definition is_collection (prefix : Z) : bool :=
  (item_type prefix =? 0) && (item_tag prefix =? 0x0A).

(** What an item before the first Collection does to the usage page and
    the usage: a global item with tag 0 sets the page, a local item with
    tag 0 the usage, both to the low 16 bits of the value. *)
Definition apply_item (prefix : Z) (data : list Z) (st : Z * Z) : Z * Z :=
  if (item_type prefix =? 1) && (item_tag prefix =? 0)
  then (le_value data mod 65536, snd st)
  else if (item_type prefix =? 2) && (item_tag prefix =? 0)
  then (fst st, le_value data mod 65536)
  else st.

(** [usage_items bytes st st']: [bytes] is a sequence of complete short
    items, none of them a Collection, that takes the usage page and the
    usage from [st] to [st']. *)
Inductive usage_items : list Z -> Z * Z -> Z * Z -> Prop :=
| items_nil (st : Z * Z) : usage_items [] st st
| items_cons (prefix : Z) (data rest : list Z) (st st' : Z * Z) :
    short_item prefix data -> is_collection prefix = false ->
    usage_items rest (apply_item prefix data st) st' ->
    usage_items (prefix :: data ++ rest) st st'.

(** *** [New] *)

Record Version : Type := mkVersion { Major : Z; Minor : Z; Patch : Z }.

(** [VersionFromBytes]: the version, or the length that is too short. *)
Definition VersionFromBytes (b : list Z) : Version + Z :=
  if len b <? 3 then inr (len b)
  else inl (mkVersion (nth 0 b 0) (nth 1 b 0) (nth 2 b 0)).

(** [bytesRepeat] *)
Definition bytesRepeat (b : Z) (n : Z) : list Z := replicate (Z.to_nat n) b.

(** The outcome of [New]: the version of the protocol value, an error of
    the protocol, the error of [VersionFromBytes], a panic, or the model out
    of fuel. *)
Inductive new_outcome : Type :=
| NewOk (v : Version)
| NewFail (e : error)
| NewVersionTooShort (n : Z)
| NewCrash
| NewStarved.

Section New.
Context {Chan K : Type}.
Variable conn_Receive : Chan -> (list Z + error) * Chan.
Variable conn_Send : list Z -> Chan -> option error * Chan.

(** [New]; [context.Background()] is never done, and a
    [CommandRejectedError] of the probe is dropped. *)
Definition New (fuel : nat) (s : Chan * K) : new_outcome * (Chan * K) :=
  match receive conn_Receive s with
  | (Ok report, s) =>
    match VersionFromBytes (take 3 (drop 1 report)) with
    | inr n => (NewVersionTooShort n, s)
    | inl ver =>
      if Major ver =? 3 then
        match SendAndReceive conn_Receive conn_Send fuel (fun _ => false) 0x12
                (bytesRepeat 99 51) None s with
        | (Ok _, s) => (NewOk ver, s)
        | (Fail (CommandRejectedError _), s) => (NewOk ver, s)
        | (Fail e, s) => (NewFail e, s)
        | (Crash, s) => (NewCrash, s)
        | (Starved, s) => (NewStarved, s)
        end
      else (NewOk ver, s)
    end
  | (Fail e, s) => (NewFail e, s)
  | (Crash, s) => (NewCrash, s)
  | (Starved, s) => (NewStarved, s)
  end.

(** [ReadStatus] *)
Definition ReadStatus : @M Chan K (list Z) :=
  hbind (receive conn_Receive) (fun r => ret (take 6 (drop 1 r))).

End New.

(** The frame of the probe [New] sends to a device with major version 3:
    51 times the byte ['c'] for the slot [12]. *)
Definition probe_frame : list Z :=
  formatFrame 0x12 (bytesRepeat 99 51 ++ replicate (64 - length (bytesRepeat 99 51)) 0).

End HidMore.

(** ** mhex: the modhex encoding *)

Module Mhex.

(** A Go string is its bytes. *)
Inductive error : Type :=
| ErrLength
| ErrInvalidChar (c : Z).

(** The outcome of a call: a value, an error, a run-time panic, or the
    model out of fuel. *)
Inductive result (A : Type) : Type :=
| ROk (a : A)
| RErr (e : error)
| RPanic
| RNoFuel.
Arguments ROk {A} a.
Arguments RErr {A} e.
Arguments RPanic {A}.
Arguments RNoFuel {A}.

Definition rbind {A B : Type} (m : result A) (k : A -> result B) : result B :=
  match m with
  | ROk a => k a
  | RErr e => RErr e
  | RPanic => RPanic
  | RNoFuel => RNoFuel
  end.

#[global] Instance result_bind : MBind result := fun A B k m => rbind m k.

Definition len (l : list Z) : Z := Z.of_nat (length l).

Definition byte (x : Z) : Z := x mod 256.

(** [l[i]] *)
Definition get (l : list Z) (i : Z) : result Z :=
  if (0 <=? i) && (i <? len l)
  then match l !! Z.to_nat i with Some x => ROk x | None => RPanic end
  else RPanic.

(** [l[i] = v] *)
Definition set (l : list Z) (i v : Z) : result (list Z) :=
  if (0 <=? i) && (i <? len l) then ROk (<[Z.to_nat i := v]> l) else RPanic.

(** [make([]byte, n)] *)
Definition make (n : Z) : list Z := replicate (Z.to_nat n) 0.

(** [New]: the alphabet has 16 bytes, or the call panics. *)
Definition New (alphabet : list Z) : result (list Z) :=
  let encoding := alphabet in
  if negb (len encoding =? 16) then RPanic else ROk encoding.

(** The loop of [Encoding.Encode]: [for i, b := range data]. *)
Fixpoint Encode_loop (encoding data : list Z) (i : Z) (out : list Z)
  : result (list Z) :=
  match data with
  | [] => ROk out
  | b :: data' =>
    hi ← get encoding (Z.shiftr b 4);
    out ← set out (i * 2) hi;
    lo ← get encoding (Z.land b 0x0F);
    out ← set out (i * 2 + 1) lo;
    Encode_loop encoding data' (i + 1) out
  end.

Definition Encoding_Encode (encoding data : list Z) : result (list Z) :=
  let out := make (len data * 2) in
  Encode_loop encoding data 0 out.

(** The closure [index] of [Encoding.Decode], from position [i] on;
    [rest] is [encoding[i:]]. *)
Fixpoint index_from (rest : list Z) (i : Z) (c : Z) : result Z :=
  match rest with
  | [] => RErr (ErrInvalidChar c)
  | e :: rest' => if e =? c then ROk i else index_from rest' (i + 1) c
  end.

Definition index (encoding : list Z) (c : Z) : result Z := index_from encoding 0 c.

(** The loop of [Encoding.Decode]: [for i := 0; i < len(s); i += 2]. *)
Fixpoint Decode_loop (fuel : nat) (encoding s : list Z) (i : Z) (out : list Z)
  : result (list Z) :=
  if i <? len s then
    match fuel with
    | O => RNoFuel
    | S fuel' =>
      c1 ← get s i;
      hi ← index encoding c1;
      c2 ← get s (i + 1);
      lo ← index encoding c2;
      out ← set out (i / 2) (byte (Z.land (Z.lor (Z.shiftl hi 4) lo) 0xFF));
      Decode_loop fuel' encoding s (i + 2) out
    end
  else ROk out.

Definition Encoding_Decode (encoding s : list Z) : result (list Z) :=
  if negb (len s mod 2 =? 0) then RErr ErrLength
  else
    let out := make (len s / 2) in
    Decode_loop (length s) encoding s 0 out.

(** The alphabet ["cbdefghijklnrtuv"]. *)
Definition std_alphabet : list Z :=
  [99; 98; 100; 101; 102; 103; 104; 105; 106; 107; 108; 110; 114; 116; 117; 118].

Definition stdEncoding : result (list Z) := New std_alphabet.

Definition Encode (data : list Z) : result (list Z) :=
  encoding ← stdEncoding; Encoding_Encode encoding data.

Definition Decode (s : list Z) : result (list Z) :=
  encoding ← stdEncoding; Encoding_Decode encoding s.

End Mhex.

(** ** mhex: the encoding as a function of the data *)

Module MhexSpec.
Import Mhex.

(** The two characters of a byte: the character of the high and of the
    low four bits. *)
Definition digits (encoding : list Z) (b : Z) : list Z :=
  [nth (Z.to_nat (b / 16)) encoding 0; nth (Z.to_nat (b mod 16)) encoding 0].

Definition modhex (encoding data : list Z) : list Z := flat_map (digits encoding) data.

(** Decoding two characters at a time. *)
Fixpoint decode_pairs (encoding s : list Z) : result (list Z) :=
  match s with
  | [] => ROk []
  | [_] => RPanic
  | c1 :: c2 :: rest =>
    hi ← index encoding c1;
    lo ← index encoding c2;
    out ← decode_pairs encoding rest;
    ROk (byte (Z.land (Z.lor (Z.shiftl hi 4) lo) 0xFF) :: out)
  end.

End MhexSpec.

(** ** cmd/examples/run/main.go: the device-information TLVs *)

Module RunExample.

(** A [TagValue]; the type [Tag] is [uint]. *)
#[local] Unset Elimination Schemes.
Inductive TagValue : Type :=
  mkTagValue {
    Tag : Z;
    Value : list Z;
    Children : list TagValue;
    SkipLength : bool
  }.
#[local] Set Elimination Schemes.

Definition TagValues : Type := list TagValue.

Inductive error : Type :=
| errInvalidLength
| ErrDecode (cause : error)
| ErrInvalidResponseLength (field : string).

(** The outcome of a call: a value, an error, a run-time panic, or the
    model out of fuel. *)
Inductive result (A : Type) : Type :=
| ROk (a : A)
| RErr (e : error)
| RPanic
| RNoFuel.
Arguments ROk {A} a.
Arguments RErr {A} e.
Arguments RPanic {A}.
Arguments RNoFuel {A}.

Definition rbind {A B : Type} (m : result A) (k : A -> result B) : result B :=
  match m with
  | ROk a => k a
  | RErr e => RErr e
  | RPanic => RPanic
  | RNoFuel => RNoFuel
  end.

#[global] Instance result_bind : MBind result := fun A B k m => rbind m k.

Definition len {A : Type} (l : list A) : Z := Z.of_nat (length l).

(** [l[i]] *)
Definition get {A : Type} (l : list A) (i : Z) : result A :=
  if (0 <=? i) && (i <? len l)
  then match l !! Z.to_nat i with Some x => ROk x | None => RPanic end
  else RPanic.

(** [l[lo:hi]] and [l[lo:]].  The bounds are checked against the length:
    the capacity, which Go allows as the upper bound, is not modelled, and
    every [l[lo:hi]] of this file stands behind a check of [hi] against the
    length. *)
Definition slice {A : Type} (l : list A) (lo hi : Z) : result (list A) :=
  if (0 <=? lo) && (lo <=? hi) && (hi <=? len l)
  then ROk (take (Z.to_nat (hi - lo)) (drop (Z.to_nat lo) l))
  else RPanic.

Definition slice_from {A : Type} (l : list A) (lo : Z) : result (list A) :=
  slice l lo (len l).

(** *** [DecodeSimple] *)

(** The loop [for len(buf) > 0]; every run takes at least two bytes off
    [buf]. *)
Fixpoint DecodeSimple_loop (fuel : nat) (buf : list Z) (tvs : TagValues)
  : result TagValues :=
  if 0 <? len buf then
    match fuel with
    | O => RNoFuel
    | S fuel' =>
      if len buf <? 2 then RErr errInvalidLength else
      b1 ← get buf 1;
      '(o, l) ←
        (if negb (b1 =? 0xff) then ROk (2, b1)
         else
           if len buf <? 4 then RErr errInvalidLength else
           b2 ← get buf 2;
           b3 ← get buf 3;
           let l := Z.shiftl b2 8 + b3 in
           if len buf <? 4 + l then RErr errInvalidLength else ROk (4, l));
      if len buf <? o + l then RErr errInvalidLength else
      b0 ← get buf 0;
      v ← slice buf o (o + l);
      let tvs := tvs ++ [mkTagValue b0 v [] false] in
      buf ← slice_from buf (o + l);
      DecodeSimple_loop fuel' buf tvs
    end
  else ROk tvs.

Definition DecodeSimple (buf : list Z) : result TagValues :=
  DecodeSimple_loop (length buf) buf [].

(** *** [TagValues]: [GetAll], [DeleteAll], [PopAll] *)

(** A [TagValues] value in memory: the backing array and the length of
    the slice.  The elements of the slice are the first [slen] ones. *)
Record tvslice : Type := TVS { array : list TagValue; slen : Z }.

Definition visible (s : tvslice) : TagValues := take (Z.to_nat (slen s)) (array s).

(** [s[i]] and [s[i] = v] on a slice of length [n] over [arr]. *)
Definition get_in {A : Type} (arr : list A) (n i : Z) : result A :=
  if (0 <=? i) && (i <? n)
  then match arr !! Z.to_nat i with Some x => ROk x | None => RPanic end
  else RPanic.

Definition set_in {A : Type} (arr : list A) (n i : Z) (v : A) : result (list A) :=
  if (0 <=? i) && (i <? n) && (i <? len arr)
  then ROk (<[Z.to_nat i := v]> arr)
  else RPanic.

(** [s[:n]] *)
Definition reslice (s : tvslice) (n : Z) : result tvslice :=
  if (0 <=? n) && (n <=? len (array s)) then ROk (TVS (array s) n) else RPanic.

(** [GetAll]: the range loop, element by element. *)
Definition GetAll (tvs : tvslice) (tag : Z) : TagValues :=
  fold_left (fun s tv => if Tag tv =? tag then s ++ [tv] else s) (visible tvs) [].

(** The loop of [DeleteAll].  The range expression [*tvs] is evaluated
    once; run [i] reads element [i] of the array as it is then, and the
    kept elements are written to the front of the same array. *)
Fixpoint DeleteAll_loop (todo : nat) (i : Z) (tag : Z) (tvs : tvslice)
    (arr : list TagValue) (n r : Z) : result (list TagValue * Z * Z) :=
  match todo with
  | O => ROk (arr, n, r)
  | S todo' =>
    tv ← get_in arr (slen tvs) i;
    if negb (Tag tv =? tag) then
      arr ← set_in arr (slen tvs) n tv;
      DeleteAll_loop todo' (i + 1) tag tvs arr (n + 1) r
    else
      DeleteAll_loop todo' (i + 1) tag tvs arr n (r + 1)
  end.

(** [DeleteAll]: the new value of [*tvs] and the result. *)
Definition DeleteAll (tvs : tvslice) (tag : Z) : result (tvslice * Z) :=
  '(arr, n, r) ← DeleteAll_loop (Z.to_nat (slen tvs)) 0 tag tvs (array tvs) 0 0;
  tvs' ← reslice (TVS arr (slen tvs)) n;
  ROk (tvs', r).

Fixpoint PopAll_loop (todo : nat) (i : Z) (tag : Z) (tvs : tvslice)
    (arr : list TagValue) (n : Z) (s : TagValues)
  : result (list TagValue * Z * TagValues) :=
  match todo with
  | O => ROk (arr, n, s)
  | S todo' =>
    tv ← get_in arr (slen tvs) i;
    if negb (Tag tv =? tag) then
      arr ← set_in arr (slen tvs) n tv;
      PopAll_loop todo' (i + 1) tag tvs arr (n + 1) s
    else
      PopAll_loop todo' (i + 1) tag tvs arr n (s ++ [tv])
  end.

Definition PopAll (tvs : tvslice) (tag : Z) : result (tvslice * TagValues) :=
  '(arr, n, s) ← PopAll_loop (Z.to_nat (slen tvs)) 0 tag tvs (array tvs) 0 [];
  tvs' ← reslice (TVS arr (slen tvs)) n;
  ROk (tvs', s).

(** *** [Version] *)

Record Version : Type := mkVersion { Major : Z; Minor : Z; Patch : Z }.

Definition Less (v w : Version) : bool :=
  if negb (Major v =? Major w) then Major w <? Major v
  else if negb (Minor v =? Minor w) then Minor w <? Minor v
  else Patch w <? Patch v.

(** *** [Unmarshal] *)

Definition TagCapsSupportedUSB : Z := 0x01.
Definition TagSerialNumber : Z := 0x02.
Definition TagCapsEnabledUSB : Z := 0x03.
Definition TagFormFactor : Z := 0x04.
Definition TagFirmwareVersion : Z := 0x05.
Definition TagAutoEjectTimeout : Z := 0x06.
Definition TagChalRespTimeout : Z := 0x07.
Definition TagDeviceFlags : Z := 0x08.
Definition TagAppVersions : Z := 0x09.
Definition TagConfigLock : Z := 0x0a.
Definition TagUnlock : Z := 0x0b.
Definition TagReboot : Z := 0x0c.
Definition TagCapsSupportedNFC : Z := 0x0d.
Definition TagCapsEnabledNFC : Z := 0x0e.

(** [time.Second], in nanoseconds. *)
Definition Second : Z := 1000000000.

Record DeviceInfo : Type := mkDeviceInfo {
  Flags : Z;
  CapsSupportedUSB : Z;
  CapsEnabledUSB : Z;
  CapsSupportedNFC : Z;
  CapsEnabledNFC : Z;
  SerialNumber : Z;
  FirmwareVersion : Version;
  FormFactor : Z;
  AutoEjectTimeout : Z;
  ChalRespTimeout : Z;
  IsLocked : bool;
  IsSky : bool;
  IsFIPS : bool
}.

(** [var di DeviceInfo] *)
Definition zero_DeviceInfo : DeviceInfo :=
  mkDeviceInfo 0 0 0 0 0 0 (mkVersion 0 0 0) 0 0 0 false false false.

(** Assignments to the fields of [di]. *)
Definition set_Flags (di : DeviceInfo) (v : Z) : DeviceInfo :=
  mkDeviceInfo v (CapsSupportedUSB di) (CapsEnabledUSB di) (CapsSupportedNFC di)
    (CapsEnabledNFC di) (SerialNumber di) (FirmwareVersion di) (FormFactor di)
    (AutoEjectTimeout di) (ChalRespTimeout di) (IsLocked di) (IsSky di) (IsFIPS di).
Definition set_CapsEnabledUSB (di : DeviceInfo) (v : Z) : DeviceInfo :=
  mkDeviceInfo (Flags di) (CapsSupportedUSB di) v (CapsSupportedNFC di)
    (CapsEnabledNFC di) (SerialNumber di) (FirmwareVersion di) (FormFactor di)
    (AutoEjectTimeout di) (ChalRespTimeout di) (IsLocked di) (IsSky di) (IsFIPS di).
Definition set_CapsSupportedNFC (di : DeviceInfo) (v : Z) : DeviceInfo :=
  mkDeviceInfo (Flags di) (CapsSupportedUSB di) (CapsEnabledUSB di) v
    (CapsEnabledNFC di) (SerialNumber di) (FirmwareVersion di) (FormFactor di)
    (AutoEjectTimeout di) (ChalRespTimeout di) (IsLocked di) (IsSky di) (IsFIPS di).
Definition set_CapsEnabledNFC (di : DeviceInfo) (v : Z) : DeviceInfo :=
  mkDeviceInfo (Flags di) (CapsSupportedUSB di) (CapsEnabledUSB di) (CapsSupportedNFC di)
    v (SerialNumber di) (FirmwareVersion di) (FormFactor di)
    (AutoEjectTimeout di) (ChalRespTimeout di) (IsLocked di) (IsSky di) (IsFIPS di).
Definition set_SerialNumber (di : DeviceInfo) (v : Z) : DeviceInfo :=
  mkDeviceInfo (Flags di) (CapsSupportedUSB di) (CapsEnabledUSB di) (CapsSupportedNFC di)
    (CapsEnabledNFC di) v (FirmwareVersion di) (FormFactor di)
    (AutoEjectTimeout di) (ChalRespTimeout di) (IsLocked di) (IsSky di) (IsFIPS di).
Definition set_FirmwareVersion (di : DeviceInfo) (v : Version) : DeviceInfo :=
  mkDeviceInfo (Flags di) (CapsSupportedUSB di) (CapsEnabledUSB di) (CapsSupportedNFC di)
    (CapsEnabledNFC di) (SerialNumber di) v (FormFactor di)
    (AutoEjectTimeout di) (ChalRespTimeout di) (IsLocked di) (IsSky di) (IsFIPS di).
Definition set_FormFactor (di : DeviceInfo) (v : Z) (fips sky : bool) : DeviceInfo :=
  mkDeviceInfo (Flags di) (CapsSupportedUSB di) (CapsEnabledUSB di) (CapsSupportedNFC di)
    (CapsEnabledNFC di) (SerialNumber di) (FirmwareVersion di) v
    (AutoEjectTimeout di) (ChalRespTimeout di) (IsLocked di) sky fips.
Definition set_AutoEjectTimeout (di : DeviceInfo) (v : Z) : DeviceInfo :=
  mkDeviceInfo (Flags di) (CapsSupportedUSB di) (CapsEnabledUSB di) (CapsSupportedNFC di)
    (CapsEnabledNFC di) (SerialNumber di) (FirmwareVersion di) (FormFactor di)
    v (ChalRespTimeout di) (IsLocked di) (IsSky di) (IsFIPS di).
Definition set_ChalRespTimeout (di : DeviceInfo) (v : Z) : DeviceInfo :=
  mkDeviceInfo (Flags di) (CapsSupportedUSB di) (CapsEnabledUSB di) (CapsSupportedNFC di)
    (CapsEnabledNFC di) (SerialNumber di) (FirmwareVersion di) (FormFactor di)
    (AutoEjectTimeout di) v (IsLocked di) (IsSky di) (IsFIPS di).
Definition set_IsLocked (di : DeviceInfo) (v : bool) : DeviceInfo :=
  mkDeviceInfo (Flags di) (CapsSupportedUSB di) (CapsEnabledUSB di) (CapsSupportedNFC di)
    (CapsEnabledNFC di) (SerialNumber di) (FirmwareVersion di) (FormFactor di)
    (AutoEjectTimeout di) (ChalRespTimeout di) v (IsSky di) (IsFIPS di).

(** [binary.BigEndian.Uint16] and [Uint32]: the last byte is read first,
    as the bounds check. *)
Definition BigEndian_Uint16 (b : list Z) : result Z :=
  b1 ← get b 1;
  b0 ← get b 0;
  ROk (Z.lor b1 (Z.shiftl b0 8)).

Definition BigEndian_Uint32 (b : list Z) : result Z :=
  b3 ← get b 3;
  b0 ← get b 0; b1 ← get b 1; b2 ← get b 2;
  ROk (Z.lor (Z.lor (Z.lor b3 (Z.shiftl b2 8)) (Z.shiftl b1 16)) (Z.shiftl b0 24)).

(** The closure [readCap]; [field] is the text the caller adds to the
    error. *)
Definition readCap (field : string) (tv : TagValue) : result Z :=
  if len (Value tv) =? 1 then get (Value tv) 0
  else if len (Value tv) =? 2 then BigEndian_Uint16 (Value tv)
  else RErr (ErrInvalidResponseLength field).

(** A value of the length [n], or the error for [field]. *)
Definition expect_len (field : string) (tv : TagValue) (n : Z) : result unit :=
  if negb (len (Value tv) =? n) then RErr (ErrInvalidResponseLength field) else ROk tt.

(** One run of the loop [for _, tv := range tvs] of [Unmarshal]: the
    [switch tv.Tag]. *)
Definition Unmarshal_step (di : DeviceInfo) (tv : TagValue) : result DeviceInfo :=
  if Tag tv =? TagCapsSupportedUSB then
    c ← readCap "CapsSupportedUSB" tv; ROk (set_CapsSupportedNFC di c)
  else if Tag tv =? TagCapsEnabledUSB then
    c ← readCap "CapsEnabledUSB" tv; ROk (set_CapsEnabledUSB di c)
  else if Tag tv =? TagCapsSupportedNFC then
    _ ← expect_len "CapsSupportedNFC" tv 2;
    c ← BigEndian_Uint16 (Value tv); ROk (set_CapsSupportedNFC di c)
  else if Tag tv =? TagCapsEnabledNFC then
    _ ← expect_len "CapsEnabledNFC" tv 2;
    c ← BigEndian_Uint16 (Value tv); ROk (set_CapsEnabledNFC di c)
  else if Tag tv =? TagSerialNumber then
    _ ← expect_len "SerialNumber" tv 4;
    n ← BigEndian_Uint32 (Value tv); ROk (set_SerialNumber di n)
  else if Tag tv =? TagFormFactor then
    _ ← expect_len "FormFactor" tv 1;
    f ← get (Value tv) 0;
    ROk (set_FormFactor di (Z.land f 0xf)
           (negb (Z.land f 0x80 =? 0)) (negb (Z.land f 0x40 =? 0)))
  else if Tag tv =? TagFirmwareVersion then
    _ ← expect_len "FirmwareVersion" tv 3;
    v0 ← get (Value tv) 0; v1 ← get (Value tv) 1; v2 ← get (Value tv) 2;
    ROk (set_FirmwareVersion di (mkVersion v0 v1 v2))
  else if Tag tv =? TagAutoEjectTimeout then
    _ ← expect_len "AutoEjectTimeout" tv 2;
    t ← BigEndian_Uint16 (Value tv); ROk (set_AutoEjectTimeout di (Second * t))
  else if Tag tv =? TagChalRespTimeout then
    _ ← expect_len "ChalRespTimeout" tv 1;
    t ← get (Value tv) 0; ROk (set_ChalRespTimeout di (Second * t))
  else if Tag tv =? TagDeviceFlags then
    _ ← expect_len "DeviceFlags" tv 1;
    f ← get (Value tv) 0; ROk (set_Flags di f)
  else if Tag tv =? TagConfigLock then
    _ ← expect_len "ConfigLock" tv 1;
    l ← get (Value tv) 0; ROk (set_IsLocked di (negb (l =? 0)))
  else ROk di.

Fixpoint Unmarshal_loop (tvs : TagValues) (di : DeviceInfo) : result DeviceInfo :=
  match tvs with
  | [] => ROk di
  | tv :: tvs' => di ← Unmarshal_step di tv; Unmarshal_loop tvs' di
  end.

Definition Unmarshal (b : list Z) : result DeviceInfo :=
  let di := zero_DeviceInfo in
  rest ← slice_from b 1;
  match DecodeSimple rest with
  | ROk tvs => Unmarshal_loop tvs di
  | RErr e => RErr (ErrDecode e)
  | RPanic => RPanic
  | RNoFuel => RNoFuel
  end.

End RunExample.

(** ** cmd/examples/run/main.go: records on the wire, and the order of versions *)

Module RunExampleSpec.
Import RunExample.

(** The header of a record with the tag [t] and [l] value bytes: the tag
    and one length byte other than [FF], or the tag, [FF] and two length
    bytes. *)
Inductive simple_header : Z -> Z -> list Z -> Prop :=
| header_short (t l : Z) : 0 <= l < 0xff -> simple_header t l [t; l]
| header_long (t l : Z) :
    0 <= l < 65536 -> simple_header t l [t; 0xff; l / 256; l mod 256].

(** [simple_records tvs bytes]: [bytes] holds the records [tvs], one after
    the other. *)
Inductive simple_records : TagValues -> list Z -> Prop :=
| simple_nil : simple_records [] []
| simple_cons (t : Z) (v h : list Z) (tvs : TagValues) (rest : list Z) :
    simple_header t (len v) h ->
    simple_records tvs rest ->
    simple_records (mkTagValue t v [] false :: tvs) (h ++ v ++ rest).

(** [newer v w]: the version [v] is above [w], the major number counting
    first and the patch number last. *)
Definition newer (v w : Version) : Prop :=
  Major w < Major v \/
  (Major w = Major v /\ (Minor w < Minor v \/ (Minor w = Minor v /\ Patch w < Patch v))).

End RunExampleSpec.

(** * Properties *)

(** ** Go slices *)

Module GoSliceFacts.
Import GoSlice.

Lemma index_in_range (s : slice) (i : Z) :
  0 <= i < slen s -> index s i = backing s !! Z.to_nat i.
Proof.
  intros H. unfold index.
  replace (0 <=? i) with true by (symmetry; apply Z.leb_le; lia).
  replace (i <? slen s) with true by (symmetry; apply Z.ltb_lt; lia).
  reflexivity.
Qed.

Lemma index_out_of_range (s : slice) (i : Z) :
  slen s <= i -> index s i = None.
Proof.
  intros H. unfold index.
  replace (i <? slen s) with false by (symmetry; apply Z.ltb_ge; lia).
  now rewrite andb_false_r.
Qed.

Lemma slice_range_ok (s : slice) (lo hi : Z) :
  0 <= lo <= hi -> hi <= cap s ->
  slice_range s lo hi = Some (Slice (drop (Z.to_nat lo) (backing s)) (hi - lo)).
Proof.
  intros H1 H2. unfold slice_range.
  replace (0 <=? lo) with true by (symmetry; apply Z.leb_le; lia).
  replace (lo <=? hi) with true by (symmetry; apply Z.leb_le; lia).
  replace (hi <=? cap s) with true by (symmetry; apply Z.leb_le; lia).
  reflexivity.
Qed.

Lemma slice_range_past_cap (s : slice) (lo hi : Z) :
  cap s < hi -> slice_range s lo hi = None.
Proof.
  intros H. unfold slice_range.
  replace (hi <=? cap s) with false by (symmetry; apply Z.leb_gt; lia).
  now rewrite andb_false_r.
Qed.

Lemma slice_from_ok (s : slice) (lo : Z) :
  0 <= lo <= slen s ->
  slice_from s lo = Some (Slice (drop (Z.to_nat lo) (backing s)) (slen s - lo)).
Proof.
  intros H. unfold slice_from.
  replace (0 <=? lo) with true by (symmetry; apply Z.leb_le; lia).
  replace (lo <=? slen s) with true by (symmetry; apply Z.leb_le; lia).
  reflexivity.
Qed.

End GoSliceFacts.

(** ** scard/data_object.go: [doFindTLV] *)

Module TLVFacts.
Import GoSlice GoSliceFacts TLV TLVParts.

(** *** The loop body in two halves *)

Ltac flow_cases :=
  repeat (cbn [bind checked call];
          match goal with
          | |- context [checked (index ?d ?i)] => destruct (index d i)
          | |- context [if ?c then _ else _] => destruct c
          end);
  cbn [bind checked call].

Lemma findLoop_S (fuel : nat) (data : slice) (tag nestLevel o n : Z) :
  findLoop (S fuel) data tag nestLevel o n =
  if n <? 2 then Return None else
  h ← header data o n;
  record (fun sub => findLoop fuel sub tag (nestLevel + 1) 0 (slen sub))
         (fun o n => findLoop fuel data tag nestLevel o n)
         data tag nestLevel h.
Proof.
  cbn [findLoop]. unfold header, record, mbind, flow_bind.
  destruct (n <? 2); [reflexivity|].
  destruct (index data o) as [d0|]; cbn [bind checked]; [|reflexivity].
  destruct ((d0 =? 0) || (d0 =? 255)); flow_cases; reflexivity.
Qed.

(** *** Bounds *)

Lemma index_Some (s : slice) (i x : Z) :
  index s i = Some x -> 0 <= i < slen s /\ backing s !! Z.to_nat i = Some x.
Proof.
  unfold index. destruct (0 <=? i) eqn:H1, (i <? slen s) eqn:H2; cbn [andb];
    try discriminate. intros H. split; [lia | exact H].
Qed.

Lemma index_byte (s : slice) (i x : Z) :
  Forall is_byte (backing s) -> index s i = Some x -> is_byte x.
Proof.
  intros Hb Hi. apply index_Some in Hi as [_ Hi].
  exact (Forall_lookup_1 _ _ _ _ Hb Hi).
Qed.

Lemma Uint16_nonneg (hi lo : Z) : 0 <= hi -> 0 <= lo -> 0 <= Uint16 hi lo.
Proof.
  intros H1 H2. unfold Uint16. apply Z.lor_nonneg. split; [|exact H2].
  now apply Z.shiftl_nonneg.
Qed.

(** Taking the header of a record apart case by case; every successful
    [index] leaves its bounds and the range of the byte in the context. *)
Ltac header_cases Hb :=
  repeat (cbn [bind checked];
          match goal with
          | |- context [checked (index ?d ?i)] =>
            let E := fresh "E" in
            destruct (index d i) eqn:E;
            [ pose proof (index_byte d i _ Hb E);
              apply index_Some in E as [? ?] | ]
          | |- context [if ?c then _ else _] =>
            let C := fresh "C" in destruct c eqn:C
          end);
  cbn [bind checked].

(** The header of a record is at least two bytes long, stays within the
    buffer and declares a non-negative length. *)
Lemma header_Next (data : slice) (o n : Z) (c : bool) (t L o' n' : Z) :
  Forall is_byte (backing data) ->
  o + n = slen data ->
  header data o n = Next (c, t, L, o', n') ->
  o + 2 <= o' /\ o' + n' = slen data /\ 0 <= n' /\ 0 <= L.
Proof.
  intros Hb Hn. unfold header, mbind, flow_bind.
  header_cases Hb; intros [= <- <- <- <- <-] || discriminate;
    unfold is_byte in *;
    (repeat split; [lia | lia | lia | try (apply Uint16_nonneg; lia)]).
Qed.

Lemma header_fuel (data : slice) (o n : Z) : header data o n <> NoFuel.
Proof.
  unfold header, mbind, flow_bind.
  repeat (cbn [bind checked];
          match goal with
          | |- context [checked (index ?d ?i)] => destruct (index d i)
          | |- context [if ?c then _ else _] => destruct c
          end); cbn [bind checked]; discriminate.
Qed.

(** *** Fuel *)

Lemma slice_from_Some (s sub : slice) (lo : Z) :
  slice_from s lo = Some sub ->
  0 <= lo <= slen s /\
  sub = Slice (drop (Z.to_nat lo) (backing s)) (slen s - lo).
Proof.
  unfold slice_from. destruct (0 <=? lo) eqn:H1, (lo <=? slen s) eqn:H2;
    cbn [andb]; try discriminate. intros [= <-]. split; [lia | reflexivity].
Qed.

(** [len(data)] runs of the loop are enough: the model of [doFindTLV]
    never runs out of fuel. *)
Lemma findLoop_enough_fuel (fuel : nat) :
  forall (data : slice) (tag nestLevel o n : Z),
    Forall is_byte (backing data) ->
    o + n = slen data ->
    (Z.to_nat n < fuel)%nat ->
    findLoop fuel data tag nestLevel o n <> NoFuel.
Proof.
  induction fuel as [|fuel IH]; intros data tag nestLevel o n Hb Hn Hfuel; [lia|].
  rewrite findLoop_S. destruct (n <? 2) eqn:Hn2; [discriminate|].
  destruct (header data o n) as [[[[[c t] L] o'] n']| | |] eqn:Hh;
    unfold mbind, flow_bind; cbn [bind]; try discriminate;
    [|now apply header_fuel in Hh].
  apply header_Next in Hh as (Ho' & Hn' & Hn0 & HL); [|exact Hb|exact Hn].
  assert (Hrest :
    (if t =? tag
     then bind (checked (slice_range data o' (o' + L)))
                (fun r => Return (Some (bytes_of r)))
     else if n' <? L then Return None
          else findLoop fuel data tag nestLevel (o' + L) (n' - L))
    <> (NoFuel : flow Empty_set)).
  { destruct (t =? tag).
    - destruct (slice_range data o' (o' + L)); cbn [bind checked]; discriminate.
    - destruct (n' <? L) eqn:HnL; [discriminate|].
      apply IH; [exact Hb | lia | lia]. }
  unfold record, mbind, flow_bind.
  destruct (c && (nestLevel <? 100)); cbn [bind]; [|exact Hrest].
  destruct (slice_from data o') as [sub|] eqn:Hsub; cbn [bind checked];
    [|discriminate].
  apply slice_from_Some in Hsub as [Hlo ->]. cbn [slen].
  match goal with
  | |- context [call ?m] => destruct m as [[]|r| |] eqn:Hdive
  end; cbn [bind call]; try discriminate.
  - destruct (0 <? len_ret r); cbn [bind]; [discriminate | exact Hrest].
  - exfalso. revert Hdive. apply IH; cbn [backing slen]; [|lia|lia].
    now apply Forall_drop.
Qed.

Lemma doFindTLV_fuel (data : slice) (tag nestLevel : Z) :
  Forall is_byte (backing data) -> doFindTLV data tag nestLevel <> NoFuel.
Proof.
  intros Hb. unfold doFindTLV. apply findLoop_enough_fuel; [exact Hb | lia | lia].
Qed.

(** More fuel does not change a result. *)
Lemma findLoop_more_fuel (fuel : nat) :
  forall (fuel' : nat) (data : slice) (tag nestLevel o n : Z),
    (fuel <= fuel')%nat ->
    findLoop fuel data tag nestLevel o n <> NoFuel ->
    findLoop fuel' data tag nestLevel o n = findLoop fuel data tag nestLevel o n.
Proof.
  induction fuel as [|fuel IH]; intros fuel' data tag nestLevel o n Hle Hne;
    [now cbn in Hne|].
  destruct fuel' as [|fuel']; [lia|].
  rewrite findLoop_S in Hne. rewrite !findLoop_S.
  destruct (n <? 2); [reflexivity|].
  destruct (header data o n) as [[[[[c t] L] o'] n']| | |];
    unfold mbind, flow_bind in *; cbn [bind] in *; try reflexivity.
  unfold record, mbind, flow_bind in *.
  assert (Hrest :
    (if t =? tag
     then bind (checked (slice_range data o' (o' + L)))
                (fun r => Return (Some (bytes_of r)))
     else if n' <? L then Return None
          else findLoop fuel data tag nestLevel (o' + L) (n' - L))
    <> (NoFuel : flow Empty_set) ->
    (if t =? tag
     then bind (checked (slice_range data o' (o' + L)))
                (fun r => Return (Some (bytes_of r)))
     else if n' <? L then Return None
          else findLoop fuel' data tag nestLevel (o' + L) (n' - L))
    = (if t =? tag
       then bind (checked (slice_range data o' (o' + L)))
                  (fun r => Return (Some (bytes_of r)))
       else if n' <? L then Return None
            else findLoop fuel data tag nestLevel (o' + L) (n' - L))).
  { destruct (t =? tag); [reflexivity|].
    destruct (n' <? L); [reflexivity|]. intros H. apply IH; [lia | exact H]. }
  destruct (c && (nestLevel <? 100)); cbn [bind] in *; [|now apply Hrest].
  destruct (slice_from data o') as [sub|]; cbn [bind checked] in *; [|reflexivity].
  destruct (findLoop fuel sub tag (nestLevel + 1) 0 (slen sub))
    as [[]|r| |] eqn:Hdive.
  - rewrite (IH fuel' sub tag (nestLevel + 1) 0 (slen sub)) by (rewrite ?Hdive; (lia || discriminate)).
    rewrite Hdive. cbn [bind call] in *.
    destruct (0 <? len_ret r); cbn [bind] in *; [reflexivity | now apply Hrest].
  - rewrite (IH fuel' sub tag (nestLevel + 1) 0 (slen sub)) by (rewrite ?Hdive; (lia || discriminate)).
    rewrite Hdive. reflexivity.
  - now cbn [bind call] in Hne.
Qed.

(** *** Searching from an offset is searching the rest *)

Lemma index_shift (data : slice) (k i : Z) :
  0 <= k -> 0 <= i -> index (shift data k) i = index data (k + i).
Proof.
  intros Hk Hi. unfold index, shift. cbn [backing slen].
  rewrite lookup_drop, <- Z2Nat.inj_add by lia.
  destruct (0 <=? i) eqn:H1, (i <? slen data - k) eqn:H2,
           (0 <=? k + i) eqn:H3, (k + i <? slen data) eqn:H4;
    cbn [andb]; (reflexivity || lia).
Qed.

(** The header read at [k + o] in [data] is the header read at [o] in
    [data[k:]]; the offset that comes out is [k] further. *)
Lemma header_shift (data : slice) (k o n : Z) :
  0 <= k -> 0 <= o ->
  header (shift data k) o n =
  flow_map (fun '(c, t, L, o', n') => (c, t, L, o' - k, n')) (header data (k + o) n).
Proof.
  intros Hk Ho. unfold header, flow_map, mbind, flow_bind.
  repeat (cbn [bind checked];
          rewrite ?index_shift by lia;
          rewrite ?Z.add_sub_assoc, ?Z.add_assoc;
          match goal with
          | |- context [checked (index data ?i)] => destruct (index data i)
          | |- context [if ?c then _ else _] => destruct c
          end);
  cbn [bind checked]; try reflexivity; repeat f_equal; lia.
Qed.

Lemma slice_range_shift (data : slice) (k lo hi : Z) :
  0 <= k <= slen data -> slen data <= cap data -> 0 <= lo ->
  option_map bytes_of (slice_range (shift data k) lo hi)
  = option_map bytes_of (slice_range data (k + lo) (k + hi)).
Proof.
  intros Hk Hwf Hlo. unfold slice_range, shift, cap in *. cbn [backing slen].
  rewrite length_drop.
  destruct (0 <=? lo) eqn:H1, (lo <=? hi) eqn:H2,
           (hi <=? Z.of_nat (length (backing data) - Z.to_nat k)) eqn:H3,
           (0 <=? k + lo) eqn:H4, (k + lo <=? k + hi) eqn:H5,
           (k + hi <=? Z.of_nat (length (backing data))) eqn:H6;
    cbn [andb option_map]; try reflexivity; try lia.
  unfold bytes_of. cbn [backing slen].
  rewrite drop_drop, <- Z2Nat.inj_add by lia.
  do 3 f_equal. lia.
Qed.

Lemma findLoop_shift (fuel : nat) :
  forall (data : slice) (tag nestLevel k o n : Z),
    Forall is_byte (backing data) ->
    0 <= k <= slen data -> slen data <= cap data ->
    0 <= o -> k + o + n = slen data ->
    findLoop fuel (shift data k) tag nestLevel o n
    = findLoop fuel data tag nestLevel (k + o) n.
Proof.
  induction fuel as [|fuel IH]; intros data tag nestLevel k o n Hb Hk Hwf Ho Hn;
    [reflexivity|].
  rewrite !findLoop_S. destruct (n <? 2); [reflexivity|].
  rewrite header_shift by lia. unfold flow_map, mbind, flow_bind.
  destruct (header data (k + o) n) as [[[[[c t] L] o'] n']| | |] eqn:Hh;
    cbn [bind]; try reflexivity.
  apply header_Next in Hh as (Ho' & Hn' & Hn0 & HL); [|exact Hb|lia].
  unfold record, mbind, flow_bind.
  assert (Hrest :
    (if t =? tag
     then bind (checked (slice_range (shift data k) (o' - k) (o' - k + L)))
                (fun r => Return (Some (bytes_of r)))
     else if n' <? L then Return None
          else findLoop fuel (shift data k) tag nestLevel (o' - k + L) (n' - L))
    = (if t =? tag
       then bind (checked (slice_range data o' (o' + L)))
                  (fun r => Return (Some (bytes_of r)))
       else if n' <? L then Return None
            else findLoop fuel data tag nestLevel (o' + L) (n' - L))).
  { destruct (t =? tag).
    - pose proof (slice_range_shift data k (o' - k) (o' - k + L) Hk Hwf ltac:(lia)) as Hr.
      replace (k + (o' - k)) with o' in Hr by lia.
      replace (k + (o' - k + L)) with (o' + L) in Hr by lia.
      destruct (slice_range (shift data k) (o' - k) (o' - k + L)),
               (slice_range data o' (o' + L));
        cbn [option_map bind checked] in *; congruence.
    - destruct (n' <? L) eqn:HnL; [reflexivity|].
      rewrite IH by (assumption || lia). f_equal. lia. }
  destruct (c && (nestLevel <? 100)); cbn [bind]; [|exact Hrest].
  rewrite (slice_from_ok (shift data k)) by (cbn [shift slen]; lia).
  rewrite (slice_from_ok data) by lia.
  cbn [bind checked shift backing slen].
  rewrite drop_drop, <- Z2Nat.inj_add by lia.
  replace (k + (o' - k)) with o' by lia.
  replace (slen data - k - (o' - k)) with (slen data - o') by lia.
  match goal with
  | |- context [call ?m] => destruct m as [[]|r| |]
  end; cbn [bind call]; try reflexivity.
  destruct (0 <? len_ret r); cbn [bind]; [reflexivity | exact Hrest].
Qed.

(** The run of the loop that starts at offset [o] is [doFindTLV] on
    [data[o:]]. *)
Lemma findLoop_rest (fuel : nat) (data : slice) (tag nestLevel o : Z) :
  Forall is_byte (backing data) ->
  0 <= o <= slen data -> slen data <= cap data ->
  (Z.to_nat (slen data - o) < fuel)%nat ->
  findLoop fuel data tag nestLevel o (slen data - o)
  = doFindTLV (shift data o) tag nestLevel.
Proof.
  intros Hb Ho Hwf Hfuel.
  pose proof (findLoop_shift fuel data tag nestLevel o 0 (slen data - o)
                Hb Ho Hwf ltac:(lia) ltac:(lia)) as Hs.
  rewrite Z.add_0_r in Hs. rewrite <- Hs.
  unfold doFindTLV. cbn [shift slen].
  destruct (Nat.le_ge_cases fuel (S (Z.to_nat (slen data - o)))) as [Hle|Hge].
  - symmetry. apply findLoop_more_fuel; [exact Hle|].
    apply findLoop_enough_fuel; cbn [shift backing slen]; [|lia|lia].
    now apply Forall_drop.
  - apply findLoop_more_fuel; [exact Hge|].
    apply findLoop_enough_fuel; cbn [shift backing slen]; [|lia|lia].
    now apply Forall_drop.
Qed.

(** *** The equation of [doFindTLV] *)

Lemma findLoop_call (fuel : nat) (sub : slice) (tag nestLevel : Z) :
  Forall is_byte (backing sub) ->
  (Z.to_nat (slen sub) < fuel)%nat ->
  findLoop fuel sub tag nestLevel 0 (slen sub) = doFindTLV sub tag nestLevel.
Proof.
  intros Hb Hfuel. unfold doFindTLV.
  apply findLoop_more_fuel; [lia|].
  apply findLoop_enough_fuel; [exact Hb | lia | lia].
Qed.

(** [doFindTLV] satisfies the equation the source reads as: the nested
    search is [doFindTLV] on [data[o:]] one level down, and the next run of
    the loop is [doFindTLV] on what follows the record. *)
Lemma doFindTLV_unfold (data : slice) (tag nestLevel : Z) :
  Forall is_byte (backing data) -> 0 <= slen data <= cap data ->
  doFindTLV data tag nestLevel =
  if slen data <? 2 then Return None else
  h ← header data 0 (slen data);
  record (fun sub => doFindTLV sub tag (nestLevel + 1))
         (fun o _ => doFindTLV (shift data o) tag nestLevel)
         data tag nestLevel h.
Proof.
  intros Hb Hwf. unfold doFindTLV at 1. rewrite findLoop_S.
  destruct (slen data <? 2) eqn:H2; [reflexivity|].
  unfold mbind, flow_bind.
  destruct (header data 0 (slen data)) as [[[[[c t] L] o'] n']| | |] eqn:Hh;
    cbn [bind]; try reflexivity.
  apply header_Next in Hh as (Ho' & Hn' & Hn0 & HL); [|exact Hb|lia].
  unfold record, mbind, flow_bind.
  assert (Hrest :
    (if t =? tag
     then bind (checked (slice_range data o' (o' + L)))
                (fun r => Return (Some (bytes_of r)))
     else if n' <? L then Return None
          else findLoop (Z.to_nat (slen data)) data tag nestLevel (o' + L) (n' - L))
    = (if t =? tag
       then bind (checked (slice_range data o' (o' + L)))
                  (fun r => Return (Some (bytes_of r)))
       else if n' <? L then Return None
            else doFindTLV (shift data (o' + L)) tag nestLevel)).
  { destruct (t =? tag); [reflexivity|].
    destruct (n' <? L) eqn:HnL; [reflexivity|].
    replace (n' - L) with (slen data - (o' + L)) by lia.
    apply findLoop_rest; [exact Hb | lia | lia | lia]. }
  destruct (c && (nestLevel <? 100)); cbn [bind]; [|exact Hrest].
  destruct (slice_from data o') as [sub|] eqn:Hsub; cbn [bind checked];
    [|reflexivity].
  apply slice_from_Some in Hsub as [Hlo ->].
  rewrite findLoop_call
    by (cbn [backing slen]; first [now apply Forall_drop | lia]).
  match goal with
  | |- context [call ?m] => destruct m as [[]|r| |]
  end; cbn [bind call]; try reflexivity.
  destruct (0 <? len_ret r); cbn [bind]; [reflexivity | exact Hrest].
Qed.

(** The model is total: a result is a return value or a panic. *)
Lemma doFindTLV_total (data : slice) (tag nestLevel : Z) :
  Forall is_byte (backing data) ->
  (exists r, doFindTLV data tag nestLevel = Return r)
  \/ doFindTLV data tag nestLevel = Panic.
Proof.
  intros Hb. pose proof (doFindTLV_fuel data tag nestLevel Hb) as Hf.
  destruct (doFindTLV data tag nestLevel) as [[]|r| |];
    [left; now exists r | now right | congruence].
Qed.

(** *** Records on the wire *)

Lemma index_cons_0 (a : Z) (l : list Z) (total : Z) :
  0 < total -> index (Slice (a :: l) total) 0 = Some a.
Proof. intros H. now rewrite index_in_range by (cbn [slen]; lia). Qed.

Lemma index_cons_S (a : Z) (l : list Z) (total i : Z) :
  0 < i -> index (Slice (a :: l) total) i = index (Slice l (total - 1)) (i - 1).
Proof.
  intros Hi. unfold index. cbn [backing slen].
  replace (Z.to_nat i) with (S (Z.to_nat (i - 1))) by lia. cbn [lookup list_lookup].
  destruct (0 <=? i) eqn:H1, (i <? total) eqn:H2,
           (0 <=? i - 1) eqn:H3, (i - 1 <? total - 1) eqn:H4;
    cbn [andb]; (reflexivity || lia).
Qed.

Ltac index_eval :=
  repeat first
    [ rewrite index_cons_0 by lia
    | rewrite index_cons_S by lia; cbn [Z.sub Z.add Z.opp Z.pos_sub Pos.pred_double Pos.succ];
      rewrite ?Z.sub_0_r ].

Lemma Uint16_0 (l : Z) : Uint16 0 l = l.
Proof. reflexivity. Qed.

(** Running the header on a buffer whose first bytes are known: every
    branch the hypotheses rule out is closed by [lia]. *)
Ltac header_eval :=
  unfold header, mbind, flow_bind;
  repeat (index_eval; cbn [bind checked]; rewrite ?Uint16_0;
          match goal with
          | |- context [if ?c then _ else _] =>
            let C := fresh "C" in
            destruct c eqn:C; try (exfalso; lia); try discriminate
          end);
  index_eval; cbn [bind checked]; rewrite ?Uint16_0.

(** The header of a record that begins the buffer. *)
Lemma header_record (tf lf body : list Z) (t L total : Z) (c : bool) :
  tag_field tf t c -> length_field lf L ->
  Z.of_nat (length tf) + Z.of_nat (length lf) <= total ->
  header (Slice (tf ++ lf ++ body) total) 0 total
  = Next (c, t, L, Z.of_nat (length tf) + Z.of_nat (length lf),
          total - (Z.of_nat (length tf) + Z.of_nat (length lf))).
Proof.
  intros Ht Hl Htot.
  destruct Ht as [a Hf Hm | a b Hf Hm Hm2], Hl as [l Hl | h l];
    cbn [app length] in *; unfold filler, more_tag_bytes in *;
    header_eval; unfold constructed; repeat (try lia; f_equal).
Qed.

(** A record whose length byte is [81]: the value is never reached.  When
    bytes follow, the search gives up with nil; when [81] is the last byte
    of the buffer, the length byte is read past the end. *)
Lemma header_length_0x81 (tf rest : list Z) (t total : Z) (c : bool) :
  tag_field tf t c ->
  Z.of_nat (length tf) + 1 <= total ->
  header (Slice (tf ++ 0x81 :: rest) total) 0 total
  = if total =? Z.of_nat (length tf) + 1 then Panic else Return None.
Proof.
  intros Ht Htot.
  destruct Ht as [a Hf Hm | a b Hf Hm Hm2];
    cbn [app length] in *; unfold filler, more_tag_bytes in *;
    header_eval; try reflexivity.
  all: rewrite index_out_of_range by (cbn [slen]; lia); reflexivity.
Qed.

(** *** What a run of the loop does with a record *)

Lemma drop_header (tf lf body : list Z) :
  drop (Z.to_nat (Z.of_nat (length tf) + Z.of_nat (length lf))) (tf ++ lf ++ body)
  = body.
Proof.
  replace (Z.to_nat (Z.of_nat (length tf) + Z.of_nat (length lf)))
    with (length (tf ++ lf)) by (rewrite length_app; lia).
  rewrite app_assoc. apply drop_app_length.
Qed.

Lemma header_length_ge_2 (tf lf : list Z) (t L : Z) (c : bool) :
  tag_field tf t c -> length_field lf L ->
  2 <= Z.of_nat (length tf) + Z.of_nat (length lf).
Proof. intros [] []; cbn [length]; lia. Qed.

(** A primitive record with the tag searched for, at the start of the
    buffer: the value is cut out with the declared length, checked against
    the capacity only. *)
Lemma findLoop_primitive_match (fuel : nat) (tf lf body : list Z)
    (t L total nestLevel : Z) :
  tag_field tf t false -> length_field lf L -> 0 <= L ->
  Z.of_nat (length tf) + Z.of_nat (length lf) <= total ->
  findLoop (S fuel) (Slice (tf ++ lf ++ body) total) t nestLevel 0 total
  = if L <=? Z.of_nat (length body)
    then Return (Some (take (Z.to_nat L) body))
    else Panic.
Proof.
  intros Ht Hl HL Htot.
  pose proof (header_length_ge_2 tf lf t L false Ht Hl) as H2.
  rewrite findLoop_S.
  replace (total <? 2) with false by lia.
  rewrite (header_record tf lf body t L total false Ht Hl Htot).
  unfold mbind, flow_bind. cbn [bind]. unfold record, mbind, flow_bind.
  cbn [andb bind]. rewrite Z.eqb_refl.
  set (hl := Z.of_nat (length tf) + Z.of_nat (length lf)) in *.
  destruct (L <=? Z.of_nat (length body)) eqn:Hfit.
  - rewrite slice_range_ok
      by (unfold cap; cbn [backing]; rewrite ?length_app; lia).
    cbn [bind checked backing]. unfold bytes_of. cbn [backing slen].
    subst hl. rewrite drop_header. do 3 f_equal. lia.
  - rewrite slice_range_past_cap
      by (unfold cap; cbn [backing]; rewrite ?length_app; lia).
    reflexivity.
Qed.

(** C3 (what the code does).  A record whose length byte is [81] is never
    decoded, whatever the tag searched for: when anything follows the [81],
    the length byte and the value included, the search returns nil; when
    [81] is the last byte of the buffer, the search panics. *)
Theorem doFindTLV_length_0x81_never_decodes
    (tf rest : list Z) (t total tag nestLevel : Z) (c : bool)
    (Htag : tag_field tf t c)
    (Htotal : Z.of_nat (length tf) + 1 <= total) :
  doFindTLV (Slice (tf ++ 0x81 :: rest) total) tag nestLevel
  = if total =? Z.of_nat (length tf) + 1 then Panic else Return None.
Proof.
  unfold doFindTLV. cbn [slen]. rewrite findLoop_S.
  assert (1 <= Z.of_nat (length tf)) by (destruct Htag; cbn [length]; lia).
  replace (total <? 2) with false by lia.
  rewrite (header_length_0x81 tf rest t total c Htag Htotal).
  now destruct (total =? Z.of_nat (length tf) + 1).
Qed.

(** The record [01 81 01 AA] (tag [01], length 1 in the [81] form, value
    [AA]) searched for tag [01]: nil. *)
Lemma doFindTLV_length_0x81_never_decodes_witness :
  tag_field [0x01] 0x01 false /\
  doFindTLV (of_bytes [0x01; 0x81; 0x01; 0xAA]) 0x01 0 = Return None.
Proof.
  assert (Ht : tag_field [0x01] 0x01 false) by (now apply (tag_one 0x01)).
  split; [exact Ht|].
  exact (doFindTLV_length_0x81_never_decodes [0x01] [0x01; 0xAA] 0x01 4 0x01 0
           false Ht ltac:(cbn; lia)).
Defined.

(** C2 (what the code does).  Three ways in which the search leaves the
    buffer.
    - The length byte [81] is the last byte of the buffer: the byte after it
      is read, a panic.
    - A filler byte is skipped without the remaining length being checked
      again: with one byte left after it, the length byte is read past the
      end, a panic.
    - The tag searched for is compared before the declared length is
      checked: when the length exceeds what is left of the buffer, the value
      is cut out up to the capacity of the slice, bytes past the end of
      the buffer included, and past the capacity the slice expression
      panics. *)
Theorem doFindTLV_leaves_the_buffer :
  (forall (tf extra : list Z) (t tag nestLevel : Z) (c : bool),
      tag_field tf t c ->
      doFindTLV (Slice (tf ++ 0x81 :: extra) (Z.of_nat (length tf) + 1)) tag nestLevel
      = Panic) /\
  (forall (f a : Z) (extra : list Z) (tag nestLevel : Z),
      filler f = true -> more_tag_bytes a = false ->
      doFindTLV (Slice (f :: a :: extra) 2) tag nestLevel = Panic) /\
  (forall (tf lf body : list Z) (t L total nestLevel : Z),
      tag_field tf t false -> length_field lf L -> 0 <= L ->
      Z.of_nat (length tf) + Z.of_nat (length lf) <= total <= Z.of_nat (length (tf ++ lf ++ body)) ->
      total - (Z.of_nat (length tf) + Z.of_nat (length lf)) < L ->
      doFindTLV (Slice (tf ++ lf ++ body) total) t nestLevel
      = if L <=? Z.of_nat (length body)
        then Return (Some (take (Z.to_nat L) body))
        else Panic).
Proof.
  split; [|split].
  - intros tf extra t tag nestLevel c Ht.
    unfold doFindTLV. cbn [slen]. rewrite findLoop_S.
    assert (1 <= Z.of_nat (length tf)) by (destruct Ht; cbn [length]; lia).
    replace (Z.of_nat (length tf) + 1 <? 2) with false by lia.
    rewrite (header_length_0x81 tf extra t _ c Ht) by lia.
    now rewrite Z.eqb_refl.
  - intros f a extra tag nestLevel Hf Ha.
    unfold doFindTLV. cbn [slen]. rewrite findLoop_S.
    change (2 <? 2) with false. cbv iota.
    unfold filler, more_tag_bytes in *.
    unfold header, mbind, flow_bind.
    rewrite index_cons_0 by lia. cbn [bind checked]. rewrite Hf.
    cbn [bind]. rewrite index_cons_S, index_cons_0 by lia. cbn [bind checked].
    rewrite Ha. cbn [bind].
    rewrite index_out_of_range by (cbn [slen]; lia). reflexivity.
  - intros tf lf body t L total nestLevel Ht Hl HL Htot _.
    unfold doFindTLV. cbn [slen].
    apply findLoop_primitive_match; (assumption || lia).
Qed.

(** The three failing inputs: [01 81]; [00 01]; and [01 05 AA] searched
    for tag [01], once with no spare capacity and once in front of the
    status word and the padding of a response buffer. *)
Lemma doFindTLV_leaves_the_buffer_witness :
  tag_field [0x01] 0x01 false /\
  filler 0x00 = true /\ more_tag_bytes 0x01 = false /\
  length_field [0x05] 0x05 /\
  doFindTLV (of_bytes [0x01; 0x81]) 0x01 0 = Panic /\
  doFindTLV (of_bytes [0x00; 0x01]) 0x01 0 = Panic /\
  doFindTLV (of_bytes [0x01; 0x05; 0xAA]) 0x01 0 = Panic /\
  doFindTLV (Slice [0x01; 0x05; 0xAA; 0x90; 0x00; 0; 0; 0] 3) 0x01 0
  = Return (Some [0xAA; 0x90; 0x00; 0; 0]).
Proof.
  assert (Ht : tag_field [0x01] 0x01 false) by (now apply (tag_one 0x01)).
  assert (Hl : length_field [0x05] 0x05) by (apply length_short; lia).
  destruct doFindTLV_leaves_the_buffer as (H81 & Hfill & Hlen).
  split; [exact Ht|]. split; [reflexivity|]. split; [reflexivity|].
  split; [exact Hl|]. split; [|split; [|split]].
  - exact (H81 [0x01] [] 0x01 0x01 0 false Ht).
  - exact (Hfill 0x00 0x01 [] 0x01 0 eq_refl eq_refl).
  - exact (Hlen [0x01] [0x05] [0xAA] 0x01 0x05 3 0 Ht Hl
             ltac:(lia) ltac:(cbn; lia) ltac:(cbn; lia)).
  - exact (Hlen [0x01] [0x05] [0xAA; 0x90; 0x00; 0; 0; 0] 0x01 0x05 3 0 Ht Hl
             ltac:(lia) ltac:(cbn; lia) ltac:(cbn; lia)).
Defined.

(** *** Stepping over records *)

(** Primitive records with other tags are stepped over: the search goes
    on behind them. *)
Lemma doFindTLV_skip_records (tag nestLevel : Z) (pre : list Z) :
  records_without tag pre ->
  forall (body : list Z) (nbody : Z),
    Forall is_byte (pre ++ body) ->
    0 <= nbody <= Z.of_nat (length body) ->
    doFindTLV (Slice (pre ++ body) (Z.of_nat (length pre) + nbody)) tag nestLevel
    = doFindTLV (Slice body nbody) tag nestLevel.
Proof.
  induction 1 as [|tf lf v rest t Ht Hne Hl Hrest IH]; intros body nbody Hb Hn.
  - cbn [app length]. now rewrite Z.add_0_l.
  - set (hl := Z.of_nat (length tf) + Z.of_nat (length lf)).
    set (L := Z.of_nat (length v)) in *.
    set (total := Z.of_nat (length (tf ++ lf ++ v ++ rest)) + nbody).
    pose proof (header_length_ge_2 _ _ _ _ _ Ht Hl) as H2. fold hl in H2.
    assert (Htotal : total = hl + L + Z.of_nat (length rest) + nbody).
    { subst total hl L. rewrite !length_app. lia. }
    assert (Hbacking : (tf ++ lf ++ v ++ rest) ++ body
                       = tf ++ lf ++ v ++ rest ++ body)
      by (now rewrite <- !app_assoc).
    rewrite Hbacking in *.
    rewrite doFindTLV_unfold; [|exact Hb|].
    2:{ unfold cap. cbn [backing slen]. rewrite !length_app. lia. }
    cbn [slen]. replace (total <? 2) with false by lia.
    rewrite (header_record tf lf (v ++ rest ++ body) t L total false Ht Hl)
      by (fold hl; lia).
    fold hl. unfold mbind, flow_bind. cbn [bind].
    unfold record, mbind, flow_bind. cbn [andb bind].
    replace (t =? tag) with false by lia.
    replace (total - hl <? L) with false by lia.
    unfold shift. cbn [backing slen].
    replace (tf ++ lf ++ v ++ rest ++ body)
      with ((tf ++ lf ++ v) ++ rest ++ body) by (now rewrite <- !app_assoc).
    replace (Z.to_nat (hl + L)) with (length (tf ++ lf ++ v))
      by (subst hl L; rewrite !length_app; lia).
    rewrite drop_app_length.
    replace (total - (hl + L)) with (Z.of_nat (length rest) + nbody) by lia.
    apply IH; [|exact Hn].
    rewrite !app_assoc in Hb. rewrite <- !(app_assoc _ rest body) in Hb.
    now apply Forall_app in Hb as [_ Hb].
Qed.

(** *** Nested search *)

Lemma len_ret_Some_pos (v : list Z) : v <> [] -> (0 <? len_ret (Some v)) = true.
Proof. destruct v; [congruence|]. intros _. cbn [len_ret length]. lia. Qed.

(** A constructed record at the start of the buffer, searched for another
    tag: below the cap the value of the call is decided by the nested search
    on what follows the header; at the cap and when the nested search finds
    nothing of positive length, the record is stepped over. *)
Lemma doFindTLV_constructed (tf lf body : list Z) (t L total tag nestLevel : Z) :
  tag_field tf t true -> length_field lf L -> t <> tag ->
  Forall is_byte (tf ++ lf ++ body) ->
  Z.of_nat (length tf) + Z.of_nat (length lf) + L <= total
    <= Z.of_nat (length (tf ++ lf ++ body)) ->
  0 <= L ->
  let hl := Z.of_nat (length tf) + Z.of_nat (length lf) in
  doFindTLV (Slice (tf ++ lf ++ body) total) tag nestLevel
  = if nestLevel <? 100 then
      match doFindTLV (Slice body (total - hl)) tag (nestLevel + 1) with
      | Return r =>
        if 0 <? len_ret r then Return r
        else doFindTLV (Slice (drop (Z.to_nat L) body) (total - hl - L)) tag nestLevel
      | other => other
      end
    else doFindTLV (Slice (drop (Z.to_nat L) body) (total - hl - L)) tag nestLevel.
Proof.
  intros Ht Hl Hne Hb Htot HL hl.
  pose proof (header_length_ge_2 _ _ _ _ _ Ht Hl) as H2. fold hl in H2.
  rewrite doFindTLV_unfold; [|exact Hb|].
  2:{ unfold cap. cbn [backing slen]. lia. }
  cbn [slen]. replace (total <? 2) with false by lia.
  rewrite (header_record tf lf body t L total true Ht Hl) by (fold hl; lia).
  fold hl. unfold mbind, flow_bind. cbn [bind].
  unfold record, mbind, flow_bind. cbn [andb].
  replace (t =? tag) with false by lia.
  replace (total - hl <? L) with false by lia.
  assert (Hshift : shift (Slice (tf ++ lf ++ body) total) (hl + L)
                   = Slice (drop (Z.to_nat L) body) (total - hl - L)).
  { unfold shift. cbn [backing slen]. f_equal; [|lia].
    replace (Z.to_nat (hl + L)) with (Z.to_nat hl + Z.to_nat L)%nat by lia.
    rewrite <- drop_drop. subst hl. now rewrite drop_header. }
  rewrite Hshift.
  destruct (nestLevel <? 100); cbn [bind]; [|reflexivity].
  rewrite slice_from_ok by (cbn [slen]; lia).
  cbn [bind checked backing slen]. subst hl. rewrite drop_header.
  destruct (doFindTLV _ tag (nestLevel + 1)) as [[]|r| |]; cbn [bind call];
    try reflexivity.
  now destruct (0 <? len_ret r).
Qed.

(** C8, as amended.  The buffer holds, behind any primitive records with
    other tags, a constructed outer record (length field in the short or the
    [82] form); its value holds, behind any primitive records with other
    tags, a primitive inner record with a different tag number and a
    non-empty value, then [more]; [rest] follows the outer record and [extra]
    is the spare capacity.  Below the depth cap the search for the inner tag
    dives into the outer record before comparing its tag and returns the
    inner value.  At the cap (level 100 and above) the dive is skipped: the
    outer record is stepped over as if nothing in it matched, and the result
    is that of the search on what follows it. *)
Theorem doFindTLV_nested_search
    (before tfo lfo pre tfi lfi v more rest extra : list Z) (To Ti : Z)
    (Hbefore : records_without Ti before)
    (Houter : tag_field tfo To true)
    (Hpre : records_without Ti pre)
    (Hinner : tag_field tfi Ti false)
    (Hlo : length_field lfo
             (Z.of_nat (length (pre ++ tfi ++ lfi ++ v ++ more))))
    (Hli : length_field lfi (Z.of_nat (length v)))
    (Hv : v <> [])
    (Hdiff : To <> Ti)
    (Hbytes : Forall is_byte
                (before ++ tfo ++ lfo ++ pre ++ tfi ++ lfi ++ v ++ more ++ rest ++ extra)) :
  let total :=
    Z.of_nat (length (before ++ tfo ++ lfo ++ pre ++ tfi ++ lfi ++ v ++ more ++ rest)) in
  let data :=
    Slice (before ++ tfo ++ lfo ++ pre ++ tfi ++ lfi ++ v ++ more ++ rest ++ extra)
          total in
  (forall nestLevel, nestLevel < 100 ->
     doFindTLV data Ti nestLevel = Return (Some v)) /\
  (forall nestLevel, 100 <= nestLevel ->
     doFindTLV data Ti nestLevel
     = doFindTLV (Slice (rest ++ extra) (Z.of_nat (length rest))) Ti nestLevel).
Proof.
  intros total data.
  set (Lo := Z.of_nat (length (pre ++ tfi ++ lfi ++ v ++ more))) in *.
  set (hlo := Z.of_nat (length tfo) + Z.of_nat (length lfo)).
  set (value := pre ++ tfi ++ lfi ++ v ++ more).
  assert (Hb1 : Forall is_byte
                  (tfo ++ lfo ++ pre ++ tfi ++ lfi ++ v ++ more ++ rest ++ extra))
    by (now apply Forall_app in Hbytes as [_ Hbytes]).
  assert (Hb2 : Forall is_byte (pre ++ tfi ++ lfi ++ v ++ more ++ rest ++ extra))
    by (now do 2 apply Forall_app in Hb1 as [_ Hb1]).
  assert (Hb3 : Forall is_byte (tfi ++ lfi ++ v ++ more ++ rest ++ extra))
    by (now apply Forall_app in Hb2 as [_ Hb2]).
  assert (Hb4 : Forall is_byte (rest ++ extra))
    by (now do 4 apply Forall_app in Hb3 as [_ Hb3]).
  (* behind [before] *)
  assert (Hstart : forall nestLevel,
    doFindTLV data Ti nestLevel
    = doFindTLV (Slice (tfo ++ lfo ++ value ++ rest ++ extra)
                       (hlo + Lo + Z.of_nat (length rest))) Ti nestLevel).
  { intros nestLevel. subst data total value.
    rewrite <- (doFindTLV_skip_records Ti nestLevel before Hbefore
                  (tfo ++ lfo ++ (pre ++ tfi ++ lfi ++ v ++ more) ++ rest ++ extra)
                  (hlo + Lo + Z.of_nat (length rest))).
    - rewrite <- !app_assoc. do 2 f_equal. subst hlo Lo. rewrite !length_app. lia.
    - now rewrite <- !app_assoc.
    - subst hlo Lo. rewrite !length_app. lia. }
  (* the outer record *)
  assert (Houter_step : forall nestLevel,
    doFindTLV (Slice (tfo ++ lfo ++ value ++ rest ++ extra)
                     (hlo + Lo + Z.of_nat (length rest))) Ti nestLevel
    = if nestLevel <? 100 then
        match doFindTLV (Slice (value ++ rest ++ extra)
                               (Lo + Z.of_nat (length rest))) Ti (nestLevel + 1) with
        | Return r =>
          if 0 <? len_ret r then Return r
          else doFindTLV (Slice (rest ++ extra) (Z.of_nat (length rest))) Ti nestLevel
        | other => other
        end
      else doFindTLV (Slice (rest ++ extra) (Z.of_nat (length rest))) Ti nestLevel).
  { intros nestLevel.
    rewrite (doFindTLV_constructed tfo lfo (value ++ rest ++ extra) To Lo _ Ti
               nestLevel Houter Hlo Hdiff).
    - cbv zeta. fold hlo.
      replace (Z.to_nat Lo) with (length value) by (subst Lo value; lia).
      rewrite drop_app_length.
      replace (hlo + Lo + Z.of_nat (length rest) - hlo)
        with (Lo + Z.of_nat (length rest)) by lia.
      replace (Lo + Z.of_nat (length rest) - Lo)
        with (Z.of_nat (length rest)) by lia.
      reflexivity.
    - subst value. now rewrite <- !app_assoc.
    - fold hlo. subst Lo value. rewrite !length_app. lia.
    - subst Lo. lia. }
  (* the nested search *)
  assert (Hdive : forall nestLevel,
    doFindTLV (Slice (value ++ rest ++ extra) (Lo + Z.of_nat (length rest)))
              Ti nestLevel = Return (Some v)).
  { intros nestLevel. subst value.
    replace ((pre ++ tfi ++ lfi ++ v ++ more) ++ rest ++ extra)
      with (pre ++ tfi ++ lfi ++ v ++ more ++ rest ++ extra)
      by (now rewrite <- !app_assoc).
    replace (Lo + Z.of_nat (length rest))
      with (Z.of_nat (length pre)
            + Z.of_nat (length (tfi ++ lfi ++ v ++ more ++ rest)))
      by (subst Lo; rewrite !length_app; lia).
    rewrite (doFindTLV_skip_records Ti nestLevel pre Hpre)
      by (first [exact Hb2 | rewrite !length_app; lia]).
    unfold doFindTLV. cbn [slen].
    rewrite (findLoop_primitive_match _ tfi lfi (v ++ more ++ rest ++ extra)
               Ti (Z.of_nat (length v)) _ _ Hinner Hli)
      by (rewrite ?length_app; lia).
    replace (Z.of_nat (length v) <=? Z.of_nat (length (v ++ more ++ rest ++ extra)))
      with true by (rewrite length_app; lia).
    now rewrite Nat2Z.id, take_app_length. }
  split; intros nestLevel Hlevel.
  - rewrite Hstart, Houter_step. replace (nestLevel <? 100) with true by lia.
    rewrite Hdive. now rewrite (len_ret_Some_pos v Hv).
  - rewrite Hstart, Houter_step. now replace (nestLevel <? 100) with false by lia.
Qed.

(** The login data [5E 01 41], then the cardholder data [65 06] holding
    the language [5F 2D 01 64] and the name [5B 01 77], then another name
    [5B 01 88]: the name [77] is found inside [65] below the cap; at the cap
    [65] is stepped over. *)
Lemma doFindTLV_nested_search_witness :
  let buffer := [0x5E; 0x01; 0x41; 0x65; 0x07; 0x5F; 0x2D; 0x01; 0x64;
                 0x5B; 0x01; 0x77; 0x5B; 0x01; 0x88] in
  tag_field [0x65] 0x65 true /\ tag_field [0x5B] 0x5B false /\
  records_without 0x5B [0x5E; 0x01; 0x41] /\
  records_without 0x5B [0x5F; 0x2D; 0x01; 0x64] /\
  doFindTLV (of_bytes buffer) 0x5B 0 = Return (Some [0x77]) /\
  doFindTLV (of_bytes buffer) 0x5B 100 = doFindTLV (of_bytes [0x5B; 0x01; 0x88]) 0x5B 100.
Proof.
  intros buffer.
  assert (Ho : tag_field [0x65] 0x65 true) by (now apply (tag_one 0x65)).
  assert (Hi : tag_field [0x5B] 0x5B false) by (now apply (tag_one 0x5B)).
  assert (Hbefore : records_without 0x5B ([0x5E] ++ [0x01] ++ [0x41] ++ [])).
  { apply (records_cons 0x5B [0x5E] [0x01] [0x41] [] 0x5E);
      [now apply (tag_one 0x5E) | discriminate
      | apply (length_short 1); lia | constructor]. }
  assert (Hpre : records_without 0x5B ([0x5F; 0x2D] ++ [0x01] ++ [0x64] ++ [])).
  { apply (records_cons 0x5B [0x5F; 0x2D] [0x01] [0x64] [] 0x5F2D);
      [exact (tag_two 0x5F 0x2D eq_refl eq_refl eq_refl) | discriminate
      | apply (length_short 1); lia | constructor]. }
  assert (Hlo : length_field [0x07]
                  (Z.of_nat (length ([0x5F; 0x2D; 0x01; 0x64] ++ [0x5B] ++ [0x01]
                                     ++ [0x77] ++ @nil Z))))
    by (apply (length_short 7); cbn; lia).
  assert (Hli : length_field [0x01] (Z.of_nat (length [0x77])))
    by (apply (length_short 1); lia).
  assert (Hb : Forall is_byte
                 ([0x5E; 0x01; 0x41] ++ [0x65] ++ [0x07] ++ [0x5F; 0x2D; 0x01; 0x64]
                  ++ [0x5B] ++ [0x01] ++ [0x77] ++ [] ++ [0x5B; 0x01; 0x88] ++ [])).
  { repeat constructor; unfold is_byte; lia. }
  pose proof (doFindTLV_nested_search [0x5E; 0x01; 0x41] [0x65] [0x07]
                [0x5F; 0x2D; 0x01; 0x64] [0x5B] [0x01] [0x77] []
                [0x5B; 0x01; 0x88] [] 0x65 0x5B Hbefore Ho Hpre Hi Hlo Hli
                ltac:(discriminate) ltac:(discriminate) Hb) as [H1 H2].
  split; [exact Ho|]. split; [exact Hi|].
  split; [exact Hbefore|]. split; [exact Hpre|]. split.
  - exact (H1 0 ltac:(lia)).
  - exact (H2 100 ltac:(lia)).
Defined.

(** C8 as stated fails on an inner record with an empty value: the nested
    search finds it, but a result of length 0 is not taken for a match, and
    the outer record is stepped over with the inner record in it.  In
    [65 02 5B 00] the search for [5B] returns nil. *)
Lemma doFindTLV_nested_empty_value_not_found : ~ nested_search_finds_inner.
Proof.
  intros H.
  specialize (H [0x65] [0x02] [0x5B] [0x00] [] 0x65 0x5B false).
  assert (Ho : tag_field [0x65] 0x65 true) by (now apply (tag_one 0x65)).
  assert (Hi : tag_field [0x5B] 0x5B false) by (now apply (tag_one 0x5B)).
  assert (Hlo : length_field [0x02] (Z.of_nat (length ([0x5B] ++ [0x00] ++ @nil Z))))
    by (apply (length_short 2); lia).
  assert (Hli : length_field [0x00] (Z.of_nat (length (@nil Z))))
    by (apply (length_short 0); lia).
  assert (Hb : Forall is_byte ([0x65] ++ [0x02] ++ [0x5B] ++ [0x00] ++ [])).
  { repeat constructor; unfold is_byte; lia. }
  specialize (H Ho Hi Hlo Hli ltac:(discriminate) Hb).
  vm_compute in H. discriminate H.
Qed.

End TLVFacts.

(** ** scard: [Card.Transmit] *)

Module ScardFacts.
Import GoSlice GoSliceFacts Scard ScardSpec.

Lemma encodeCommand_unfold (apdu : APDU) :
  encodeCommand apdu =
  [Cla apdu; Ins apdu; P1 apdu; P2 apdu]
  ++ match Data apdu with
     | [] => []
     | _ :: _ =>
       (if Elf apdu
        then [0; Lc apdu mod 65536 / 256 mod 256; Lc apdu mod 65536 mod 256]
        else [Lc apdu mod 256])
       ++ Data apdu
     end
  ++ [Len apdu].
Proof.
  unfold encodeCommand, Write, PutUint16, uint8, uint16, Lc.
  destruct (Data apdu) as [|d ds] eqn:HD.
  - reflexivity.
  - replace (0 <? Z.of_nat (length (d :: ds))) with true
      by (symmetry; apply Z.ltb_lt; cbn [length]; lia).
    rewrite Z.shiftr_div_pow2 by lia. change (2 ^ 8) with 256.
    destruct (Pib apdu), (Elf apdu); cbn [app]; rewrite <- ?app_assoc;
      cbn [app]; rewrite ?Z.sub_0_r; reflexivity.
Qed.

Lemma high_byte_of_uint16 (x : Z) : x mod 65536 / 256 mod 256 = x / 256 mod 256.
Proof.
  change 65536 with (256 * 256). rewrite Z.rem_mul_r by lia.
  rewrite Z.add_comm, Z.mul_comm, Z.div_add_l by lia.
  rewrite (Z.div_small (x mod 256)) by (apply Z.mod_pos_bound; lia).
  rewrite Z.add_0_r. apply Z.mod_mod. lia.
Qed.

Lemma low_byte_of_uint16 (x : Z) : x mod 65536 mod 256 = x mod 256.
Proof.
  change 65536 with (256 * 256). rewrite Z.rem_mul_r by lia.
  rewrite (Z.mul_comm 256), Z.mod_add by lia. apply Z.mod_mod. lia.
Qed.

Lemma encodeCommand_spec (apdu : APDU) : encodeCommand apdu = spec_command apdu.
Proof.
  rewrite encodeCommand_unfold. unfold spec_command, extended_length, short_length.
  now rewrite high_byte_of_uint16, low_byte_of_uint16.
Qed.

(** C5.  The command [Transmit] hands to the client is the four header
    bytes, then, for non-empty data, the length field and the data, then the
    single expected-response-length byte.  The length field is one byte in
    short form and [00] followed by the two big-endian bytes of the length
    in extended form, the length being the data length less one with the
    padding indicator; a length below 256 (below 65536) is the value of
    that byte (of those two bytes).  For [00 A4 04 00] with a 16-byte AID,
    short form, no padding indicator, expected length 0, the command is
    [00 A4 04 00 10 <AID> 00]. *)
Theorem Transmit_command_encoding :
  (forall (client : list Z -> client_result) (apdu : APDU),
      encodeCommand apdu = spec_command apdu /\
      Transmit client apdu = interpret (client (spec_command apdu))) /\
  (forall lc : Z, 0 <= lc < 256 -> short_length lc = [lc]) /\
  (forall lc : Z, 0 <= lc < 65536 ->
      exists hi lo, extended_length lc = [0; hi; lo] /\
                    is_byte hi /\ is_byte lo /\ 256 * hi + lo = lc) /\
  (forall aid : list Z,
      length aid = 16%nat ->
      encodeCommand (select_apdu aid) = [0x00; 0xA4; 0x04; 0x00; 0x10] ++ aid ++ [0x00]).
Proof.
  split; [|split; [|split]].
  - intros client apdu. split; [apply encodeCommand_spec|].
    unfold Transmit. now rewrite encodeCommand_spec.
  - intros lc Hlc. unfold short_length. now rewrite Z.mod_small.
  - intros lc Hlc. exists (lc / 256), (lc mod 256). unfold extended_length, is_byte.
    assert (0 <= lc / 256 < 256).
    { split; [apply Z.div_pos; lia | apply Z.div_lt_upper_bound; lia]. }
    rewrite (Z.mod_small (lc / 256)) by lia.
    pose proof (Z.mod_pos_bound lc 256 ltac:(lia)).
    pose proof (Z.div_mod lc 256 ltac:(lia)).
    repeat split; lia.
  - intros aid Hlen. rewrite encodeCommand_spec.
    unfold spec_command, select_apdu, short_length, Lc.
    cbn [Data Elf Pib Cla Ins P1 P2 Len].
    rewrite Hlen. destruct aid; [discriminate|]. reflexivity.
Qed.

(** The scenario of C5 on the OpenPGP application identifier padded to 16
    bytes. *)
Lemma Transmit_command_encoding_witness :
  let aid := [0xD2; 0x76; 0x00; 0x01; 0x24; 0x01; 0; 0; 0; 0; 0; 0; 0; 0; 0; 0] in
  length aid = 16%nat /\
  encodeCommand (select_apdu aid) = [0x00; 0xA4; 0x04; 0x00; 0x10] ++ aid ++ [0x00].
Proof.
  intros aid.
  assert (Hlen : length aid = 16%nat) by reflexivity.
  split; [exact Hlen|].
  exact (proj2 (proj2 (proj2 Transmit_command_encoding)) aid Hlen).
Defined.

(** C9.  In short form a computed length above 255 is written as the
    single byte [lc mod 256]: the command goes to the client as it is, with
    neither an error nor the extended form. *)
Theorem Transmit_short_length_truncated
    (client : list Z -> client_result) (apdu : APDU)
    (Hshort : Elf apdu = false)
    (Hdata : Data apdu <> [])
    (Hbig : 255 < Lc apdu) :
  encodeCommand apdu =
    [Cla apdu; Ins apdu; P1 apdu; P2 apdu] ++ [Lc apdu mod 256] ++ Data apdu ++ [Len apdu]
  /\ Transmit client apdu =
     interpret (client ([Cla apdu; Ins apdu; P1 apdu; P2 apdu]
                        ++ [Lc apdu mod 256] ++ Data apdu ++ [Len apdu])).
Proof.
  assert (He : encodeCommand apdu =
    [Cla apdu; Ins apdu; P1 apdu; P2 apdu] ++ [Lc apdu mod 256] ++ Data apdu ++ [Len apdu]).
  { rewrite encodeCommand_unfold, Hshort.
    destruct (Data apdu); [congruence|]. now rewrite <- app_assoc. }
  split; [exact He|]. unfold Transmit. now rewrite He.
Qed.

(** 300 data bytes in short form: the length byte is [300 mod 256 = 44]. *)
Lemma Transmit_short_length_truncated_witness :
  let apdu := mkAPDU 0 0xDB 0x3F 0xFF (replicate 300 0x41) 0 false false in
  Elf apdu = false /\ Data apdu <> [] /\ 255 < Lc apdu /\
  encodeCommand apdu = [0; 0xDB; 0x3F; 0xFF] ++ [44] ++ replicate 300 0x41 ++ [0].
Proof.
  intros apdu.
  assert (H1 : Elf apdu = false) by reflexivity.
  assert (H2 : Data apdu <> []) by discriminate.
  assert (H3 : 255 < Lc apdu) by (vm_compute; reflexivity).
  split; [exact H1|]. split; [exact H2|]. split; [exact H3|].
  exact (proj1 (Transmit_short_length_truncated (fun _ => ClientErr (ClientError 0)) apdu H1 H2 H3)).
Defined.

(** C1, as amended.  A response whose status word has no entry in
    [errorCodes] is handled as [90 00] is: the lookup yields the nil error
    and the call returns the body, the response without its two status
    bytes, with no error. *)
Theorem Transmit_unmapped_status_returns_body
    (client : list Z -> client_result) (apdu : APDU)
    (body pad : list Z) (sw1 sw2 : Z)
    (Hresp : client (encodeCommand apdu)
             = ClientOk (body ++ [sw1; sw2] ++ pad) (Z.of_nat (length body) + 2))
    (Hbuf : length (body ++ [sw1; sw2] ++ pad) = 258%nat)
    (Hunmapped : errorCodes !! (sw1, sw2) = None) :
  Transmit client apdu = TReturn (Some body) None.
Proof.
  unfold Transmit. rewrite Hresp. unfold interpret.
  set (buf := body ++ [sw1; sw2] ++ pad) in *.
  set (n := Z.of_nat (length body) + 2).
  assert (Hn : n <= 258).
  { subst n buf. rewrite !length_app in Hbuf. cbn [length] in Hbuf. lia. }
  rewrite slice_range_ok by (unfold cap; cbn [backing]; lia).
  cbn [slen]. rewrite Z.sub_0_r.
  replace (n <? 2) with false by (symmetry; apply Z.ltb_ge; lia).
  rewrite !index_in_range by (cbn [slen]; lia). cbn [backing].
  change (Z.to_nat 0) with 0%nat. rewrite drop_0.
  replace (Z.to_nat (n - 2)) with (length body) by lia.
  replace (Z.to_nat (n - 1)) with (S (length body)) by lia.
  assert (H1 : buf !! length body = Some sw1).
  { subst buf. now rewrite lookup_app_r, Nat.sub_diag by lia. }
  assert (H2 : buf !! S (length body) = Some sw2).
  { subst buf. rewrite lookup_app_r by lia.
    now replace (S (length body) - length body)%nat with 1%nat by lia. }
  rewrite H1, H2. subst buf.
  unfold errorCodes_at. rewrite Hunmapped. cbn [default].
  rewrite slice_range_ok by (unfold cap; cbn [backing slen]; lia).
  unfold bytes_of. cbn [backing slen]. rewrite drop_0, Z.sub_0_r.
  replace (Z.to_nat (n - 2)) with (length body) by lia.
  now rewrite take_app_length.
Qed.

(** The card answers [AA 63 C2] ("verification failed, two tries left", a
    status word that is not in the table): [Transmit] returns the body
    [AA] and no error. *)
Lemma Transmit_unmapped_status_returns_body_witness :
  let client := fun _ : list Z => ClientOk ([0xAA] ++ [0x63; 0xC2] ++ replicate 255 0) 3 in
  let apdu := mkAPDU 0 0x20 0 0x81 [0x31; 0x32; 0x33] 0 false false in
  errorCodes !! (0x63, 0xC2) = None /\
  Transmit client apdu = TReturn (Some [0xAA]) None.
Proof.
  intros client apdu.
  assert (H : errorCodes !! (0x63, 0xC2) = None) by (vm_compute; reflexivity).
  split; [exact H|].
  exact (Transmit_unmapped_status_returns_body client apdu [0xAA] (replicate 255 0)
           0x63 0xC2 eq_refl eq_refl H).
Defined.

(** C1 as stated fails: the package has no error for a status word that
    is not in the table.  On the answer [AA 63 C2] the call returns the body
    [AA] and the nil error. *)
Lemma Transmit_unmapped_status_is_not_an_error : ~ unmapped_status_fails.
Proof.
  intros H.
  destruct (H (fun _ => ClientOk ([0xAA] ++ [0x63; 0xC2] ++ replicate 255 0) 3)
              (mkAPDU 0 0x20 0 0x81 [0x31; 0x32; 0x33] 0 false false)
              [0xAA] (replicate 255 0) 0x63 0xC2 eq_refl eq_refl
              ltac:(unfold is_byte; lia) ltac:(unfold is_byte; lia)
              ltac:(vm_compute; reflexivity)) as [e He].
  vm_compute in He. discriminate He.
Qed.

End ScardFacts.

(** ** hid: sequence progression, CRC and the frame engine *)

Module HidFacts.
Import Hid HidSpec.

(** *** [isSequenceUpdated] *)

Lemma isSequenceUpdated_eval (report : list Z) (prevSeq : Z) :
  length report = 8%nat ->
  isSequenceUpdated report prevSeq =
  Some ((nth 4 report 0 =? (prevSeq + 1) mod 256)
        || ((nth 4 report 0 =? 0) && (0 <? prevSeq)
            && (Z.land (nth 5 report 0) 3 =? 0))).
Proof.
  intros Hlen.
  do 8 (destruct report as [|? report]; [discriminate Hlen|]).
  reflexivity.
Qed.

(** C4, as amended.  On an 8-byte report [isSequenceUpdated] never panics;
    it returns true exactly when the programming-sequence byte is
    [prevSeq + 1] in byte arithmetic (modulo 256, so 0 when [prevSeq] is
    255), or is 0 while [prevSeq > 0] and no slot is programmed, and false
    otherwise.  Below 255 this is the rule as the specification words it. *)
Theorem isSequenceUpdated_byte_arithmetic
    (report : list Z) (prevSeq : Z) (Hlen : length report = 8%nat) :
  let nextSeq := nth 4 report 0 in
  let config := nth 5 report 0 in
  let progressed :=
    nextSeq = (prevSeq + 1) mod 256 \/
    (nextSeq = 0 /\ 0 < prevSeq /\ Z.land config 3 = 0) in
  (isSequenceUpdated report prevSeq = Some true <-> progressed) /\
  (isSequenceUpdated report prevSeq = Some false <-> ~ progressed) /\
  (0 <= prevSeq < 255 ->
   isSequenceUpdated report prevSeq = Some (spec_isSequenceUpdated report prevSeq)).
Proof.
  intros nextSeq config progressed.
  rewrite (isSequenceUpdated_eval report prevSeq Hlen).
  fold nextSeq config. subst progressed.
  assert (Hdec :
    (nextSeq =? (prevSeq + 1) mod 256)
    || ((nextSeq =? 0) && (0 <? prevSeq) && (Z.land config 3 =? 0)) = true
    <-> (nextSeq = (prevSeq + 1) mod 256 \/
         (nextSeq = 0 /\ 0 < prevSeq /\ Z.land config 3 = 0))).
  { rewrite orb_true_iff, !andb_true_iff, !Z.eqb_eq, Z.ltb_lt. tauto. }
  split; [|split].
  - rewrite <- Hdec. split; [now intros [= ->] | now intros ->].
  - rewrite <- Hdec. split.
    + intros [= ->]. discriminate.
    + intros Hn. f_equal. now apply not_true_is_false.
  - intros Hp. unfold spec_isSequenceUpdated. fold nextSeq config.
    now rewrite Z.mod_small by lia.
Qed.

Lemma isSequenceUpdated_byte_arithmetic_witness :
  length [3; 4; 1; 0; 0; 1; 0; 0] = 8%nat /\
  isSequenceUpdated [3; 4; 1; 0; 0; 1; 0; 0] 255 = Some true.
Proof.
  split; [reflexivity|].
  apply (proj1 (isSequenceUpdated_byte_arithmetic [3; 4; 1; 0; 0; 1; 0; 0] 255 eq_refl)).
  left. reflexivity.
Defined.

(** C4 as stated fails at [prevSeq = 255]: with programming sequence 0 and
    a slot programmed, neither [0 = 255 + 1] nor "no slots programmed"
    holds, yet the code returns true, since [prevSeq+1] wraps to 0. *)
Lemma isSequenceUpdated_spec_fails_at_255 :
  ~ (forall (report : list Z) (prevSeq : Z),
        length report = 8%nat -> Forall is_byte report -> 0 <= prevSeq <= 255 ->
        isSequenceUpdated report prevSeq = Some (spec_isSequenceUpdated report prevSeq)).
Proof.
  intros H.
  specialize (H [3; 4; 1; 0; 0; 1; 0; 0] 255 eq_refl).
  assert (Hb : Forall is_byte [3; 4; 1; 0; 0; 1; 0; 0]).
  { repeat constructor; unfold is_byte; lia. }
  specialize (H Hb ltac:(lia)). discriminate H.
Qed.

(** *** [calculateCRC] *)

Lemma lxor_uint16 (a b : Z) : is_uint16 a -> is_uint16 b -> is_uint16 (Z.lxor a b).
Proof.
  unfold is_uint16. intros Ha Hb.
  assert (H0 : 0 <= Z.lxor a b) by (apply Z.lxor_nonneg; lia).
  split; [exact H0|].
  destruct (Z.eq_dec (Z.lxor a b) 0) as [->|Hne]; [lia|].
  change 65536 with (2 ^ 16). apply Z.log2_lt_pow2; [lia|].
  pose proof (Z.log2_lxor a b ltac:(lia) ltac:(lia)) as Hl.
  assert (Hla : Z.log2 a < 16).
  { destruct (Z.eq_dec a 0) as [->|]; [reflexivity|].
    apply Z.log2_lt_pow2; [lia|]. change (2 ^ 16) with 65536. lia. }
  assert (Hlb : Z.log2 b < 16).
  { destruct (Z.eq_dec b 0) as [->|]; [reflexivity|].
    apply Z.log2_lt_pow2; [lia|]. change (2 ^ 16) with 65536. lia. }
  lia.
Qed.

Lemma crc_bit_uint16 (c : Z) : is_uint16 c -> is_uint16 (crc_bit c).
Proof.
  intros Hc. unfold crc_bit.
  assert (Hs : is_uint16 (Z.shiftr c 1)).
  { unfold is_uint16 in *. rewrite Z.shiftr_div_pow2 by lia.
    change (2 ^ 1) with 2. split; [apply Z.div_pos; lia|].
    apply Z.div_lt_upper_bound; lia. }
  destruct (Z.land c 1 =? 1); [|exact Hs].
  apply lxor_uint16; [exact Hs | unfold is_uint16; lia].
Qed.

Lemma crc_bits_uint16 (k : nat) (c : Z) : is_uint16 c -> is_uint16 (Nat.iter k crc_bit c).
Proof.
  intros Hc. induction k as [|k IH]; [exact Hc|].
  cbn [Nat.iter nat_rect]. now apply crc_bit_uint16.
Qed.

Lemma crc_byte_uint16 (c b : Z) : is_uint16 c -> is_byte b -> is_uint16 (crc_byte c b).
Proof.
  intros Hc Hb. unfold crc_byte. apply crc_bits_uint16, lxor_uint16; [exact Hc|].
  unfold is_byte, is_uint16 in *. lia.
Qed.

Lemma crc_fold_uint16 (data : list Z) (c : Z) :
  Forall is_byte data -> is_uint16 c -> is_uint16 (fold_left crc_byte data c).
Proof.
  intros Hd. revert c. induction Hd as [|b data Hb _ IH]; intros c Hc; [exact Hc|].
  cbn [fold_left]. apply IH. now apply crc_byte_uint16.
Qed.

(** The running value after [data]; [calculateCRC] masks nothing off it. *)
Lemma calculateCRC_fold (data : list Z) :
  Forall is_byte data -> calculateCRC data = fold_left crc_byte data 0xFFFF.
Proof.
  intros Hd. unfold calculateCRC.
  pose proof (crc_fold_uint16 data 0xFFFF Hd ltac:(unfold is_uint16; lia)) as Hr.
  change 0xFFFF with (Z.ones 16) at 2. rewrite Z.land_ones by lia.
  change (2 ^ 16) with 65536. unfold is_uint16 in Hr. now apply Z.mod_small.
Qed.

Lemma calculateCRC_uint16 (data : list Z) :
  Forall is_byte data -> is_uint16 (calculateCRC data).
Proof.
  intros Hd. rewrite calculateCRC_fold by exact Hd.
  apply crc_fold_uint16; [exact Hd | unfold is_uint16; lia].
Qed.

(** Xoring the low byte in clears it. *)
Lemma lxor_low_byte (c : Z) : 0 <= c -> Z.lxor c (c mod 256) = 2 ^ 8 * (c / 256).
Proof.
  intros Hc. apply Z.bits_inj'. intros n Hn.
  rewrite Z.lxor_spec, Z.mul_comm, <- Z.shiftl_mul_pow2 by lia.
  change 256 with (2 ^ 8). rewrite <- Z.shiftr_div_pow2 by lia.
  destruct (Z.lt_ge_cases n 8) as [Hlt|Hge].
  - rewrite Z.mod_pow2_bits_low by lia.
    rewrite Z.shiftl_spec_low by lia. apply xorb_nilpotent.
  - rewrite Z.mod_pow2_bits_high by lia.
    rewrite Z.shiftl_spec by lia. rewrite Z.shiftr_spec by lia.
    rewrite xorb_false_r. f_equal. lia.
Qed.

(** An even value is shifted, and the polynomial stays out. *)
Lemma crc_bit_even (x : Z) : crc_bit (2 * x) = x.
Proof.
  unfold crc_bit.
  change 1 with (Z.ones 1) at 1. rewrite Z.land_ones by lia.
  change (2 ^ 1) with 2. rewrite Z.mul_comm, Z.mod_mul by lia.
  cbn [Z.eqb]. rewrite Z.shiftr_div_pow2 by lia. change (2 ^ 1) with 2.
  now rewrite Z.div_mul by lia.
Qed.

Lemma crc_bits_shift (k : nat) (h : Z) : Nat.iter k crc_bit (2 ^ Z.of_nat k * h) = h.
Proof.
  induction k as [|k IH].
  - cbn [Nat.iter nat_rect]. change (2 ^ Z.of_nat 0) with 1. lia.
  - rewrite Nat.iter_succ_r.
    replace (2 ^ Z.of_nat (S k) * h) with (2 * (2 ^ Z.of_nat k * h)).
    + now rewrite crc_bit_even.
    + rewrite Nat2Z.inj_succ, Z.pow_succ_r by lia. lia.
Qed.

Lemma crc_byte_low (c : Z) : 0 <= c -> crc_byte c (c mod 256) = c / 256.
Proof.
  intros Hc. unfold crc_byte. rewrite lxor_low_byte by lia.
  exact (crc_bits_shift 8 (c / 256)).
Qed.

(** Running the two bytes of a [uint16] value, low byte first, through the
    CRC that holds this value leaves 0. *)
Lemma crc_byte_own_value (c : Z) :
  is_uint16 c -> crc_byte (crc_byte c (byte c)) (byte (Z.shiftr c 8)) = 0.
Proof.
  unfold is_uint16. intros Hc. unfold byte.
  rewrite Z.shiftr_div_pow2 by lia. change (2 ^ 8) with 256.
  assert (Hh : 0 <= c / 256 < 256).
  { split; [apply Z.div_pos; lia | apply Z.div_lt_upper_bound; lia]. }
  rewrite (Z.mod_small (c / 256)) by exact Hh.
  rewrite crc_byte_low by lia.
  unfold crc_byte. rewrite Z.lxor_nilpotent. reflexivity.
Qed.

(** C6, as amended.  The CRC over a payload followed by the two
    little-endian bytes of its own CRC is 0 for every payload, so [checkCRC]
    of that string is false. *)
Theorem calculateCRC_appended_residual (payload : list Z)
    (Hbytes : Forall is_byte payload) :
  calculateCRC (payload ++ crc_bytes payload) = 0 /\
  checkCRC (payload ++ crc_bytes payload) = false.
Proof.
  assert (H0 : calculateCRC (payload ++ crc_bytes payload) = 0).
  { pose proof (calculateCRC_uint16 payload Hbytes) as Hc.
    unfold crc_bytes.
    set (c := calculateCRC payload) in *.
    assert (Hb : Forall is_byte (payload ++ [byte c; byte (Z.shiftr c 8)])).
    { apply Forall_app. split; [exact Hbytes|].
      repeat constructor; unfold is_byte, byte; apply Z.mod_pos_bound; lia. }
    rewrite calculateCRC_fold by exact Hb.
    rewrite fold_left_app. cbn [fold_left].
    rewrite <- calculateCRC_fold by exact Hbytes. fold c.
    now apply crc_byte_own_value. }
  split; [exact H0|]. unfold checkCRC. now rewrite H0.
Qed.

Lemma calculateCRC_appended_residual_witness :
  Forall is_byte [0x31; 0x32; 0x33] /\
  calculateCRC ([0x31; 0x32; 0x33] ++ crc_bytes [0x31; 0x32; 0x33]) = 0.
Proof.
  assert (H : Forall is_byte [0x31; 0x32; 0x33]).
  { repeat constructor; unfold is_byte; lia. }
  split; [exact H|].
  exact (proj1 (calculateCRC_appended_residual [0x31; 0x32; 0x33] H)).
Defined.

(** C6 as stated fails: already for the empty payload, whose CRC is
    [FFFF], the CRC over [FF FF] is 0 and not [F0B8]. *)
Lemma calculateCRC_residual_is_not_F0B8 :
  ~ (forall payload : list Z,
        Forall is_byte payload ->
        calculateCRC (payload ++ crc_bytes payload) = 0xF0B8 /\
        checkCRC (payload ++ crc_bytes payload) = true).
Proof.
  intros H. destruct (H [] (Forall_nil_2 _)) as [H1 _].
  vm_compute in H1. discriminate H1.
Qed.

(** *** The residual [F0B8] *)

Ltac bitwise :=
  apply Z.bits_inj'; intros ? ?; rewrite ?Z.lxor_spec, ?Z.land_spec, ?Z.lxor_spec;
  repeat match goal with
         | |- context [Z.testbit ?x ?n] => destruct (Z.testbit x n)
         end; reflexivity.

Lemma land_1_cases (a : Z) : Z.land a 1 = 0 \/ Z.land a 1 = 1.
Proof.
  pose proof (Z.land_ones a 1 ltac:(lia)) as H.
  change (Z.ones 1) with 1 in H. change (2 ^ 1) with 2 in H.
  pose proof (Z.mod_pos_bound a 2 ltac:(lia)). lia.
Qed.

Lemma land_lxor_1 (a b : Z) :
  Z.land (Z.lxor a b) 1 = Z.lxor (Z.land a 1) (Z.land b 1).
Proof. bitwise. Qed.

(** The CRC step is linear over xor. *)
Lemma crc_bit_lxor (a b : Z) : crc_bit (Z.lxor a b) = Z.lxor (crc_bit a) (crc_bit b).
Proof.
  unfold crc_bit. rewrite Z.shiftr_lxor, land_lxor_1.
  destruct (land_1_cases a) as [-> | ->], (land_1_cases b) as [-> | ->];
    cbn [Z.lxor Z.eqb Pos.lxor Pos.eqb];
    match goal with
    | |- context [Z.lxor ?x ?y =? 1] =>
      let v := eval vm_compute in (Z.lxor x y =? 1) in
      change (Z.lxor x y =? 1) with v
    end; cbv iota; bitwise.
Qed.

Lemma crc_bits_lxor (k : nat) (a b : Z) :
  Nat.iter k crc_bit (Z.lxor a b)
  = Z.lxor (Nat.iter k crc_bit a) (Nat.iter k crc_bit b).
Proof.
  induction k as [|k IH]; [reflexivity|].
  cbn [Nat.iter nat_rect]. fold (Nat.iter k crc_bit (Z.lxor a b)).
  fold (Nat.iter k crc_bit a). fold (Nat.iter k crc_bit b).
  rewrite IH. apply crc_bit_lxor.
Qed.

Lemma byte_lxor_FF (x m : Z) :
  0 <= m -> Z.land m 255 = 255 -> byte (Z.lxor m x) = Z.lxor 255 (byte x).
Proof.
  intros Hm Hl. unfold byte. change 256 with (2 ^ 8).
  rewrite <- !Z.land_ones by lia. change (Z.ones 8) with 255.
  rewrite <- Hl at 2. bitwise.
Qed.

(** Running the two bytes of the complement of a [uint16] value, low byte
    first, through the CRC that holds this value leaves [F0B8]. *)
Lemma crc_byte_complement (c : Z) :
  is_uint16 c ->
  crc_byte (crc_byte c (byte (Z.lxor 0xFFFF c)))
           (byte (Z.shiftr (Z.lxor 0xFFFF c) 8)) = 0xF0B8.
Proof.
  unfold is_uint16. intros Hc.
  rewrite Z.shiftr_lxor. change (Z.shiftr 65535 8) with 255.
  rewrite !byte_lxor_FF by (reflexivity || lia).
  assert (Hh : 0 <= c / 256 < 256).
  { split; [apply Z.div_pos; lia | apply Z.div_lt_upper_bound; lia]. }
  assert (H8 : byte (Z.shiftr c 8) = c / 256).
  { unfold byte. rewrite Z.shiftr_div_pow2 by lia. change (2 ^ 8) with 256.
    now apply Z.mod_small. }
  rewrite H8. unfold byte.
  assert (H1 : crc_byte c (Z.lxor 255 (c mod 256))
               = Z.lxor (c / 256) (Nat.iter 8 crc_bit 255)).
  { unfold crc_byte.
    replace (Z.lxor c (Z.lxor 255 (c mod 256)))
      with (Z.lxor (Z.lxor c (c mod 256)) 255) by bitwise.
    rewrite crc_bits_lxor. f_equal. apply (crc_byte_low c). lia. }
  rewrite H1. unfold crc_byte.
  replace (Z.lxor (Z.lxor (c / 256) (Nat.iter 8 crc_bit 255)) (Z.lxor 255 (c / 256)))
    with (Z.lxor (Nat.iter 8 crc_bit 255) 255) by bitwise.
  vm_compute. reflexivity.
Qed.

(** The residual [F0B8] that [checkCRC] tests belongs to the other
    convention: it is what is left, for every payload, when the bytes
    appended are those of the complement of the CRC. *)
Lemma checkCRC_complement (payload : list Z) :
  Forall is_byte payload -> checkCRC (payload ++ complement_bytes payload) = true.
Proof.
  intros Hbytes. pose proof (calculateCRC_uint16 payload Hbytes) as Hc.
  unfold checkCRC, complement_bytes.
  set (c := calculateCRC payload) in *.
  assert (Hb : Forall is_byte
                 (payload ++ [byte (Z.lxor 65535 c); byte (Z.shiftr (Z.lxor 65535 c) 8)])).
  { apply Forall_app. split; [exact Hbytes|].
    repeat constructor; unfold is_byte, byte; apply Z.mod_pos_bound; lia. }
  rewrite calculateCRC_fold by exact Hb.
  rewrite fold_left_app. cbn [fold_left].
  rewrite <- calculateCRC_fold by exact Hbytes. fold c.
  now rewrite crc_byte_complement.
Qed.

(** *** [SendAndReceive]: the size check *)

Section TooLarge.
Context {Chan K : Type}.
Variable conn_Receive : Chan -> (list Z + error) * Chan.
Variable conn_Send : list Z -> Chan -> option error * Chan.

(** C10.  With more than 64 data bytes [SendAndReceive] returns the
    "payload too large" error, whatever the channel is, and leaves the state
    of the channel and of the caller as it was: nothing is sent and nothing
    is read. *)
Theorem SendAndReceive_payload_too_large
    (fuel : nat) (ctx : nat -> bool) (slot : Z) (data : list Z)
    (onKeepalive : option (Z -> K -> K)) (s : Chan * K)
    (Hlong : SLOT_DATA_SIZE < len data) :
  SendAndReceive conn_Receive conn_Send fuel ctx slot data onKeepalive s
  = (Fail ErrPayloadTooLarge, s).
Proof.
  unfold SendAndReceive.
  replace (SLOT_DATA_SIZE <? len data) with true by (symmetry; now apply Z.ltb_lt).
  reflexivity.
Qed.

End TooLarge.

(** 65 bytes on a scripted channel: the script is untouched, nothing is
    logged as sent. *)
Lemma SendAndReceive_payload_too_large_witness :
  let s : script * unit := (([[0; 0; 0; 0; 0; 0; 0; 0]], []), tt) in
  SLOT_DATA_SIZE < len (replicate 65 0x61) /\
  SendAndReceive script_Receive script_Send 5 (fun _ => false) 0x30
    (replicate 65 0x61) None s = (Fail ErrPayloadTooLarge, s).
Proof.
  intros s.
  assert (H : SLOT_DATA_SIZE < len (replicate 65 0x61)) by (vm_compute; reflexivity).
  split; [exact H|].
  exact (SendAndReceive_payload_too_large script_Receive script_Send 5
           (fun _ => false) 0x30 (replicate 65 0x61) None s H).
Defined.

(** *** [readFrame]: sequence 0 out of turn *)

Section ReadFrame.
Context {Chan K : Type}.
Variable conn_Receive : Chan -> (list Z + error) * Chan.
Variable conn_Send : list Z -> Chan -> option error * Chan.

Lemma receive_ok (s : Chan * K) (report : list Z) (c : Chan) :
  conn_Receive (fst s) = (inl report, c) ->
  length report = 8%nat ->
  receive conn_Receive s = (Ok report, (c, snd s)).
Proof.
  intros Hr Hlen. unfold receive, hbind, Receive. rewrite Hr.
  unfold len. rewrite Hlen. reflexivity.
Qed.

Lemma at_ok (b : list Z) (i x : Z) (s : Chan * K) :
  0 <= i -> b !! Z.to_nat i = Some x -> at_ b i s = (Ok x, s).
Proof.
  intros Hi Hx. unfold at_.
  replace (0 <=? i) with true by (symmetry; now apply Z.leb_le).
  now rewrite Hx.
Qed.

Lemma readFrame_loop_seq0_out_of_turn
    (fuel : nat) (ctx : nat -> bool) (progSeq : Z) (onKeepalive : Z -> K -> K)
    (response : option (list Z)) (seq : Z) (needsTouch : bool) (waits : nat)
    (s : Chan * K) (report : list Z) (c : Chan) :
  conn_Receive (fst s) = (inl report, c) ->
  pending_seq0 report ->
  seq <> 0 ->
  readFrame_loop conn_Receive conn_Send (S fuel) ctx progSeq onKeepalive
    response seq needsTouch waits s
  = (Ok response, (snd (conn_Send reset_report c), snd s)).
Proof.
  intros Hr [Hlen (status & Hst & Hpend & Hseq)] Hturn.
  cbn [readFrame_loop]. unfold hbind at 1.
  rewrite (receive_ok s report c Hr Hlen).
  unfold hbind at 1. rewrite (at_ok report FEATURE_RPT_DATA_SIZE status) by easy.
  replace (Z.land status RESP_PENDING_FLAG =? 0) with false
    by (symmetry; now apply Z.eqb_neq).
  cbn [negb]. rewrite Hseq.
  replace (seq =? 0) with false by (symmetry; now apply Z.eqb_neq).
  cbn [Z.eqb]. unfold hbind, resetState, hbind, Send, ret. cbn [fst snd].
  fold reset_report. now destruct (conn_Send reset_report c).
Qed.

(** C7.  In the loop of [readFrame], a response-pending report with
    sequence number 0 that arrives when the expected sequence is not 0 ends
    the transfer: the reset report is sent and the bytes accumulated so far
    are returned.  So when, after the frame has gone out, the channel
    delivers a response-pending report at sequence 0 and then another one
    at sequence 0, [SendAndReceive] returns the 7 payload bytes of the first
    report. *)
Theorem readFrame_seq0_out_of_turn_ends_transfer :
  (forall (fuel : nat) (ctx : nat -> bool) (progSeq : Z) (onKeepalive : Z -> K -> K)
          (response : option (list Z)) (seq : Z) (needsTouch : bool) (waits : nat)
          (s : Chan * K) (report : list Z) (c : Chan),
      conn_Receive (fst s) = (inl report, c) ->
      pending_seq0 report ->
      0 < seq ->
      readFrame_loop conn_Receive conn_Send (S fuel) ctx progSeq onKeepalive
        response seq needsTouch waits s
      = (Ok response, (snd (conn_Send reset_report c), snd s))) /\
  (forall (fuel : nat) (ctx : nat -> bool) (slot : Z) (data : list Z)
          (onKeepalive : option (Z -> K -> K)) (s s1 : Chan * K) (progSeq : Z)
          (r1 r2 : list Z) (c1 c2 : Chan),
      len data <= SLOT_DATA_SIZE ->
      sendFrame conn_Receive conn_Send
        (formatFrame slot (take 64 data ++ replicate (64 - length data) 0)) s
      = (Ok progSeq, s1) ->
      conn_Receive (fst s1) = (inl r1, c1) ->
      conn_Receive c1 = (inl r2, c2) ->
      pending_seq0 r1 ->
      pending_seq0 r2 ->
      SendAndReceive conn_Receive conn_Send (S (S fuel)) ctx slot data onKeepalive s
      = (Ok (Some (take 7 r1)), (snd (conn_Send reset_report c2), snd s1))).
Proof.
  split.
  - intros fuel ctx progSeq onKeepalive response seq needsTouch waits s report c
      Hr Hp Hturn.
    apply (readFrame_loop_seq0_out_of_turn fuel ctx progSeq onKeepalive response
             seq needsTouch waits s report c Hr Hp).
    lia.
  - intros fuel ctx slot data onKeepalive s s1 progSeq r1 r2 c1 c2
      Hsize Hsend Hr1 Hr2 Hp1 Hp2.
    unfold SendAndReceive.
    replace (SLOT_DATA_SIZE <? len data) with false
      by (symmetry; now apply Z.ltb_ge).
    change (Z.to_nat SLOT_DATA_SIZE) with 64%nat.
    unfold hbind at 1. rewrite Hsend.
    unfold readFrame. cbn [readFrame_loop]. unfold hbind at 1.
    destruct Hp1 as [Hlen1 (st1 & Hst1 & Hpend1 & Hseq1)].
    rewrite (receive_ok s1 r1 c1 Hr1 Hlen1).
    unfold hbind at 1. rewrite (at_ok r1 FEATURE_RPT_DATA_SIZE st1) by easy.
    replace (Z.land st1 RESP_PENDING_FLAG =? 0) with false
      by (symmetry; now apply Z.eqb_neq).
    cbn [negb]. rewrite Hseq1. cbn [Z.eqb default app Z.add].
    exact (readFrame_loop_seq0_out_of_turn fuel ctx progSeq _ (Some (take 7 r1))
             1 false 0%nat (c1, snd s1) r2 c2 Hr2 Hp2 ltac:(lia)).
Qed.

End ReadFrame.

(** The scenario on a scripted channel: an empty payload for slot [30]
    goes out in two reports, the first and the last; the script answers the
    status read and the two readiness polls, then delivers two
    response-pending reports at sequence 0.  The call returns the seven
    payload bytes of the first and the reset report is the last one sent. *)
Lemma readFrame_seq0_out_of_turn_ends_transfer_witness :
  let r := [1; 2; 3; 4; 5; 6; 7; 0x40] in
  let idle := [0; 0; 0; 0; 0; 0; 0; 0] in
  let s : script * unit := (([idle; idle; idle; r; r], []), tt) in
  let crc := calculateCRC (replicate 64 0) in
  let first := [0; 0; 0; 0; 0; 0; 0; 0x80] in
  let last := [0; 0x30; byte crc; byte (Z.shiftr crc 8); 0; 0; 0; 0x89] in
  len [] <= SLOT_DATA_SIZE /\
  pending_seq0 r /\
  SendAndReceive script_Receive script_Send 2 (fun _ => false) 0x30 [] None s
  = (Ok (Some [1; 2; 3; 4; 5; 6; 7]), (([], [first; last; reset_report]), tt)).
Proof.
  intros r idle s crc first last.
  assert (Hsize : len [] <= SLOT_DATA_SIZE) by (vm_compute; discriminate).
  assert (Hp : pending_seq0 r).
  { split; [reflexivity|]. exists 0x40. repeat split; [discriminate]. }
  assert (Hsend :
    sendFrame script_Receive script_Send
      (formatFrame 0x30 (take 64 (@nil Z) ++ replicate (64 - length (@nil Z)) 0)) s
    = (Ok 0, (([r; r], [first; last]), tt))) by (vm_compute; reflexivity).
  split; [exact Hsize|]. split; [exact Hp|].
  exact (proj2 (readFrame_seq0_out_of_turn_ends_transfer script_Receive script_Send)
           0%nat (fun _ => false) 0x30 [] None s (([r; r], [first; last]), tt) 0 r r
           ([r], [first; last]) ([], [first; last])
           Hsize Hsend eq_refl eq_refl Hp Hp).
Defined.

End HidFacts.

(** ** scard: more of [Transmit], the registry, RID and ATR *)

Module ScardMoreFacts.
Import GoSlice GoSliceFacts Scard ScardSpec ScardMore.

(** *** [Transmit]: the answer of the card *)

(** The answer [body ++ [sw1; sw2]] in a 258-byte buffer: the status word
    is looked up, and the body is what is in front of it. *)
Lemma interpret_answer (body pad : list Z) (sw1 sw2 : Z) :
  length (body ++ [sw1; sw2] ++ pad) = 258%nat ->
  interpret (ClientOk (body ++ [sw1; sw2] ++ pad) (Z.of_nat (length body) + 2))
  = match errorCodes_at sw1 sw2 with
    | Some e => TReturn None (Some e)
    | None => TReturn (Some body) None
    end.
Proof.
  intros Hbuf. unfold interpret.
  set (buf := body ++ [sw1; sw2] ++ pad) in *.
  set (n := Z.of_nat (length body) + 2).
  assert (Hn : n <= 258).
  { subst n buf. rewrite !length_app in Hbuf. cbn [length] in Hbuf. lia. }
  rewrite slice_range_ok by (unfold cap; cbn [backing]; lia).
  cbn [slen]. rewrite Z.sub_0_r.
  replace (n <? 2) with false by lia.
  rewrite !index_in_range by (cbn [slen]; lia). cbn [backing].
  change (Z.to_nat 0) with 0%nat. rewrite drop_0.
  replace (Z.to_nat (n - 2)) with (length body) by lia.
  replace (Z.to_nat (n - 1)) with (S (length body)) by lia.
  assert (H1 : buf !! length body = Some sw1).
  { subst buf. now rewrite lookup_app_r, Nat.sub_diag by lia. }
  assert (H2 : buf !! S (length body) = Some sw2).
  { subst buf. rewrite lookup_app_r by lia.
    now replace (S (length body) - length body)%nat with 1%nat by lia. }
  rewrite H1, H2. destruct (errorCodes_at sw1 sw2); [reflexivity|].
  rewrite slice_range_ok by (unfold cap; cbn [backing slen]; lia).
  unfold bytes_of. cbn [backing slen]. rewrite drop_0, Z.sub_0_r.
  replace (Z.to_nat (n - 2)) with (length body) by lia.
  subst buf. now rewrite take_app_length.
Qed.

(** X1.  An answer of fewer than two bytes is the error "response too
    short", whatever the command and whatever is in the buffer: no status
    word is looked up. *)
Theorem Transmit_response_too_short
    (client : list Z -> client_result) (apdu : APDU) (buf : list Z) (n : Z)
    (Hanswer : client (encodeCommand apdu) = ClientOk buf n)
    (Hbuf : length buf = 258%nat)
    (Hshort : 0 <= n < 2) :
  Transmit client apdu = TReturn None (Some ErrRespTooShort).
Proof.
  unfold Transmit. rewrite Hanswer. unfold interpret.
  rewrite slice_range_ok by (unfold cap; cbn [backing]; lia).
  cbn [slen]. now replace (n - 0 <? 2) with true by lia.
Qed.

Lemma Transmit_response_too_short_witness :
  Transmit (fun _ => ClientOk (0x90 :: replicate 257 0) 1) (select_apdu AidOpenPGP)
  = TReturn None (Some ErrRespTooShort).
Proof.
  exact (Transmit_response_too_short _ (select_apdu AidOpenPGP)
           (0x90 :: replicate 257 0) 1 eq_refl eq_refl ltac:(lia)).
Defined.

(** X2.  A status word that the table maps to an error makes the call
    return that error and no body: whatever the card sent in front of the
    status word is dropped. *)
Theorem Transmit_cataloged_error
    (client : list Z -> client_result) (apdu : APDU)
    (body pad : list Z) (sw1 sw2 : Z) (e : error)
    (Hanswer : client (encodeCommand apdu)
               = ClientOk (body ++ [sw1; sw2] ++ pad) (Z.of_nat (length body) + 2))
    (Hbuf : length (body ++ [sw1; sw2] ++ pad) = 258%nat)
    (Hmapped : errorCodes !! (sw1, sw2) = Some (Some e)) :
  Transmit client apdu = TReturn None (Some e).
Proof.
  unfold Transmit. rewrite Hanswer, interpret_answer by exact Hbuf.
  unfold errorCodes_at. now rewrite Hmapped.
Qed.

(** The answer [6A 82] to a SELECT: "file or application not found". *)
Lemma Transmit_cataloged_error_witness :
  errorCodes !! (0x6A, 0x82) = Some (Some ErrFileOrAppNotFound) /\
  Transmit (fun _ => ClientOk ([] ++ [0x6A; 0x82] ++ replicate 256 0) 2)
           (select_apdu AidOpenPGP)
  = TReturn None (Some ErrFileOrAppNotFound).
Proof.
  assert (H : errorCodes !! (0x6A, 0x82) = Some (Some ErrFileOrAppNotFound))
    by (vm_compute; reflexivity).
  split; [exact H|].
  exact (Transmit_cataloged_error _ (select_apdu AidOpenPGP) [] (replicate 256 0)
           0x6A 0x82 ErrFileOrAppNotFound eq_refl eq_refl H).
Defined.

(** The only status word the table maps to the nil error is [90 00]. *)
Lemma errorCodes_success_is_9000 (sw1 sw2 : Z) :
  errorCodes !! (sw1, sw2) = Some None -> (sw1, sw2) = (0x90, 0x00).
Proof.
  assert (H : map_Forall (fun k v => v = None -> k = (0x90, 0x00)) errorCodes).
  { unfold errorCodes. cbn [list_to_map foldr].
    repeat (apply map_Forall_insert_2; [intros; (discriminate || reflexivity)|]).
    apply map_Forall_empty. }
  intros Hk. exact (H _ _ Hk eq_refl).
Qed.

(** X3.  The status word [90 00] is a success: the call returns what is
    in front of it, a non-nil slice, empty when the card sent the status
    word alone.  It is the only status word the table maps to the nil
    error. *)
Theorem Transmit_success
    (client : list Z -> client_result) (apdu : APDU) (body pad : list Z)
    (Hanswer : client (encodeCommand apdu)
               = ClientOk (body ++ [0x90; 0x00] ++ pad) (Z.of_nat (length body) + 2))
    (Hbuf : length (body ++ [0x90; 0x00] ++ pad) = 258%nat) :
  Transmit client apdu = TReturn (Some body) None /\
  (forall sw1 sw2, errorCodes !! (sw1, sw2) = Some None -> (sw1, sw2) = (0x90, 0x00)).
Proof.
  split; [|exact errorCodes_success_is_9000].
  unfold Transmit. now rewrite Hanswer, interpret_answer by exact Hbuf.
Qed.

Lemma Transmit_success_witness :
  Transmit (fun _ => ClientOk ([] ++ [0x90; 0x00] ++ replicate 256 0) 2)
           (select_apdu AidOpenPGP)
  = TReturn (Some []) None.
Proof.
  exact (proj1 (Transmit_success _ (select_apdu AidOpenPGP) [] (replicate 256 0)
                  eq_refl eq_refl)).
Defined.

(** X4.  [Transmit] trusts the count of the client: on the 258-byte
    buffer it panics exactly when the count is negative or above 258, and
    otherwise returns either a body or an error, never both. *)
Theorem Transmit_panics_on_bad_count
    (client : list Z -> client_result) (apdu : APDU) (buf : list Z) (n : Z)
    (Hanswer : client (encodeCommand apdu) = ClientOk buf n)
    (Hbuf : length buf = 258%nat) :
  (Transmit client apdu = TPanic <-> n < 0 \/ 258 < n) /\
  (forall body err, Transmit client apdu = TReturn body err ->
     (body = None /\ err <> None) \/ (body <> None /\ err = None)).
Proof.
  unfold Transmit. rewrite Hanswer. unfold interpret.
  destruct (Z.lt_ge_cases n 0) as [Hneg|Hpos].
  { unfold slice_range. replace (0 <=? n) with false by lia.
    cbn [andb]. split; [split; [lia | reflexivity] | discriminate]. }
  destruct (Z.lt_ge_cases 258 n) as [Hbig|Hfit].
  { rewrite slice_range_past_cap by (unfold cap; cbn [backing]; lia).
    split; [split; [lia | reflexivity] | discriminate]. }
  rewrite slice_range_ok by (unfold cap; cbn [backing]; lia).
  cbn [slen backing]. rewrite Z.sub_0_r, drop_0.
  destruct (n <? 2) eqn:Hn2.
  { split; [split; [discriminate | lia]|].
    intros body err [= <- <-]. left. split; [reflexivity | discriminate]. }
  rewrite !index_in_range by (cbn [slen]; lia). cbn [backing].
  destruct (lookup_lt_is_Some_2 buf (Z.to_nat (n - 2)) ltac:(lia)) as [sw1 ->].
  destruct (lookup_lt_is_Some_2 buf (Z.to_nat (n - 1)) ltac:(lia)) as [sw2 ->].
  destruct (errorCodes_at sw1 sw2) as [e|].
  { split; [split; [discriminate | lia]|].
    intros body err [= <- <-]. left. split; [reflexivity | discriminate]. }
  rewrite slice_range_ok by (unfold cap; cbn [backing slen]; lia).
  split; [split; [discriminate | lia]|].
  intros body err [= <- <-]. right. split; [discriminate | reflexivity].
Qed.

(** A client that reports 300 bytes in the 258-byte buffer. *)
Lemma Transmit_panics_on_bad_count_witness :
  Transmit (fun _ => ClientOk (replicate 258 0) 300) (select_apdu AidOpenPGP) = TPanic.
Proof.
  apply (proj1 (Transmit_panics_on_bad_count
                  (fun _ => ClientOk (replicate 258 0) 300) (select_apdu AidOpenPGP)
                  (replicate 258 0) 300 eq_refl eq_refl)).
  right. lia.
Defined.

(** *** The registry *)

Lemma PutUint16_inj (x y : Z) :
  0 <= x < 65536 -> 0 <= y < 65536 ->
  bytes_Equal (PutUint16 (uint16 x)) (PutUint16 (uint16 y)) = true <-> x = y.
Proof.
  intros Hx Hy. unfold PutUint16, uint16, uint8. cbn [bytes_Equal].
  rewrite (Z.mod_small x 65536), (Z.mod_small y 65536) by lia.
  rewrite !Z.shiftr_div_pow2 by lia.
  change (2 ^ 8) with 256. rewrite andb_true_r, andb_true_iff, !Z.eqb_eq.
  split; [|now intros ->].
  intros [Hhi Hlo].
  assert (Hdx : 0 <= x / 256 < 256)
    by (split; [apply Z.div_pos; lia | apply Z.div_lt_upper_bound; lia]).
  assert (Hdy : 0 <= y / 256 < 256)
    by (split; [apply Z.div_pos; lia | apply Z.div_lt_upper_bound; lia]).
  rewrite (Z.mod_small (x / 256)), (Z.mod_small (y / 256)) in Hhi by lia.
  rewrite (Z.div_mod x 256), (Z.div_mod y 256) by lia. congruence.
Qed.

Lemma children_in_filter (table : list DataObject) (do : DataObject) :
  0 <= tag do < 65536 ->
  Forall (fun d => 0 <= parent d < 65536) table ->
  forall acc,
    fold_left
      (fun c d => if bytes_Equal (parentBytes d) (tagBytes do) then c ++ [d] else c)
      table acc
    = acc ++ filter (fun d => parent d = tag do) table.
Proof.
  intros Ht Htable. induction Htable as [|d table Hd _ IH]; intros acc.
  - cbn. now rewrite app_nil_r.
  - cbn [fold_left]. rewrite IH, filter_cons.
    pose proof (PutUint16_inj (parent d) (tag do) Hd Ht) as Heq.
    unfold parentBytes, tagBytes.
    destruct (bytes_Equal _ _) eqn:Hb.
    + rewrite decide_True by now apply Heq. now rewrite <- app_assoc.
    + rewrite decide_False; [reflexivity|].
      intros Hp. apply Heq in Hp. congruence.
Qed.

Lemma DataObjects_parents : Forall (fun d => 0 <= parent d < 65536) DataObjects.
Proof. repeat constructor; cbn; lia. Qed.

(** X5.  [children] of a data object is the list of the registry entries
    whose parent is its tag, in the order of the registry: comparing the two
    big-endian bytes is comparing the 16-bit numbers. *)
Theorem children_are_the_entries_with_parent (do : DataObject)
    (Htag : 0 <= tag do < 65536) :
  children do = filter (fun d => parent d = tag do) DataObjects /\
  (forall d, d ∈ children do <-> d ∈ DataObjects /\ parent d = tag do).
Proof.
  assert (H : children do = filter (fun d => parent d = tag do) DataObjects).
  { unfold children, children_in.
    now rewrite (children_in_filter DataObjects do Htag DataObjects_parents []). }
  split; [exact H|]. intros d. rewrite H, list_elem_of_filter. tauto.
Qed.

(** The cardholder data [65] has the name, the language preferences and
    the salutation as children. *)
Lemma children_are_the_entries_with_parent_witness :
  0 <= tag DoCardRelData < 65536 /\
  children DoCardRelData = [DoName; DoLangPrefs; DoSalutation].
Proof.
  assert (Ht : 0 <= tag DoCardRelData < 65536) by (cbn; lia).
  split; [exact Ht|].
  rewrite (proj1 (children_are_the_entries_with_parent DoCardRelData Ht)).
  vm_compute. reflexivity.
Defined.

(** X6.  [tagP1] and [tagP2] never panic, are bytes, and are the high and
    the low byte of the tag: [256 * P1 + P2] is the tag. *)
Theorem tag_P1_P2_round_trip (do : DataObject) (Htag : 0 <= tag do < 65536) :
  exists p1 p2,
    tagP1 do = Some p1 /\ tagP2 do = Some p2 /\
    is_byte p1 /\ is_byte p2 /\ 256 * p1 + p2 = tag do.
Proof.
  exists (tag do / 256), (tag do mod 256).
  unfold tagP1, tagP2, tagBytes, PutUint16, uint16, uint8, is_byte.
  rewrite (Z.mod_small (tag do) 65536) by lia.
  rewrite Z.shiftr_div_pow2 by lia. change (2 ^ 8) with 256.
  assert (Hd : 0 <= tag do / 256 < 256)
    by (split; [apply Z.div_pos; lia | apply Z.div_lt_upper_bound; lia]).
  rewrite (Z.mod_small (tag do / 256)) by lia.
  pose proof (Z.mod_pos_bound (tag do) 256 ltac:(lia)).
  pose proof (Z.div_mod (tag do) 256 ltac:(lia)).
  repeat split; (reflexivity || lia).
Qed.

Lemma tag_P1_P2_round_trip_witness :
  0 <= tag DoCardholderCrt < 65536 /\
  exists p1 p2,
    tagP1 DoCardholderCrt = Some p1 /\ tagP2 DoCardholderCrt = Some p2 /\
    is_byte p1 /\ is_byte p2 /\ 256 * p1 + p2 = 0x7F21.
Proof.
  assert (Ht : 0 <= tag DoCardholderCrt < 65536) by (cbn; lia).
  split; [exact Ht|].
  exact (tag_P1_P2_round_trip DoCardholderCrt Ht).
Defined.

(** *** [RID.String] *)

(** X7.  [RID.String] gives ["<unknown>"] exactly for the identifiers
    that are not keys of [ridMap]; the seven known identifiers have pairwise
    different names, so the name tells the identifier. *)
Theorem RID_String_unknown :
  (forall r : list Z, RID_String r = "<unknown>"%string <-> r ∉ known_rids) /\
  (forall r1 r2 : list Z,
      r1 ∈ known_rids -> r2 ∈ known_rids ->
      RID_String r1 = RID_String r2 -> r1 = r2).
Proof.
  assert (Hknown : forall r, r ∈ known_rids ->
            r = RidNIST \/ r = RidFSFE \/ r = RidYubico \/ r = RidFIDO \/
            r = RidSolokeys \/ r = RidGlobalPlatform \/ r = RidNXPNFC).
  { intros r Hr. unfold known_rids in Hr.
    repeat (apply elem_of_cons in Hr as [->|Hr]; [tauto|]).
    now apply elem_of_nil in Hr. }
  split.
  - intros r. split.
    + intros Hu Hr.
      destruct (Hknown r Hr) as [->|[->|[->|[->|[->|[->| ->]]]]]];
        vm_compute in Hu; discriminate Hu.
    + intros Hr. unfold RID_String.
      assert (Hnone : ridMap !! r = None).
      { apply not_elem_of_list_to_map. exact Hr. }
      now rewrite Hnone.
  - intros r1 r2 H1 H2.
    destruct (Hknown r1 H1) as [->|[->|[->|[->|[->|[->| ->]]]]]];
      destruct (Hknown r2 H2) as [->|[->|[->|[->|[->|[->| ->]]]]]];
      intros Heq; (reflexivity || (vm_compute in Heq; discriminate Heq)).
Qed.

(** *** [ATR.String] *)

Lemma string_app_assoc (s1 s2 s3 : string) :
  ((s1 +:+ s2) +:+ s3 = s1 +:+ (s2 +:+ s3))%string.
Proof.
  induction s1 as [|c s1 IH]; [reflexivity|].
  change (String c ((s1 +:+ s2) +:+ s3) = String c (s1 +:+ (s2 +:+ s3)))%string.
  now rewrite IH.
Qed.

Lemma string_app_length (s1 s2 : string) :
  String.length (s1 +:+ s2) = (String.length s1 + String.length s2)%nat.
Proof.
  induction s1 as [|c s1 IH]; [reflexivity|].
  change (S (String.length (s1 +:+ s2)) = S (String.length s1 + String.length s2))%nat.
  now rewrite IH.
Qed.

Lemma string_app_nil_r (s : string) : (s +:+ EmptyString)%string = s.
Proof.
  induction s as [|c s IH]; [reflexivity|].
  change (String c (s +:+ EmptyString)%string = String c s). now rewrite IH.
Qed.

Lemma ATR_String_fold (atr : list Z) (acc : string) :
  fold_left (fun buffer b => (buffer +:+ Sprintf_02x b)%string) atr acc
  = (acc +:+ ATR_String atr)%string.
Proof.
  unfold ATR_String. revert acc.
  induction atr as [|x atr IH]; intros acc; cbn [fold_left].
  - now rewrite string_app_nil_r.
  - rewrite IH, (IH (EmptyString +:+ Sprintf_02x x)%string).
    change (EmptyString +:+ Sprintf_02x x)%string with (Sprintf_02x x).
    now rewrite string_app_assoc.
Qed.

Lemma ATR_String_cons (b : Z) (atr : list Z) :
  ATR_String (b :: atr) = (Sprintf_02x b +:+ ATR_String atr)%string.
Proof.
  unfold ATR_String at 1. cbn [fold_left].
  change (EmptyString +:+ Sprintf_02x b)%string with (Sprintf_02x b).
  apply ATR_String_fold.
Qed.

Lemma hex_digit_inj (n m : Z) :
  0 <= n < 16 -> 0 <= m < 16 -> hex_digit n = hex_digit m -> n = m.
Proof.
  intros Hn Hm H. unfold hex_digit in H.
  apply (f_equal Ascii.nat_of_ascii) in H.
  rewrite !Ascii.nat_ascii_embedding in H
    by (destruct (n <? 10), (m <? 10); lia).
  destruct (n <? 10) eqn:En, (m <? 10) eqn:Em; lia.
Qed.

Lemma Sprintf_02x_inj (a b : Z) :
  is_byte a -> is_byte b -> Sprintf_02x a = Sprintf_02x b -> a = b.
Proof.
  unfold is_byte, Sprintf_02x. intros Ha Hb H.
  injection H as H1 H2.
  apply hex_digit_inj in H1;
    [|split; [apply Z.div_pos; lia | apply Z.div_lt_upper_bound; lia]..].
  apply hex_digit_inj in H2; [|apply Z.mod_pos_bound; lia..].
  rewrite (Z.div_mod a 16), (Z.div_mod b 16) by lia. lia.
Qed.

(** X8.  [ATR.String] writes two lower-case hexadecimal digits per byte, so
    the text is twice as long as the ATR, and two ATRs with the same text are
    the same bytes. *)
Theorem ATR_String_faithful (atr1 atr2 : list Z) :
  Forall is_byte atr1 -> Forall is_byte atr2 ->
  String.length (ATR_String atr1) = (2 * length atr1)%nat /\
  (ATR_String atr1 = ATR_String atr2 -> atr1 = atr2).
Proof.
  intros H1 H2. split.
  - clear. induction atr1 as [|b atr IH]; [reflexivity|].
    rewrite ATR_String_cons, string_app_length, IH. cbn. lia.
  - revert atr2 H2. induction H1 as [|a atr1 Ha H1 IH]; intros atr2 H2 Heq.
    + destruct H2 as [|b atr2 Hb H2]; [reflexivity|].
      rewrite ATR_String_cons in Heq. discriminate Heq.
    + destruct H2 as [|b atr2 Hb H2].
      * rewrite ATR_String_cons in Heq. discriminate Heq.
      * rewrite !ATR_String_cons in Heq.
        unfold Sprintf_02x in Heq at 1 2.
        injection Heq as E1 E2 E3.
        assert (a = b) as ->.
        { apply Sprintf_02x_inj; [assumption..|]. unfold Sprintf_02x. congruence. }
        f_equal. now apply IH.
Qed.

Lemma ATR_String_faithful_witness :
  String.length (ATR_String [0x3b; 0xf8]) = (2 * length [0x3b; 0xf8])%nat /\
  (ATR_String [0x3b; 0xf8] = ATR_String [0x3b; 0xf8] -> [0x3b; 0xf8] = [0x3b; 0xf8]).
Proof.
  apply (ATR_String_faithful [0x3b; 0xf8] [0x3b; 0xf8]);
    repeat constructor; unfold is_byte; lia.
Defined.

End ScardMoreFacts.

(** ** scard/data_object.go: more on [doFindTLV] *)

Module TLVMoreFacts.
Import GoSlice GoSliceFacts TLV TLVParts TLVFacts.

(** X9.  The flat search: behind any primitive records with other tags, a
    primitive record with the tag searched for and a value that lies within
    the buffer; the search returns that value, at every nesting level, and
    whatever follows the record. *)
Theorem doFindTLV_flat_search_first_match
    (pre tf lf v rest extra : list Z) (tag nestLevel : Z)
    (Hpre : records_without tag pre)
    (Htag : tag_field tf tag false)
    (Hlen : length_field lf (Z.of_nat (length v)))
    (Hbytes : Forall is_byte (pre ++ tf ++ lf ++ v ++ rest ++ extra)) :
  doFindTLV (Slice (pre ++ tf ++ lf ++ v ++ rest ++ extra)
                   (Z.of_nat (length (pre ++ tf ++ lf ++ v ++ rest))))
            tag nestLevel
  = Return (Some v).
Proof.
  replace (Z.of_nat (length (pre ++ tf ++ lf ++ v ++ rest)))
    with (Z.of_nat (length pre) + Z.of_nat (length (tf ++ lf ++ v ++ rest)))
    by (rewrite !length_app; lia).
  rewrite (doFindTLV_skip_records tag nestLevel pre Hpre)
    by (first [exact Hbytes | rewrite !length_app; lia]).
  unfold doFindTLV. cbn [slen].
  rewrite (findLoop_primitive_match _ tf lf (v ++ rest ++ extra)
             tag (Z.of_nat (length v)) _ _ Htag Hlen)
    by (rewrite ?length_app; lia).
  replace (Z.of_nat (length v) <=? Z.of_nat (length (v ++ rest ++ extra)))
    with true by (rewrite length_app; lia).
  now rewrite Nat2Z.id, take_app_length.
Qed.

(** The name [5B 01 77] behind the language [5F 2D 01 64], in front of a
    second name and the status word. *)
Lemma doFindTLV_flat_search_first_match_witness :
  records_without 0x5B [0x5F; 0x2D; 0x01; 0x64] /\
  tag_field [0x5B] 0x5B false /\
  doFindTLV (Slice [0x5F; 0x2D; 0x01; 0x64; 0x5B; 0x01; 0x77; 0x5B; 0x01; 0x88;
                    0x90; 0x00] 10) 0x5B 0
  = Return (Some [0x77]).
Proof.
  assert (Ht : tag_field [0x5B] 0x5B false) by (now apply (tag_one 0x5B)).
  assert (Hpre : records_without 0x5B ([0x5F; 0x2D] ++ [0x01] ++ [0x64] ++ [])).
  { apply (records_cons 0x5B [0x5F; 0x2D] [0x01] [0x64] [] 0x5F2D);
      [exact (tag_two 0x5F 0x2D eq_refl eq_refl eq_refl) | discriminate
      | apply (length_short 1); lia | constructor]. }
  split; [exact Hpre|]. split; [exact Ht|].
  apply (doFindTLV_flat_search_first_match [0x5F; 0x2D; 0x01; 0x64] [0x5B] [0x01]
           [0x77] [0x5B; 0x01; 0x88] [0x90; 0x00] 0x5B 0 Hpre Ht).
  - apply (length_short 1); lia.
  - repeat constructor; unfold is_byte; lia.
Defined.

(** X10.  A tag that is absent: when the buffer is a sequence of complete
    primitive records with other tags, followed by at most one stray byte,
    the search returns nil and does not panic. *)
Theorem doFindTLV_absent_tag
    (pre tail extra : list Z) (tag nestLevel : Z)
    (Hpre : records_without tag pre)
    (Htail : (length tail < 2)%nat)
    (Hbytes : Forall is_byte (pre ++ tail ++ extra)) :
  doFindTLV (Slice (pre ++ tail ++ extra) (Z.of_nat (length (pre ++ tail))))
            tag nestLevel
  = Return None.
Proof.
  replace (Z.of_nat (length (pre ++ tail)))
    with (Z.of_nat (length pre) + Z.of_nat (length tail))
    by (rewrite !length_app; lia).
  rewrite (doFindTLV_skip_records tag nestLevel pre Hpre)
    by (first [exact Hbytes | rewrite ?length_app; lia]).
  unfold doFindTLV. cbn [slen]. rewrite findLoop_S.
  now replace (Z.of_nat (length tail) <? 2) with true by lia.
Qed.

Lemma doFindTLV_absent_tag_witness :
  records_without 0x5B [0x5F; 0x2D; 0x01; 0x64] /\
  doFindTLV (of_bytes [0x5F; 0x2D; 0x01; 0x64; 0x5B]) 0x5B 0 = Return None.
Proof.
  assert (Hpre : records_without 0x5B ([0x5F; 0x2D] ++ [0x01] ++ [0x64] ++ [])).
  { apply (records_cons 0x5B [0x5F; 0x2D] [0x01] [0x64] [] 0x5F2D);
      [exact (tag_two 0x5F 0x2D eq_refl eq_refl eq_refl) | discriminate
      | apply (length_short 1); lia | constructor]. }
  split; [exact Hpre|].
  apply (doFindTLV_absent_tag [0x5F; 0x2D; 0x01; 0x64] [0x5B] [] 0x5B 0 Hpre).
  - cbn. lia.
  - repeat constructor; unfold is_byte; lia.
Defined.

(** *** Encodings the search gives up on *)

Lemma header_length_unsupported (tf rest : list Z) (t l total : Z) (c : bool) :
  tag_field tf t c ->
  l = 0x80 \/ 0x83 <= l < 256 ->
  Z.of_nat (length tf) + 1 <= total ->
  header (Slice (tf ++ l :: rest) total) 0 total = Return None.
Proof.
  intros Ht Hl Htot.
  destruct Ht as [a Hf Hm | a b Hf Hm Hm2];
    cbn [app length] in *; unfold filler, more_tag_bytes in *;
    header_eval; reflexivity.
Qed.

Lemma header_three_byte_tag (a b : Z) (rest : list Z) (total : Z) :
  filler a = false -> more_tag_bytes a = true -> more_tag_bytes b = true ->
  2 <= total ->
  header (Slice (a :: b :: rest) total) 0 total = Return None.
Proof.
  intros Hf Ha Hb Htot. unfold filler, more_tag_bytes in *.
  unfold header, mbind, flow_bind.
  rewrite index_cons_0 by lia. cbn [bind checked]. rewrite Hf. cbn [bind].
  rewrite index_cons_0 by lia. cbn [bind checked]. rewrite Ha.
  destruct (total - 1 <? 2); [reflexivity|].
  rewrite index_cons_S, index_cons_0 by lia. cbn [bind checked].
  now rewrite Hb.
Qed.

(** X11.  Encodings the search does not read.  A first length byte [80]
    (indefinite length) or [83] and above (lengths of three bytes and more),
    and a tag field of three bytes and more (the second tag byte has its low
    five bits set, too): the search returns nil at once, whatever the tag
    searched for and whatever follows in the buffer. *)
Theorem doFindTLV_unsupported_encoding_is_nil :
  (forall (tf rest : list Z) (t l total tag nestLevel : Z) (c : bool),
      tag_field tf t c ->
      l = 0x80 \/ 0x83 <= l < 256 ->
      Z.of_nat (length tf) + 1 <= total ->
      doFindTLV (Slice (tf ++ l :: rest) total) tag nestLevel = Return None) /\
  (forall (a b : Z) (rest : list Z) (total tag nestLevel : Z),
      filler a = false -> more_tag_bytes a = true -> more_tag_bytes b = true ->
      doFindTLV (Slice (a :: b :: rest) total) tag nestLevel = Return None).
Proof.
  split.
  - intros tf rest t l total tag nestLevel c Ht Hl Htot.
    unfold doFindTLV. cbn [slen]. rewrite findLoop_S.
    destruct (total <? 2); [reflexivity|].
    now rewrite (header_length_unsupported tf rest t l total c Ht Hl Htot).
  - intros a b rest total tag nestLevel Hf Ha Hb.
    unfold doFindTLV. cbn [slen]. rewrite findLoop_S.
    destruct (total <? 2) eqn:Htot; [reflexivity|].
    now rewrite (header_three_byte_tag a b rest total Hf Ha Hb) by lia.
Qed.

(** [5B 80 77 00 00], [5B 83 00 00 01 77] and [5F 3F 2D 01 64]. *)
Lemma doFindTLV_unsupported_encoding_is_nil_witness :
  tag_field [0x5B] 0x5B false /\
  doFindTLV (of_bytes [0x5B; 0x80; 0x77; 0x00; 0x00]) 0x5B 0 = Return None /\
  doFindTLV (of_bytes [0x5B; 0x83; 0x00; 0x00; 0x01; 0x77]) 0x5B 0 = Return None /\
  doFindTLV (of_bytes [0x5F; 0x3F; 0x2D; 0x01; 0x64]) 0x2D 0 = Return None.
Proof.
  assert (Ht : tag_field [0x5B] 0x5B false) by (now apply (tag_one 0x5B)).
  destruct doFindTLV_unsupported_encoding_is_nil as [Hlen Htag].
  split; [exact Ht|]. split; [|split].
  - exact (Hlen [0x5B] [0x77; 0x00; 0x00] 0x5B 0x80 5 0x5B 0 false Ht
             ltac:(lia) ltac:(cbn; lia)).
  - exact (Hlen [0x5B] [0x00; 0x00; 0x01; 0x77] 0x5B 0x83 6 0x5B 0 false Ht
             ltac:(lia) ltac:(cbn; lia)).
  - exact (Htag 0x5F 0x3F [0x2D; 0x01; 0x64] 5 0x2D 0 eq_refl eq_refl eq_refl).
Defined.

(** *** The result lies in the buffer's array *)

Lemma header_Return (data : slice) (o n : Z) (r : option (list Z)) :
  header data o n = Return r -> r = None.
Proof.
  unfold header, mbind, flow_bind.
  repeat (cbn [bind checked];
          match goal with
          | |- context [checked (index ?d ?i)] => destruct (index d i)
          | |- context [if ?c then _ else _] => destruct c
          end); cbn [bind checked]; congruence.
Qed.

Lemma slice_range_Some (s r : slice) (lo hi : Z) :
  slice_range s lo hi = Some r ->
  bytes_of r = take (Z.to_nat (hi - lo)) (drop (Z.to_nat lo) (backing s)).
Proof.
  unfold slice_range.
  destruct ((0 <=? lo) && (lo <=? hi) && (hi <=? cap s)); [|discriminate].
  now intros [= <-].
Qed.

Lemma findLoop_result_segment (fuel : nat) :
  forall (data : slice) (tag nestLevel o n : Z) (v : list Z),
    findLoop fuel data tag nestLevel o n = Return (Some v) ->
    exists i L : nat, v = take L (drop i (backing data)).
Proof.
  induction fuel as [|fuel IH]; intros data tag nestLevel o n v; [discriminate|].
  rewrite findLoop_S. destruct (n <? 2); [discriminate|].
  destruct (header data o n) as [[[[[c t] L] o'] n']|r| |] eqn:Hh;
    unfold mbind, flow_bind; cbn [bind]; try discriminate.
  2:{ apply header_Return in Hh as ->. discriminate. }
  unfold record, mbind, flow_bind.
  assert (Hrest :
    (if t =? tag
     then bind (checked (slice_range data o' (o' + L)))
                (fun r => Return (Some (bytes_of r)))
     else if n' <? L then Return None
          else findLoop fuel data tag nestLevel (o' + L) (n' - L))
    = Return (Some v) ->
    exists i L : nat, v = take L (drop i (backing data))).
  { destruct (t =? tag).
    - destruct (slice_range data o' (o' + L)) as [r|] eqn:Hr;
        cbn [bind checked]; [|discriminate].
      intros [= <-]. rewrite (slice_range_Some _ _ _ _ Hr). eauto.
    - destruct (n' <? L); [discriminate|]. apply IH. }
  destruct (c && (nestLevel <? 100)); cbn [bind]; [|exact Hrest].
  destruct (slice_from data o') as [sub|] eqn:Hsub; cbn [bind checked];
    [|discriminate].
  apply slice_from_Some in Hsub as [Hlo ->]. cbn [slen].
  match goal with
  | |- context [call ?m] => destruct m as [[]|r| |] eqn:Hdive
  end; cbn [bind call]; try discriminate.
  destruct (0 <? len_ret r); cbn [bind]; [|exact Hrest].
  intros [= ->]. apply IH in Hdive as (i & L' & ->). cbn [backing].
  rewrite drop_drop. eauto.
Qed.

(** X12.  Whatever the buffer holds, a value the search returns is a
    contiguous part of the array behind the buffer: the bytes are never
    changed or made up. *)
Theorem doFindTLV_result_is_part_of_the_array
    (data : slice) (tag nestLevel : Z) (v : list Z)
    (Hfound : doFindTLV data tag nestLevel = Return (Some v)) :
  exists before after : list Z, backing data = before ++ v ++ after.
Proof.
  apply findLoop_result_segment in Hfound as (i & L & ->).
  exists (take i (backing data)), (drop L (drop i (backing data))).
  now rewrite take_drop, take_drop.
Qed.

Lemma doFindTLV_result_is_part_of_the_array_witness :
  exists before after : list Z,
    backing (of_bytes [0x65; 0x03; 0x5B; 0x01; 0x77]) = before ++ [0x77] ++ after.
Proof.
  apply (doFindTLV_result_is_part_of_the_array
           (of_bytes [0x65; 0x03; 0x5B; 0x01; 0x77]) 0x5B 0 [0x77]).
  reflexivity.
Defined.

End TLVMoreFacts.

(** ** hid: more of the frame engine *)

Module HidMoreFacts.
Import Hid HidSpec HidMore HidFacts.

Section Scripted.
Context {K : Type}.

Lemma report_status (r : list Z) :
  len r = FEATURE_RPT_SIZE -> r !! 7%nat = Some (nth 7 r 0).
Proof.
  unfold len, FEATURE_RPT_SIZE. intros H.
  do 8 (destruct r as [|? r]; [cbn in H; lia|]). reflexivity.
Qed.

Lemma script_receive (r : list Z) (incoming sent : list (list Z)) (k : K) :
  len r = FEATURE_RPT_SIZE ->
  receive script_Receive ((r :: incoming, sent), k) = (Ok r, ((incoming, sent), k)).
Proof.
  intros H. apply (receive_ok script_Receive ((r :: incoming, sent), k) r (incoming, sent));
    [reflexivity|]. unfold len, FEATURE_RPT_SIZE in H. lia.
Qed.

(** One poll. *)
Lemma awaitLoop_S (n : nat) (r : list Z) (incoming sent : list (list Z)) (k : K) :
  len r = FEATURE_RPT_SIZE ->
  awaitReadyToWrite_loop script_Receive (S n) ((r :: incoming, sent), k)
  = if Z.land (nth 7 r 0) SLOT_WRITE_FLAG =? 0
    then (Ok tt, ((incoming, sent), k))
    else awaitReadyToWrite_loop script_Receive n ((incoming, sent), k).
Proof.
  intros Hr. cbn [awaitReadyToWrite_loop]. unfold hbind at 1.
  rewrite (script_receive r incoming sent k Hr).
  unfold hbind at 1.
  rewrite (at_ok r FEATURE_RPT_DATA_SIZE (nth 7 r 0))
    by (first [discriminate | exact (report_status r Hr)]).
  now destruct (Z.land (nth 7 r 0) SLOT_WRITE_FLAG =? 0).
Qed.

Lemma ready_inv (r : list Z) :
  ready r = true ->
  len r = FEATURE_RPT_SIZE /\ (Z.land (nth 7 r 0) SLOT_WRITE_FLAG =? 0) = true.
Proof. unfold ready. rewrite andb_true_iff, Z.eqb_eq. tauto. Qed.

Lemma busy_inv (r : list Z) :
  busy r = true ->
  len r = FEATURE_RPT_SIZE /\ (Z.land (nth 7 r 0) SLOT_WRITE_FLAG =? 0) = false.
Proof.
  unfold busy. rewrite andb_true_iff, Z.eqb_eq, negb_true_iff. tauto.
Qed.

Lemma awaitLoop_ready (bs : list (list Z)) :
  Forall (fun r => busy r = true) bs ->
  forall (n : nat) (r : list Z) (rest sent : list (list Z)) (k : K),
    (length bs < n)%nat -> ready r = true ->
    awaitReadyToWrite_loop script_Receive n ((bs ++ r :: rest, sent), k) = (Ok tt, ((rest, sent), k)).
Proof.
  induction 1 as [|b bs Hb _ IH]; intros n r rest sent k Hn Hr;
    (destruct n as [|n]; [cbn in Hn; lia|]).
  - apply ready_inv in Hr as [Hlen Hflag].
    cbn [app]. now rewrite awaitLoop_S, Hflag.
  - apply busy_inv in Hb as [Hlen Hflag].
    cbn [app]. rewrite awaitLoop_S, Hflag by exact Hlen.
    apply IH; [cbn in Hn; lia | exact Hr].
Qed.

Lemma awaitLoop_busy (bs : list (list Z)) :
  Forall (fun r => busy r = true) bs ->
  forall (rest sent : list (list Z)) (k : K),
    awaitReadyToWrite_loop script_Receive (length bs) ((bs ++ rest, sent), k)
    = (Fail ErrReadyTimeout, ((rest, sent), k)).
Proof.
  induction 1 as [|b bs Hb _ IH]; intros rest sent k; [reflexivity|].
  apply busy_inv in Hb as [Hlen Hflag].
  cbn [app length]. rewrite awaitLoop_S, Hflag by exact Hlen. apply IH.
Qed.

(** X14.  [awaitReadyToWrite] polls the device at most twenty times.  When
    fewer than twenty busy reports come before a ready one, it succeeds and
    has read up to and including the ready report; when the first twenty
    reports are busy, it fails with the timeout after exactly twenty reads.
    It sends nothing. *)
Theorem awaitReadyToWrite_polls_twenty_times
    (bs : list (list Z)) (Hbusy : Forall (fun r => busy r = true) bs) :
  (forall (r : list Z) (rest sent : list (list Z)) (k : K),
      (length bs < 20)%nat -> ready r = true ->
      awaitReadyToWrite script_Receive ((bs ++ r :: rest, sent), k) = (Ok tt, ((rest, sent), k))) /\
  (forall (rest sent : list (list Z)) (k : K),
      length bs = 20%nat ->
      awaitReadyToWrite script_Receive ((bs ++ rest, sent), k) = (Fail ErrReadyTimeout, ((rest, sent), k))).
Proof.
  split.
  - intros r rest sent k Hn Hr. now apply awaitLoop_ready.
  - intros rest sent k Hn. unfold awaitReadyToWrite. rewrite <- Hn.
    now apply awaitLoop_busy.
Qed.

(** *** [sendFrame] *)

Lemma shouldSend_false (chunk : list Z) (seq : Z) :
  shouldSend chunk seq = false -> chunk = replicate (length chunk) 0.
Proof.
  unfold shouldSend. destruct ((seq =? 0) || (seq =? 9)); [discriminate|].
  induction chunk as [|b chunk IH]; [reflexivity|].
  cbn [existsb length replicate]. rewrite orb_false_iff, negb_false_iff, Z.eqb_eq.
  intros [-> H]. f_equal. now apply IH.
Qed.

Lemma status_sequence (n : nat) :
  (n < 32)%nat ->
  Z.land (byte (Z.lor 0x80 (Z.of_nat n))) SEQUENCE_MASK = Z.of_nat n.
Proof.
  intros H. do 32 (destruct n as [|n]; [reflexivity|]). lia.
Qed.

(** A run of the loop of [sendFrame] on a buffer that begins with a full
    chunk. *)
Lemma sendFrame_loop_chunk {Chan : Type}
    (cr : Chan -> (list Z + error) * Chan) (cs : list Z -> Chan -> option error * Chan)
    (fuel : nat) (c buf : list Z) (seq : Z) (s : Chan * K) :
  length c = 7%nat ->
  sendFrame_loop cr cs (S fuel) (c ++ buf) seq s
  = hbind (if shouldSend c seq then
             hbind (awaitReadyToWrite cr)
               (fun _ => hbind (Send cs (c ++ [byte (Z.lor 0x80 seq)]))
                  (fun err => match err with Some e => fail e | None => ret tt end))
           else ret tt)
          (fun _ => sendFrame_loop cr cs fuel buf (seq + 1)) s.
Proof.
  intros Hc. cbn [sendFrame_loop]. unfold len. rewrite length_app, Hc.
  replace (0 <? Z.of_nat (7 + length buf)) with true by lia.
  change FEATURE_RPT_DATA_SIZE with 7.
  replace (Z.of_nat (7 + length buf) <? 7) with false by lia.
  change (Z.to_nat 7) with 7%nat. change (Z.to_nat (7 - 7)) with 0%nat.
  rewrite take_app_length', drop_app_length' by (symmetry; exact Hc).
  cbn [replicate]. now rewrite app_nil_r.
Qed.

Lemma place_sent_chunk (acc c : list Z) (sn : nat) :
  length c = 7%nat -> (sn < 32)%nat ->
  place_report acc (c ++ [byte (Z.lor 0x80 (Z.of_nat sn))])
  = take (7 * sn) acc ++ c ++ drop (7 * sn + 7) acc.
Proof.
  intros Hc Hs. unfold place_report.
  rewrite app_nth2, Hc by lia. cbn [Nat.sub nth].
  rewrite status_sequence, Nat2Z.id by exact Hs.
  now rewrite take_app_length' by (symmetry; exact Hc).
Qed.

Lemma drop_zeros (acc : list Z) (a m : nat) :
  drop a acc = replicate (7 * S m) 0 ->
  drop (a + 7) acc = replicate (7 * m) 0.
Proof.
  intros H. rewrite <- drop_drop, H, drop_replicate. f_equal. lia.
Qed.

(** The loop of [sendFrame] on a buffer of [m] full chunks, with a device
    that answers every poll at once: the reports it sends put the buffer
    back together. *)
Lemma sendFrame_loop_lossless (m : nat) :
  forall (buf : list Z) (sn : nat) (incoming sent : list (list Z)) (k : K)
         (fuel : nat),
    length buf = (7 * m)%nat -> (sn + m <= 32)%nat ->
    Forall (fun r => ready r = true) incoming ->
    (m <= length incoming)%nat -> (m <= fuel)%nat ->
    exists pk rest,
      sendFrame_loop script_Receive script_Send fuel buf (Z.of_nat sn)
        ((incoming, sent), k)
      = (Ok tt, ((rest, sent ++ pk), k)) /\
      Forall (fun r => length r = 8%nat) pk /\
      rest = drop (length pk) incoming /\
      forall acc,
        length acc = (7 * (sn + m))%nat ->
        drop (7 * sn) acc = replicate (7 * m) 0 ->
        fold_left place_report pk acc = take (7 * sn) acc ++ buf.
Proof.
  induction m as [|m IH]; intros buf sn incoming sent k fuel Hlen Hsn Hin Hm Hfuel.
  - destruct buf; [|cbn in Hlen; lia]. exists [], incoming. split; [|split; [|split]].
    + destruct fuel; cbn; now rewrite app_nil_r.
    + constructor.
    + reflexivity.
    + intros acc Hacc _. cbn [fold_left]. rewrite app_nil_r, take_ge; [reflexivity | lia].
  - destruct fuel as [|fuel]; [lia|].
    destruct incoming as [|r incoming]; [cbn in Hm; lia|].
    rewrite <- (take_drop 7 buf).
    assert (Hc : length (take 7 buf) = 7%nat) by (rewrite length_take; lia).
    assert (Hb' : length (drop 7 buf) = (7 * m)%nat) by (rewrite length_drop; lia).
    set (c := take 7 buf) in *. set (buf' := drop 7 buf) in *.
    destruct (shouldSend c (Z.of_nat sn)) eqn:Hs.
    + apply Forall_cons in Hin as [Hr Hin].
      set (report := c ++ [byte (Z.lor 0x80 (Z.of_nat sn))]).
      assert (Hstep :
        sendFrame_loop script_Receive script_Send (S fuel) (c ++ buf') (Z.of_nat sn)
          ((r :: incoming, sent), k)
        = sendFrame_loop script_Receive script_Send fuel buf' (Z.of_nat (S sn))
            ((incoming, sent ++ [report]), k)).
      { rewrite sendFrame_loop_chunk, Hs by exact Hc.
        pose proof (awaitLoop_ready [] (List.Forall_nil _) 20 r incoming sent k
                      ltac:(cbn; lia) Hr) as Ha.
        cbn [app] in Ha. unfold hbind, awaitReadyToWrite. rewrite Ha.
        unfold Send, script_Send, ret. cbn [fst snd].
        now replace (Z.of_nat sn + 1) with (Z.of_nat (S sn)) by lia. }
      destruct (IH buf' (S sn) incoming (sent ++ [report]) k fuel)
        as (pk & rest & Hrun & Hpk & Hrest & Hacc);
        [exact Hb' | lia | exact Hin | cbn in Hm; lia | lia |].
      exists (report :: pk), rest. split; [|split; [|split]].
      * rewrite Hstep, Hrun. now rewrite <- app_assoc.
      * constructor; [|exact Hpk]. subst report. rewrite length_app, Hc. reflexivity.
      * exact Hrest.
      * intros acc Hl Hd. cbn [fold_left]. subst report.
        rewrite place_sent_chunk by (first [exact Hc | lia]).
        rewrite Hacc.
        -- rewrite (app_assoc (take (7 * sn) acc) c).
           rewrite take_app_length' by (rewrite length_app, length_take, Hc; lia).
           now rewrite <- app_assoc.
        -- rewrite !length_app, length_take, length_drop, Hc. lia.
        -- rewrite (app_assoc (take (7 * sn) acc) c).
           rewrite drop_app_length' by (rewrite length_app, length_take, Hc; lia).
           now apply drop_zeros.
    + assert (Hstep :
        sendFrame_loop script_Receive script_Send (S fuel) (c ++ buf') (Z.of_nat sn)
          ((r :: incoming, sent), k)
        = sendFrame_loop script_Receive script_Send fuel buf' (Z.of_nat (S sn))
            ((r :: incoming, sent), k)).
      { rewrite sendFrame_loop_chunk, Hs by exact Hc. unfold hbind, ret.
        now replace (Z.of_nat sn + 1) with (Z.of_nat (S sn)) by lia. }
      apply shouldSend_false in Hs. rewrite Hc in Hs.
      destruct (IH buf' (S sn) (r :: incoming) sent k fuel)
        as (pk & rest & Hrun & Hpk & Hrest & Hacc);
        [exact Hb' | lia | exact Hin | cbn in Hm |- *; lia | lia |].
      exists pk, rest.
      split; [now rewrite Hstep | split; [exact Hpk | split; [exact Hrest|]]].
      intros acc Hl Hd. rewrite Hacc; [|lia|].
      * replace (7 * S sn)%nat with (7 * sn + 7)%nat by lia.
        rewrite <- take_take_drop, Hd, take_replicate, <- app_assoc, Hs.
        do 2 f_equal. f_equal. lia.
      * replace (7 * S sn)%nat with (7 * sn + 7)%nat by lia.
        now apply drop_zeros.
Qed.

Lemma report_prog_seq (r : list Z) :
  len r = FEATURE_RPT_SIZE -> r !! 4%nat = Some (nth 4 r 0).
Proof.
  unfold len, FEATURE_RPT_SIZE. intros H.
  do 5 (destruct r as [|? r]; [cbn in H; lia|]). reflexivity.
Qed.

(** X13.  [sendFrame] loses nothing by leaving out the chunks of zeros.
    The frame is [m] chunks of seven bytes (ten for the 70-byte frame of
    [SendAndReceive]); the device answers the status read and then every
    readiness poll at once.  Then [sendFrame] returns the programming
    sequence of the status read, every report it sends is eight bytes long,
    it has read one report for each report sent, and the reports, each put
    at the place its sequence number names in an array of zeros, give the
    frame back. *)
Theorem sendFrame_is_lossless
    (frame r0 : list Z) (incoming sent : list (list Z)) (k : K) (m : nat)
    (Hframe : length frame = (7 * m)%nat)
    (Hm : (m <= 32)%nat)
    (Hstatus : len r0 = FEATURE_RPT_SIZE)
    (Hready : Forall (fun r => ready r = true) incoming)
    (Henough : (m <= length incoming)%nat) :
  exists pk rest,
    sendFrame script_Receive script_Send frame ((r0 :: incoming, sent), k)
    = (Ok (nth 4 r0 0), ((rest, sent ++ pk), k)) /\
    Forall (fun r => length r = 8%nat) pk /\
    rest = drop (length pk) incoming /\
    rebuild (7 * m) pk = frame.
Proof.
  destruct (sendFrame_loop_lossless m frame 0 incoming sent k (length frame))
    as (pk & rest & Hrun & Hpk & Hrest & Hacc);
    [exact Hframe | lia | exact Hready | exact Henough | lia |].
  exists pk, rest. split; [|split; [exact Hpk | split; [exact Hrest|]]].
  - unfold sendFrame. unfold hbind at 1.
    rewrite (script_receive r0 incoming sent k Hstatus).
    unfold hbind at 1.
    rewrite (at_ok r0 STATUS_OFFSET_PROG_SEQ (nth 4 r0 0))
      by (first [discriminate | exact (report_prog_seq r0 Hstatus)]).
    unfold hbind at 1. change (Z.of_nat 0) with 0 in Hrun. now rewrite Hrun.
  - unfold rebuild. rewrite Hacc; [reflexivity | |].
    + rewrite length_replicate. lia.
    + reflexivity.
Qed.

(** *** [readFrame] *)

(** A run of the loop of [readFrame] on the next report of the script. *)
Lemma readFrame_loop_S
    (fuel : nat) (ctx : nat -> bool) (progSeq : Z) (onKeepalive : Z -> K -> K)
    (response : option (list Z)) (seq : Z) (needsTouch : bool) (waits : nat)
    (r : list Z) (incoming sent : list (list Z)) (k : K) :
  len r = FEATURE_RPT_SIZE ->
  readFrame_loop script_Receive script_Send (S fuel) ctx progSeq onKeepalive
    response seq needsTouch waits ((r :: incoming, sent), k)
  = let status := nth 7 r 0 in
    if negb (Z.land status RESP_PENDING_FLAG =? 0) then
      if seq =? Z.land status SEQUENCE_MASK then
        readFrame_loop script_Receive script_Send fuel ctx progSeq onKeepalive
          (Some (default [] response ++ take 7 r)) (seq + 1) needsTouch waits
          ((incoming, sent), k)
      else if Z.land status SEQUENCE_MASK =? 0 then
        (Ok response, ((incoming, sent ++ [reset_report]), k))
      else
        readFrame_loop script_Receive script_Send fuel ctx progSeq onKeepalive
          response seq needsTouch waits ((incoming, sent), k)
    else if status =? 0 then
      if 0 <? len (default [] response)
      then (Fail ErrIncompleteTransfer, ((incoming, sent), k))
      else
        match isSequenceUpdated r progSeq with
        | None => (Crash, ((incoming, sent), k))
        | Some true => (Ok (Some (take 6 (drop 1 r))), ((incoming, sent), k))
        | Some false =>
          if needsTouch
          then (Fail (TimeoutError "timed out waiting for touch"), ((incoming, sent), k))
          else (Fail (CommandRejectedError "no data"), ((incoming, sent), k))
        end
    else
      let k' := onKeepalive (keepalive_code r) k in
      if ctx waits
      then (Fail (TimeoutError "command cancelled"),
            ((incoming, sent ++ [reset_report]), k'))
      else
        readFrame_loop script_Receive script_Send fuel ctx progSeq onKeepalive
          response seq (if wants_touch r then true else needsTouch) (S waits)
          ((incoming, sent), k').
Proof.
  intros Hr. cbn [readFrame_loop]. unfold hbind at 1.
  rewrite (script_receive r incoming sent k Hr).
  unfold hbind at 1.
  rewrite (at_ok r FEATURE_RPT_DATA_SIZE (nth 7 r 0))
    by (first [discriminate | exact (report_status r Hr)]).
  cbv zeta. unfold keepalive_code, wants_touch.
  destruct (Z.land (nth 7 r 0) RESP_PENDING_FLAG =? 0); cbn [negb].
  - destruct (nth 7 r 0 =? 0).
    + destruct (0 <? len (default [] response)); [reflexivity|].
      destruct (isSequenceUpdated r progSeq) as [[]|]; try reflexivity.
      now destruct needsTouch.
    + unfold hbind at 1, keepalive. cbn [fst snd].
      destruct (Z.land (nth 7 r 0) RESP_TIMEOUT_WAIT_FLAG =? 0); cbn [negb];
        destruct (ctx waits); reflexivity.
  - destruct (seq =? Z.land (nth 7 r 0) SEQUENCE_MASK); [reflexivity|].
    destruct (Z.land (nth 7 r 0) SEQUENCE_MASK =? 0); reflexivity.
Qed.

(** The response packets of a stream are taken in, one run of the loop
    each; the sequence number expected next does not go down. *)
Lemma readFrame_loop_stream (seq : Z) (rs : list (list Z)) (p : list Z) :
  response_stream seq rs p ->
  0 < seq ->
  exists seq', seq <= seq' /\
    forall (fuel : nat) (ctx : nat -> bool) (progSeq : Z) (onKeepalive : Z -> K -> K)
           (acc : list Z) (needsTouch : bool) (waits : nat)
           (tail sent : list (list Z)) (k : K),
      readFrame_loop script_Receive script_Send (length rs + fuel) ctx progSeq
        onKeepalive (Some acc) seq needsTouch waits ((rs ++ tail, sent), k)
      = readFrame_loop script_Receive script_Send fuel ctx progSeq
          onKeepalive (Some (acc ++ p)) seq' needsTouch waits ((tail, sent), k).
Proof.
  induction 1 as [seq | seq r rs p (Hlen & Hpend & Hseq) _ IH
                 | seq seq' r rs p (Hlen & Hpend & Hseq) Hne Hne0 _ IH];
    intros Hpos.
  - exists seq. split; [lia|]. intros. cbn [length app Nat.add].
    now rewrite app_nil_r.
  - destruct IH as (seq' & Hle & IH); [lia|].
    exists seq'. split; [lia|]. intros.
    cbn [length app Nat.add]. rewrite readFrame_loop_S by exact Hlen. cbv zeta.
    apply Z.eqb_neq in Hpend. rewrite Hpend, Hseq, Z.eqb_refl. cbn [negb default].
    rewrite IH. now rewrite <- app_assoc.
  - destruct IH as (seq'' & Hle & IH); [lia|].
    exists seq''. split; [lia|]. intros.
    cbn [length app Nat.add]. rewrite readFrame_loop_S by exact Hlen. cbv zeta.
    apply Z.eqb_neq in Hpend. rewrite Hpend, Hseq. cbn [negb].
    replace (seq =? seq') with false by lia.
    replace (seq' =? 0) with false by lia.
    apply IH.
Qed.

(** X15.  [readFrame] puts the response together.  The device delivers
    the packet with sequence number 0, then a stream of packets from
    sequence number 1 on (packets out of turn in between are dropped).  When
    a packet with sequence number 0 comes next, the call sends the reset
    report and returns the data bytes of the packets in their order, seven
    from each.  When a status report comes next, the call fails with
    "incomplete transfer" and sends nothing. *)
Theorem readFrame_reassembles_response
    (r0 last : list Z) (rs rest sent : list (list Z)) (p : list Z) (k : K)
    (ctx : nat -> bool) (progSeq : Z) (onKeepalive : Z -> K -> K) (fuel : nat)
    (Hfirst : response_packet r0 0)
    (Hstream : response_stream 1 rs p)
    (Hfuel : (length rs + 2 <= fuel)%nat) :
  (response_packet last 0 ->
   readFrame script_Receive script_Send fuel ctx progSeq onKeepalive
     ((r0 :: rs ++ last :: rest, sent), k)
   = (Ok (Some (take 7 r0 ++ p)), ((rest, sent ++ [reset_report]), k))) /\
  (status_report last = true ->
   readFrame script_Receive script_Send fuel ctx progSeq onKeepalive
     ((r0 :: rs ++ last :: rest, sent), k)
   = (Fail ErrIncompleteTransfer, ((rest, sent), k))).
Proof.
  destruct Hfirst as (Hlen0 & Hpend0 & Hseq0).
  destruct (readFrame_loop_stream 1 rs p Hstream ltac:(lia)) as (seq' & Hle & Hrun).
  assert (Hstart : forall f,
    readFrame script_Receive script_Send (S (length rs + S f)) ctx progSeq onKeepalive
      ((r0 :: rs ++ last :: rest, sent), k)
    = readFrame_loop script_Receive script_Send (S f) ctx progSeq onKeepalive
        (Some (take 7 r0 ++ p)) seq' false 0%nat ((last :: rest, sent), k)).
  { intros f. unfold readFrame. rewrite readFrame_loop_S by exact Hlen0. cbv zeta.
    apply Z.eqb_neq in Hpend0. rewrite Hpend0, Hseq0. cbn [negb Z.eqb default app].
    change (0 + 1) with 1. apply Hrun. }
  replace fuel with (S (length rs + S (fuel - length rs - 2))) by lia.
  rewrite Hstart. split.
  - intros (Hlen & Hpend & Hseq).
    rewrite readFrame_loop_S by exact Hlen. cbv zeta.
    apply Z.eqb_neq in Hpend. rewrite Hpend, Hseq. cbn [negb].
    replace (seq' =? 0) with false by lia. reflexivity.
  - unfold status_report. rewrite andb_true_iff, !Z.eqb_eq. intros [Hlen Hst].
    rewrite readFrame_loop_S by exact Hlen. cbv zeta. rewrite Hst.
    change (Z.land 0 RESP_PENDING_FLAG =? 0) with true.
    change (0 =? 0) with true. cbn [negb default]. unfold id.
    unfold len. rewrite length_app, length_take.
    unfold len, FEATURE_RPT_SIZE in Hlen0.
    now replace (0 <? Z.of_nat (7 `min` length r0 + length p)) with true by lia.
Qed.

(** While the device makes [readFrame] wait and the context is not done,
    every report is answered with a keepalive call. *)
Lemma readFrame_loop_waiting (ws : list (list Z)) :
  Forall (fun w => waiting_report w = true) ws ->
  forall (fuel : nat) (ctx : nat -> bool) (progSeq : Z) (onKeepalive : Z -> K -> K)
         (response : option (list Z)) (seq : Z) (needsTouch : bool) (waits : nat)
         (tail sent : list (list Z)) (k : K),
    (forall i, (i < length ws)%nat -> ctx (waits + i)%nat = false) ->
    readFrame_loop script_Receive script_Send (length ws + fuel) ctx progSeq
      onKeepalive response seq needsTouch waits ((ws ++ tail, sent), k)
    = readFrame_loop script_Receive script_Send fuel ctx progSeq
        onKeepalive response seq (needsTouch || existsb wants_touch ws)
        (waits + length ws)
        ((tail, sent), fold_left (fun k w => onKeepalive (keepalive_code w) k) ws k).
Proof.
  induction 1 as [|w ws Hw _ IH]; intros fuel ctx progSeq onKeepalive response seq
    needsTouch waits tail sent k Hctx.
  - cbn [length app Nat.add existsb fold_left].
    now rewrite orb_false_r, Nat.add_0_r.
  - unfold waiting_report in Hw.
    rewrite !andb_true_iff, Z.eqb_eq, negb_true_iff in Hw.
    destruct Hw as [[Hlen Hpend] Hst].
    cbn [length app Nat.add existsb fold_left].
    rewrite readFrame_loop_S by exact Hlen. cbv zeta.
    rewrite Hpend, Hst. cbn [negb].
    pose proof (Hctx 0%nat ltac:(cbn; lia)) as H0. rewrite Nat.add_0_r in H0.
    rewrite H0, IH.
    + replace (S waits + length ws)%nat with (waits + S (length ws))%nat by lia.
      now destruct (wants_touch w), needsTouch.
    + intros i Hi. rewrite <- (Hctx (S i)) by (cbn; lia). f_equal. lia.
Qed.

(** X16.  The answer to a command that returns no data.  The device makes
    the call wait for a while (the context is not done in that time) and
    then delivers a status report.  The keepalive callback has been called
    once for every waiting report, in order, with [STATUS_UPNEEDED] when the
    report asks for a touch and [STATUS_PROCESSING] otherwise; nothing is
    sent.  When the programming sequence of the status report is updated,
    the call returns its bytes 1 to 6; when not, the error is the touch
    timeout if one of the waiting reports asked for a touch, and "command
    rejected" otherwise. *)
Theorem readFrame_status_answer
    (ws : list (list Z)) (z : list Z) (rest sent : list (list Z)) (k : K)
    (ctx : nat -> bool) (progSeq : Z) (onKeepalive : Z -> K -> K) (fuel : nat)
    (Hwait : Forall (fun w => waiting_report w = true) ws)
    (Hctx : forall i, (i < length ws)%nat -> ctx i = false)
    (Hstatus : status_report z = true)
    (Hfuel : (length ws < fuel)%nat) :
  exists updated,
    isSequenceUpdated z progSeq = Some updated /\
    readFrame script_Receive script_Send fuel ctx progSeq onKeepalive
      ((ws ++ z :: rest, sent), k)
    = (if updated then Ok (Some (take 6 (drop 1 z)))
       else if existsb wants_touch ws
            then Fail (TimeoutError "timed out waiting for touch")
            else Fail (CommandRejectedError "no data"),
       ((rest, sent), fold_left (fun k w => onKeepalive (keepalive_code w) k) ws k)).
Proof.
  unfold status_report in Hstatus.
  rewrite andb_true_iff, !Z.eqb_eq in Hstatus. destruct Hstatus as [Hlen Hst].
  assert (Hlen8 : length z = 8%nat) by (unfold len, FEATURE_RPT_SIZE in Hlen; lia).
  eexists. split; [exact (isSequenceUpdated_eval z progSeq Hlen8)|].
  unfold readFrame.
  replace fuel with (length ws + S (fuel - length ws - 1))%nat by lia.
  rewrite readFrame_loop_waiting by (first [exact Hwait | exact Hctx]).
  rewrite readFrame_loop_S by exact Hlen. cbv zeta. rewrite Hst.
  change (Z.land 0 RESP_PENDING_FLAG =? 0) with true.
  change (0 =? 0) with true. cbn [negb default orb].
  change (0 <? len []) with false. cbv iota.
  rewrite (isSequenceUpdated_eval z progSeq Hlen8).
  now destruct (_ || _), (existsb wants_touch ws).
Qed.

(** X17.  Cancellation.  The device makes the call wait, and the context
    is done when the call waits for the [c]-th time (counting from 0): the
    call sends the reset report and fails with "command cancelled".  The
    keepalive callback has been called for the first [c + 1] waiting
    reports, the one at which the cancellation is noticed included, and no
    report after that one is read. *)
Theorem readFrame_cancelled
    (ws : list (list Z)) (w : list Z) (rest sent : list (list Z)) (k : K)
    (ctx : nat -> bool) (progSeq : Z) (onKeepalive : Z -> K -> K) (fuel : nat)
    (Hwait : Forall (fun w => waiting_report w = true) (ws ++ [w]))
    (Hctx : forall i, (i < length ws)%nat -> ctx i = false)
    (Hdone : ctx (length ws) = true)
    (Hfuel : (length ws < fuel)%nat) :
  readFrame script_Receive script_Send fuel ctx progSeq onKeepalive
    ((ws ++ w :: rest, sent), k)
  = (Fail (TimeoutError "command cancelled"),
     ((rest, sent ++ [reset_report]),
      fold_left (fun k w => onKeepalive (keepalive_code w) k) (ws ++ [w]) k)).
Proof.
  apply Forall_app in Hwait as [Hws Hw]. apply Forall_cons in Hw as [Hw _].
  unfold waiting_report in Hw.
  rewrite !andb_true_iff, Z.eqb_eq, negb_true_iff in Hw.
  destruct Hw as [[Hlen Hpend] Hst].
  unfold readFrame.
  replace fuel with (length ws + S (fuel - length ws - 1))%nat by lia.
  rewrite readFrame_loop_waiting by (first [exact Hws | exact Hctx]).
  rewrite readFrame_loop_S by exact Hlen. cbv zeta.
  rewrite Hpend, Hst. cbn [negb Nat.add]. rewrite Hdone.
  now rewrite fold_left_app.
Qed.

(** *** [SendAndReceive], from the frame to the response *)

Lemma sendFrame_loop_packets (m : nat) :
  forall (buf : list Z) (seq : Z) (polls tail sent : list (list Z)) (k : K)
         (fuel : nat),
    length buf = (7 * m)%nat ->
    Forall (fun r => ready r = true) polls ->
    length polls = length (packets m buf seq) -> (m <= fuel)%nat ->
    sendFrame_loop script_Receive script_Send fuel buf seq ((polls ++ tail, sent), k)
    = (Ok tt, ((tail, sent ++ packets m buf seq), k)).
Proof.
  induction m as [|m IH]; intros buf seq polls tail sent k fuel Hlen Hin Hm Hfuel.
  - destruct buf; [|cbn in Hlen; lia]. destruct polls; [|discriminate Hm].
    destruct fuel; cbn; now rewrite app_nil_r.
  - destruct fuel as [|fuel]; [lia|].
    assert (Hc : length (take 7 buf) = 7%nat) by (rewrite length_take; lia).
    assert (Hb' : length (drop 7 buf) = (7 * m)%nat) by (rewrite length_drop; lia).
    rewrite <- (take_drop 7 buf) at 1.
    rewrite sendFrame_loop_chunk by exact Hc.
    cbn [packets] in Hm |- *.
    destruct (shouldSend (take 7 buf) seq) eqn:Hs.
    + destruct polls as [|r polls]; [discriminate Hm|].
      apply Forall_cons in Hin as [Hr Hin].
      pose proof (awaitLoop_ready [] (List.Forall_nil _) 20 r (polls ++ tail) sent k
                    ltac:(cbn; lia) Hr) as Ha.
      cbn [app] in Ha |- *. unfold hbind, awaitReadyToWrite. rewrite Ha.
      unfold Send, script_Send, ret. cbn [fst snd].
      rewrite IH; [|exact Hb' | exact Hin | cbn in Hm; lia | lia].
      now rewrite <- app_assoc.
    + unfold hbind, ret. rewrite IH; [|exact Hb' | exact Hin | exact Hm | lia].
      reflexivity.
Qed.

End Scripted.

(** The reports of [packets] give the buffer back. *)
Lemma rebuild_packets (m : nat) (buf : list Z) :
  length buf = (7 * m)%nat -> (m <= 32)%nat ->
  rebuild (7 * m) (packets m buf 0) = buf /\
  Forall (fun r => length r = 8%nat) (packets m buf 0).
Proof.
  intros Hlen Hm.
  set (idle := replicate 8 0).
  set (polls := replicate (length (packets m buf 0)) idle).
  assert (Hpolls : Forall (fun r => ready r = true) polls)
    by (apply Forall_replicate; reflexivity).
  assert (Hidle : Forall (fun r => ready r = true) (polls ++ replicate m idle)).
  { apply Forall_app. split; [exact Hpolls|]. apply Forall_replicate. reflexivity. }
  destruct (sendFrame_loop_lossless (K := unit) m buf 0 (polls ++ replicate m idle)
              [] tt m)
    as (pk & rest & Hrun & Hpk & _ & Hacc);
    [exact Hlen | lia | exact Hidle | rewrite length_app, !length_replicate; lia | lia |].
  change (Z.of_nat 0) with 0 in Hrun.
  rewrite (sendFrame_loop_packets (K := unit) m buf 0 polls (replicate m idle) [] tt m)
    in Hrun;
    [|exact Hlen | exact Hpolls | subst polls; now rewrite length_replicate | lia].
  injection Hrun as _ Hsame. cbn [app] in Hsame. subst pk.
  split; [|exact Hpk].
  unfold rebuild. rewrite Hacc; [reflexivity | rewrite length_replicate; lia | reflexivity].
Qed.

Lemma awaitReadyToWrite_polls_twenty_times_witness :
  let b := [0; 0; 0; 0; 0; 0; 0; 0x80] in
  let r := [0; 0; 0; 0; 0; 0; 0; 0x00] in
  Forall (fun r => busy r = true) (replicate 20 b) /\
  awaitReadyToWrite script_Receive ((replicate 20 b ++ [r], []), tt)
  = (Fail ErrReadyTimeout, (([r], []), tt)).
Proof.
  intros b r.
  assert (Hb : Forall (fun r => busy r = true) (replicate 20 b))
    by (repeat constructor).
  split; [exact Hb|].
  exact (proj2 (awaitReadyToWrite_polls_twenty_times (replicate 20 b) Hb)
           [r] [] tt eq_refl).
Defined.

(** A frame of two chunks, the second one of zeros save the last byte. *)
Lemma sendFrame_is_lossless_witness :
  let idle := [0; 0; 0; 0; 0; 0; 0; 0] in
  let frame := [1; 2; 3; 4; 5; 6; 7; 0; 0; 0; 0; 0; 0; 9] in
  exists pk rest,
    sendFrame script_Receive script_Send frame
      (([[3; 4; 5; 0; 7; 0; 0; 0]; idle; idle], []), tt)
    = (Ok 7, ((rest, [] ++ pk), tt)) /\
    Forall (fun r => length r = 8%nat) pk /\
    rest = drop (length pk) [idle; idle] /\
    rebuild (7 * 2) pk = frame.
Proof.
  intros idle frame.
  apply (sendFrame_is_lossless frame [3; 4; 5; 0; 7; 0; 0; 0] [idle; idle] [] tt 2).
  - reflexivity.
  - lia.
  - reflexivity.
  - repeat constructor.
  - cbn. lia.
Defined.

(** Two packets and the closing packet with sequence number 0. *)
Lemma readFrame_reassembles_response_witness :
  let r0 := [1; 2; 3; 4; 5; 6; 7; 0x40] in
  let r1 := [8; 9; 10; 11; 12; 13; 14; 0x41] in
  let last := [0; 0; 0; 0; 0; 0; 0; 0x40] in
  response_packet r0 0 /\ response_stream 1 [r1] (take 7 r1 ++ []) /\
  response_packet last 0 /\
  readFrame script_Receive script_Send 3 (fun _ => false) 0 (fun _ k => k)
    ((r0 :: [r1] ++ last :: [], []), tt)
  = (Ok (Some (take 7 r0 ++ take 7 r1 ++ [])), (([], [] ++ [reset_report]), tt)).
Proof.
  intros r0 r1 last.
  assert (H0 : response_packet r0 0) by (repeat split; discriminate).
  assert (H1 : response_stream 1 [r1] (take 7 r1 ++ [])).
  { apply stream_next; [repeat split; discriminate | apply stream_end]. }
  assert (Hl : response_packet last 0) by (repeat split; discriminate).
  split; [exact H0|]. split; [exact H1|]. split; [exact Hl|].
  exact (proj1 (readFrame_reassembles_response r0 last [r1] [] [] (take 7 r1 ++ []) tt
                  (fun _ => false) 0 (fun _ k => k) 3 H0 H1 ltac:(cbn; lia)) Hl).
Defined.

(** The device is busy, then asks for a touch, then reports the status
    with the old programming sequence: the touch timeout.  The keepalive
    callback, here one that logs its argument, got [1] and then [2]. *)
Lemma readFrame_status_answer_witness :
  let ws := [[0; 0; 0; 0; 0; 0; 0; 0x01]; [0; 0; 0; 0; 0; 0; 0; 0x21]] in
  let z := [0; 5; 4; 3; 7; 0; 0; 0] in
  exists updated,
    isSequenceUpdated z 7 = Some updated /\
    readFrame script_Receive script_Send 3 (fun _ => false) 7 (fun c log => log ++ [c])
      ((ws ++ z :: [], []), [])
    = (if updated then Ok (Some (take 6 (drop 1 z)))
       else if existsb wants_touch ws
            then Fail (TimeoutError "timed out waiting for touch")
            else Fail (CommandRejectedError "no data"),
       (([], []), fold_left (fun log w => log ++ [keepalive_code w]) ws [])).
Proof.
  intros ws z.
  apply (readFrame_status_answer ws z [] [] [] (fun _ => false) 7
           (fun c log => log ++ [c]) 3).
  - repeat constructor.
  - reflexivity.
  - reflexivity.
  - cbn. lia.
Defined.

(** The context is done at the second wait. *)
Lemma readFrame_cancelled_witness :
  let w := [0; 0; 0; 0; 0; 0; 0; 0x01] in
  readFrame script_Receive script_Send 2 (fun i => Nat.eqb i 1) 7 (fun c log => log ++ [c])
    (([w] ++ w :: [w], []), [])
  = (Fail (TimeoutError "command cancelled"),
     (([w], [] ++ [reset_report]),
      fold_left (fun log w => log ++ [keepalive_code w]) ([w] ++ [w]) [])).
Proof.
  intros w.
  apply (readFrame_cancelled [w] w [w] [] [] (fun i => Nat.eqb i 1) 7
           (fun c log => log ++ [c]) 2).
  - repeat constructor.
  - intros i Hi. cbn in Hi. now replace i with 0%nat by lia.
  - reflexivity.
  - cbn. lia.
Defined.

(** *** [parseTopLevelUsage] *)

Lemma desc_at_Some (desc : list Z) (i : Z) :
  0 <= i < len desc -> Forall is_byte desc ->
  exists b, desc_at desc i = Some b /\ desc !! Z.to_nat i = Some b /\ is_byte b.
Proof.
  intros Hi Hb. unfold desc_at.
  replace (0 <=? i) with true by lia. replace (i <? len desc) with true by lia.
  destruct (lookup_lt_is_Some_2 desc (Z.to_nat i)) as [b Hl];
    [unfold len in Hi; lia|].
  exists b. cbn [andb]. split; [exact Hl | split; [exact Hl|]].
  exact (Forall_lookup_1 _ _ _ _ Hb Hl).
Qed.

Lemma item_size_cases (c : Z) :
  item_size c = 0 \/ item_size c = 1 \/ item_size c = 2 \/ item_size c = 4.
Proof.
  unfold item_size.
  destruct (c =? 0), (c =? 1), (c =? 2), (c =? 3); tauto.
Qed.

Lemma item_value_Some (desc : list Z) (i size : Z) :
  Forall is_byte desc -> 0 <= i -> i + size <= len desc ->
  size = 0 \/ size = 1 \/ size = 2 \/ size = 4 ->
  exists v, item_value desc i size = Some v.
Proof.
  intros Hb Hi Hfit Hsz. unfold item_value.
  destruct Hsz as [->|[->|[->| ->]]]; cbn [Z.eqb Pos.eqb].
  - eauto.
  - destruct (desc_at_Some desc i) as (b0 & -> & _); [lia|exact Hb|].
    cbn. eauto.
  - destruct (desc_at_Some desc i) as (b0 & -> & _); [lia|exact Hb|].
    destruct (desc_at_Some desc (i + 1)) as (b1 & -> & _); [lia|exact Hb|].
    cbn. eauto.
  - destruct (desc_at_Some desc i) as (b0 & -> & _); [lia|exact Hb|].
    destruct (desc_at_Some desc (i + 1)) as (b1 & -> & _); [lia|exact Hb|].
    destruct (desc_at_Some desc (i + 2)) as (b2 & -> & _); [lia|exact Hb|].
    destruct (desc_at_Some desc (i + 3)) as (b3 & -> & _); [lia|exact Hb|].
    cbn. eauto.
Qed.

Lemma uint16_range (x : Z) : 0 <= HidMore.uint16 x < 65536.
Proof. unfold HidMore.uint16. apply Z.mod_pos_bound. lia. Qed.

Lemma parse_loop_returns (fuel : nat) :
  forall (desc : list Z) (i up u : Z),
    Forall is_byte desc -> 0 <= i ->
    (Z.to_nat (len desc - i) <= fuel)%nat ->
    0 <= up < 65536 -> 0 <= u < 65536 ->
    exists up' u',
      parse_loop fuel desc i up u = Usage up' u' /\
      0 <= up' < 65536 /\ 0 <= u' < 65536.
Proof.
  induction fuel as [|fuel IH]; intros desc i up u Hb Hi Hfuel Hup Hu.
  - cbn [parse_loop]. replace (i <? len desc) with false by lia. eauto.
  - cbn [parse_loop]. destruct (i <? len desc) eqn:Hlt; [|eauto].
    destruct (desc_at_Some desc i) as (prefix & -> & _ & Hp); [lia|exact Hb|].
    cbv zeta. destruct (prefix =? 0xFE).
    + destruct (len desc <? i + 1 + 2) eqn:H2; [eauto|].
      destruct (desc_at_Some desc (i + 1)) as (size & -> & _ & Hs); [lia|exact Hb|].
      unfold is_byte in Hs. apply IH; (assumption || lia).
    + pose proof (item_size_cases (Z.land prefix 3)) as Hsz.
      set (size := item_size (Z.land prefix 3)) in *.
      destruct (len desc <? i + 1 + size) eqn:H2; [eauto|].
      destruct (item_value_Some desc (i + 1) size) as (v & ->);
        [exact Hb | lia | lia | exact Hsz |].
      pose proof (uint16_range (Z.land v 65535)) as Hv.
      repeat match goal with
             | |- context [if ?c then _ else _] => destruct c
             end;
        first [ apply IH; (assumption || lia) | eauto ].
Qed.

(** X18.  [parseTopLevelUsage] reads no byte outside the descriptor: on
    every byte string, cut short or not, it returns, and the usage page and
    the usage it returns are 16-bit numbers. *)
Theorem parseTopLevelUsage_never_panics (desc : list Z)
    (Hbytes : Forall is_byte desc) :
  exists usagePage usage,
    parseTopLevelUsage desc = Usage usagePage usage /\
    0 <= usagePage < 65536 /\ 0 <= usage < 65536.
Proof.
  unfold parseTopLevelUsage.
  apply parse_loop_returns; first [exact Hbytes | unfold len; lia].
Qed.

(** A descriptor cut in the middle of a four-byte item. *)
Lemma parseTopLevelUsage_never_panics_witness :
  exists usagePage usage,
    parseTopLevelUsage [0x06; 0xD0; 0xF1; 0x0B; 0x01; 0x00] = Usage usagePage usage /\
    0 <= usagePage < 65536 /\ 0 <= usage < 65536.
Proof.
  apply (parseTopLevelUsage_never_panics [0x06; 0xD0; 0xF1; 0x0B; 0x01; 0x00]).
  repeat constructor; unfold is_byte; lia.
Defined.

(** **** The first Collection *)

Lemma lor_shiftl_add (lo hi n : Z) :
  0 <= n -> 0 <= lo < 2 ^ n -> Z.lor lo (Z.shiftl hi n) = lo + 2 ^ n * hi.
Proof.
  intros Hn Hlo.
  assert (Hand : Z.land lo (Z.shiftl hi n) = 0).
  { apply Z.bits_inj'. intros i Hi. rewrite Z.land_spec, Z.bits_0.
    destruct (Z.lt_ge_cases i n) as [Hlt|Hge].
    - rewrite Z.shiftl_spec_low by exact Hlt. apply andb_false_r.
    - rewrite <- (Z.mod_small lo (2 ^ n)) by exact Hlo.
      now rewrite Z.mod_pow2_bits_high by lia. }
  pose proof (Z.add_lor_land lo (Z.shiftl hi n)) as H.
  pose proof (Z.shiftl_mul_pow2 hi n Hn) as Hs.
  rewrite Hand in H. lia.
Qed.

Lemma desc_at_app (pre l tail : list Z) (k : nat) (b : Z) :
  l !! k = Some b ->
  desc_at (pre ++ l ++ tail) (len pre + Z.of_nat k) = Some b.
Proof.
  intros Hk. pose proof (lookup_lt_Some _ _ _ Hk) as Hlt.
  unfold desc_at, len. rewrite !length_app.
  replace (0 <=? Z.of_nat (length pre) + Z.of_nat k) with true by lia.
  replace (Z.of_nat (length pre) + Z.of_nat k
           <? Z.of_nat (length pre + (length l + length tail)))
    with true by lia.
  cbn [andb].
  replace (Z.to_nat (Z.of_nat (length pre) + Z.of_nat k))
    with (length pre + k)%nat by lia.
  rewrite lookup_app_r by lia.
  replace (length pre + k - length pre)%nat with k by lia.
  now rewrite lookup_app_l by exact Hlt.
Qed.

(** The value the code reads for a short item is its little-endian value
    in the low 16 bits. *)
Lemma item_value_le (pre tail data : list Z) (prefix : Z) :
  Forall is_byte data ->
  len data = 0 \/ len data = 1 \/ len data = 2 \/ len data = 4 ->
  exists v,
    item_value (pre ++ (prefix :: data) ++ tail) (len pre + 1) (len data) = Some v /\
    HidMore.uint16 (Z.land v 0xFFFF) = le_value data mod 65536.
Proof.
  intros Hb Hsz.
  assert (Hat : forall (k : nat) (b : Z), data !! k = Some b ->
            desc_at (pre ++ (prefix :: data) ++ tail) (len pre + 1 + Z.of_nat k)
            = Some b).
  { intros k b Hk.
    replace (len pre + 1 + Z.of_nat k) with (len pre + Z.of_nat (S k)) by lia.
    now apply desc_at_app. }
  assert (Hlow : forall v, HidMore.uint16 (Z.land v 0xFFFF) = v mod 65536).
  { intros v. unfold HidMore.uint16. change 65535 with (Z.ones 16).
    rewrite Z.land_ones by lia. change (2 ^ 16) with 65536.
    now rewrite Z.mod_mod by lia. }
  destruct data as [|b0 [|b1 [|b2 [|b3 [|b4 data]]]]];
    try (exfalso; unfold len in Hsz; cbn [length] in Hsz; lia);
    unfold item_value;
    match goal with
    | |- context [len ?l =? _] =>
      let n := eval cbv in (len l) in change (len l) with n
    end;
    cbn [Z.eqb Pos.eqb].
  - eexists. split; [reflexivity|]. now rewrite Hlow.
  - pose proof (Hat 0%nat b0 eq_refl) as H0. rewrite Z.add_0_r in H0.
    rewrite H0. cbn [mbind option_bind].
    apply Forall_cons in Hb as [Hb0 _]. unfold is_byte in Hb0.
    eexists. split; [reflexivity|]. rewrite Hlow. cbn [le_value].
    unfold uint32. rewrite (Z.mod_small b0) by lia. f_equal. lia.
  - pose proof (Hat 0%nat b0 eq_refl) as H0. rewrite Z.add_0_r in H0.
    pose proof (Hat 1%nat b1 eq_refl) as H1. change (Z.of_nat 1) with 1 in H1.
    rewrite H0, H1. cbn [mbind option_bind].
    apply Forall_cons in Hb as [Hb0 Hb]. apply Forall_cons in Hb as [Hb1 _].
    unfold is_byte in *.
    eexists. split; [reflexivity|]. rewrite Hlow. cbn [le_value].
    unfold uint32. rewrite (Z.mod_small b0), (Z.mod_small b1) by lia.
    rewrite Z.shiftl_mul_pow2 by lia.
    rewrite (Z.mod_small (b1 * 2 ^ 8)) by lia.
    rewrite <- Z.shiftl_mul_pow2 by lia.
    rewrite lor_shiftl_add by lia. f_equal. lia.
  - pose proof (Hat 0%nat b0 eq_refl) as H0. rewrite Z.add_0_r in H0.
    pose proof (Hat 1%nat b1 eq_refl) as H1. change (Z.of_nat 1) with 1 in H1.
    pose proof (Hat 2%nat b2 eq_refl) as H2. change (Z.of_nat 2) with 2 in H2.
    pose proof (Hat 3%nat b3 eq_refl) as H3. change (Z.of_nat 3) with 3 in H3.
    rewrite H0, H1, H2, H3. cbn [mbind option_bind].
    apply Forall_cons in Hb as [Hb0 Hb]. apply Forall_cons in Hb as [Hb1 Hb].
    apply Forall_cons in Hb as [Hb2 Hb]. apply Forall_cons in Hb as [Hb3 _].
    unfold is_byte in *.
    eexists. split; [reflexivity|]. rewrite Hlow. cbn [le_value].
    unfold uint32.
    rewrite (Z.mod_small b0), (Z.mod_small b1), (Z.mod_small b2), (Z.mod_small b3)
      by lia.
    rewrite !Z.shiftl_mul_pow2 by lia.
    rewrite (Z.mod_small (b1 * 2 ^ 8)), (Z.mod_small (b2 * 2 ^ 16)),
      (Z.mod_small (b3 * 2 ^ 24)) by lia.
    rewrite <- !Z.shiftl_mul_pow2 by lia.
    rewrite (lor_shiftl_add b0 b1 8) by lia.
    rewrite (lor_shiftl_add (b0 + 2 ^ 8 * b1) b2 16) by lia.
    rewrite (lor_shiftl_add (b0 + 2 ^ 8 * b1 + 2 ^ 16 * b2) b3 24) by lia.
    f_equal. lia.
Qed.

(** A run of the loop on a short item. *)
Lemma parse_loop_item (fuel : nat) (pre data tail : list Z) (prefix up u : Z) :
  short_item prefix data ->
  parse_loop (S fuel) (pre ++ (prefix :: data) ++ tail) (len pre) up u
  = if is_collection prefix then Usage up u
    else parse_loop fuel (pre ++ (prefix :: data) ++ tail) (len pre + 1 + len data)
           (fst (apply_item prefix data (up, u)))
           (snd (apply_item prefix data (up, u))).
Proof.
  intros (Hp & Hne & Hlen & Hb).
  destruct (item_value_le pre tail data prefix Hb) as (v & Hv & Hlow).
  { rewrite Hlen. apply item_size_cases. }
  set (desc := pre ++ (prefix :: data) ++ tail) in *.
  assert (Hdesc : len desc = len pre + 1 + len data + len tail).
  { subst desc. unfold len. rewrite !length_app. cbn [length]. lia. }
  assert (Hat : desc_at desc (len pre) = Some prefix).
  { rewrite <- (Z.add_0_r (len pre)). now apply (desc_at_app pre _ tail 0%nat). }
  cbn [parse_loop]. replace (len pre <? len desc) with true by (unfold len in *; lia).
  rewrite Hat. replace (prefix =? 0xFE) with false by lia. cbv zeta.
  rewrite <- Hlen.
  replace (len desc <? len pre + 1 + len data) with false by (unfold len in *; lia).
  rewrite Hv, Hlow.
  unfold is_collection, apply_item, item_type, item_tag.
  destruct (Z.land (Z.shiftr prefix 2) 3 =? 1) eqn:E1,
           (Z.land (Z.shiftr prefix 2) 3 =? 2) eqn:E2,
           (Z.land (Z.shiftr prefix 2) 3 =? 0) eqn:E0;
    try (exfalso; lia); cbn [andb];
    destruct (Z.land (Z.shiftr prefix 4) 15 =? 0) eqn:T0,
             (Z.land (Z.shiftr prefix 4) 15 =? 10) eqn:T10;
    try (exfalso; lia); reflexivity.
Qed.

Lemma parse_loop_items (its : list Z) (st st' : Z * Z) :
  usage_items its st st' ->
  exists n, (n <= length its)%nat /\
    forall (fuel : nat) (pre tail : list Z),
      parse_loop (n + fuel) (pre ++ its ++ tail) (len pre) (fst st) (snd st)
      = parse_loop fuel (pre ++ its ++ tail) (len pre + len its) (fst st') (snd st').
Proof.
  induction 1 as [st | prefix data rest st st' Hitem Hcoll _ (n & Hn & IH)].
  - exists 0%nat. split; [lia|]. intros. cbn [Nat.add]. unfold len at 2.
    cbn [length]. now rewrite Z.add_0_r.
  - exists (S n). split; [cbn [length]; rewrite length_app; lia|].
    intros fuel pre tail. cbn [Nat.add].
    replace (pre ++ (prefix :: data ++ rest) ++ tail)
      with (pre ++ (prefix :: data) ++ rest ++ tail)
      by (cbn [app]; now rewrite <- !app_assoc).
    destruct st as [up u]. cbn [fst snd].
    rewrite parse_loop_item, Hcoll by exact Hitem.
    replace (pre ++ (prefix :: data) ++ rest ++ tail)
      with ((pre ++ prefix :: data) ++ rest ++ tail)
      by (cbn [app]; now rewrite <- !app_assoc).
    replace (len pre + 1 + len data) with (len (pre ++ prefix :: data))
      by (unfold len; rewrite length_app; cbn [length]; lia).
    rewrite IH. f_equal. unfold len. rewrite !length_app. cbn [length].
    rewrite length_app. lia.
Qed.

(** X19.  [parseTopLevelUsage] stops at the first Collection.  When the
    descriptor begins with complete short items, none of them a Collection,
    followed by a Collection item, the result is the usage page and the
    usage as the items before the Collection leave them: the value of the
    last global item with tag 0 and of the last local item with tag 0, the
    low 16 bits of each, and 0 where there is none.  What follows the
    Collection is not read. *)
Theorem parseTopLevelUsage_first_collection
    (items cdata rest : list Z) (c up u : Z)
    (Hitems : usage_items items (0, 0) (up, u))
    (Hc : short_item c cdata)
    (Hcoll : is_collection c = true) :
  parseTopLevelUsage (items ++ (c :: cdata) ++ rest) = Usage up u.
Proof.
  destruct (parse_loop_items items (0, 0) (up, u) Hitems) as (n & Hn & Hrun).
  unfold parseTopLevelUsage.
  replace (length (items ++ (c :: cdata) ++ rest))
    with (n + S (length (items ++ (c :: cdata) ++ rest) - n - 1))%nat
    by (rewrite length_app; cbn [app length]; lia).
  pose proof (Hrun (S (length (items ++ (c :: cdata) ++ rest) - n - 1)) []
                ((c :: cdata) ++ rest)) as H.
  cbn [fst snd] in H. change (len []) with 0 in H. cbn [app] in H |- *.
  rewrite H. rewrite Z.add_0_l.
  change (items ++ c :: cdata ++ rest) with (items ++ (c :: cdata) ++ rest).
  now rewrite parse_loop_item, Hcoll by exact Hc.
Qed.

(** The descriptor of a FIDO interface begins [06 D0 F1 09 01 A1 01]: usage
    page [F1D0], usage [01]. *)
Lemma parseTopLevelUsage_first_collection_witness :
  usage_items [0x06; 0xD0; 0xF1; 0x09; 0x01] (0, 0) (0xF1D0, 0x01) /\
  short_item 0xA1 [0x01] /\
  parseTopLevelUsage ([0x06; 0xD0; 0xF1; 0x09; 0x01] ++ (0xA1 :: [0x01]) ++ [0x09; 0x20])
  = Usage 0xF1D0 0x01.
Proof.
  assert (Hc : short_item 0xA1 [0x01]).
  { unfold short_item, is_byte.
    split; [lia | split; [discriminate | split; [reflexivity | repeat constructor; lia]]]. }
  assert (Hitems : usage_items [0x06; 0xD0; 0xF1; 0x09; 0x01] (0, 0) (0xF1D0, 0x01)).
  { apply (items_cons 0x06 [0xD0; 0xF1] [0x09; 0x01] (0, 0) (0xF1D0, 0x01)).
    - unfold short_item, is_byte.
      split; [lia | split; [discriminate | split; [reflexivity | repeat constructor; lia]]].
    - reflexivity.
    - apply (items_cons 0x09 [0x01] [] (0xF1D0, 0) (0xF1D0, 0x01)).
      + unfold short_item, is_byte.
        split; [lia | split; [discriminate | split; [reflexivity | repeat constructor; lia]]].
      + reflexivity.
      + apply items_nil. }
  split; [exact Hitems|]. split; [exact Hc|].
  exact (parseTopLevelUsage_first_collection [0x06; 0xD0; 0xF1; 0x09; 0x01] [0x01]
           [0x09; 0x20] 0xA1 0xF1D0 0x01 Hitems Hc eq_refl).
Defined.

(** [SendAndReceive] up to the point where the frame is out. *)
Lemma SendAndReceive_sends {K : Type}
    (slot : Z) (data r0 : list Z) (polls tail sent : list (list Z)) (k : K)
    (ctx : nat -> bool) (onKeepalive : option (Z -> K -> K)) (fuel : nat) :
  len data <= SLOT_DATA_SIZE ->
  len r0 = FEATURE_RPT_SIZE ->
  Forall (fun r => ready r = true) polls ->
  length polls
  = length (packets 10 (formatFrame slot (data ++ replicate (64 - length data) 0)) 0) ->
  SendAndReceive script_Receive script_Send fuel ctx slot data onKeepalive
    ((r0 :: polls ++ tail, sent), k)
  = readFrame script_Receive script_Send fuel ctx (nth 4 r0 0)
      (match onKeepalive with Some f => f | None => fun _ k0 => k0 end)
      ((tail,
        sent ++ packets 10 (formatFrame slot (data ++ replicate (64 - length data) 0)) 0),
       k).
Proof.
  intros Hsize Hstatus Hready Hpolls.
  set (payload := data ++ replicate (64 - length data) 0) in *.
  set (frame := formatFrame slot payload) in *.
  assert (Hdata : (length data <= 64)%nat)
    by (unfold len, SLOT_DATA_SIZE in Hsize; lia).
  assert (Hpayload : length payload = 64%nat)
    by (subst payload; rewrite length_app, length_replicate; lia).
  assert (Hframe : length frame = (7 * 10)%nat).
  { subst frame. unfold formatFrame. cbv zeta. rewrite !length_app, Hpayload.
    reflexivity. }
  unfold SendAndReceive.
  replace (SLOT_DATA_SIZE <? len data) with false by lia.
  change (Z.to_nat SLOT_DATA_SIZE) with 64%nat.
  rewrite (take_ge data 64) by lia. fold payload. fold frame.
  unfold hbind at 1. unfold sendFrame. unfold hbind at 1.
  rewrite (script_receive r0 _ sent k Hstatus).
  unfold hbind at 1.
  rewrite (at_ok r0 STATUS_OFFSET_PROG_SEQ (nth 4 r0 0))
    by (first [discriminate | exact (report_prog_seq r0 Hstatus)]).
  unfold hbind at 1.
  rewrite (sendFrame_loop_packets 10 frame 0 polls tail sent k
             (length frame) Hframe Hready Hpolls ltac:(lia)).
  reflexivity.
Qed.

(** X29.  [SendAndReceive] from end to end, with a device that answers the
    status read, then every readiness poll at once, and then delivers a
    response: the packet with sequence number 0, a stream of packets from
    sequence number 1 on, and a closing packet with sequence number 0.  For
    at most 64 data bytes the frame is the data filled up with zeros to 64
    bytes, then the slot, the CRC and three zeros; the reports that go out
    give this frame back on the side of the device; the call returns the
    data bytes of the response packets in their order; and the last report
    sent is the reset report. *)
Theorem SendAndReceive_end_to_end {K : Type}
    (slot : Z) (data r0 r1 last p : list Z) (polls rs rest sent : list (list Z))
    (k : K) (ctx : nat -> bool) (onKeepalive : option (Z -> K -> K)) (fuel : nat)
    (Hsize : len data <= SLOT_DATA_SIZE)
    (Hstatus : len r0 = FEATURE_RPT_SIZE)
    (Hready : Forall (fun r => ready r = true) polls)
    (Hpolls : length polls
              = length (packets 10
                          (formatFrame slot (data ++ replicate (64 - length data) 0)) 0))
    (Hfirst : response_packet r1 0)
    (Hstream : response_stream 1 rs p)
    (Hlast : response_packet last 0)
    (Hfuel : (length rs + 2 <= fuel)%nat) :
  let payload := data ++ replicate (64 - length data) 0 in
  let frame := formatFrame slot payload in
  frame = payload ++ [slot] ++ crc_bytes payload ++ [0; 0; 0] /\
  rebuild 70 (packets 10 frame 0) = frame /\
  SendAndReceive script_Receive script_Send fuel ctx slot data onKeepalive
    ((r0 :: polls ++ r1 :: rs ++ last :: rest, sent), k)
  = (Ok (Some (take 7 r1 ++ p)),
     ((rest, sent ++ packets 10 frame 0 ++ [reset_report]), k)).
Proof.
  intros payload frame.
  assert (Hdata : (length data <= 64)%nat)
    by (unfold len, SLOT_DATA_SIZE in Hsize; lia).
  assert (Hpayload : length payload = 64%nat)
    by (subst payload; rewrite length_app, length_replicate; lia).
  assert (Hframe : length frame = (7 * 10)%nat).
  { subst frame. unfold formatFrame. cbv zeta. rewrite !length_app, Hpayload.
    reflexivity. }
  split; [|split].
  - subst frame. unfold formatFrame, crc_bytes. cbv zeta. cbn [app].
    now rewrite <- !app_assoc.
  - exact (proj1 (rebuild_packets 10 frame Hframe ltac:(lia))).
  - rewrite (SendAndReceive_sends slot data r0 polls (r1 :: rs ++ last :: rest) sent k
               ctx onKeepalive fuel Hsize Hstatus Hready Hpolls).
    fold payload. fold frame.
    set (onK := match onKeepalive with Some f => f | None => fun _ k0 => k0 end).
    unfold readFrame.
    destruct Hfirst as (Hlen1 & Hpend1 & Hseq1).
    destruct Hlast as (Hlenl & Hpendl & Hseql).
    destruct (readFrame_loop_stream (K := K) 1 rs p Hstream ltac:(lia))
      as (seq' & Hle & Hrun).
    replace fuel with (S (length rs + S (fuel - length rs - 2))) by lia.
    rewrite readFrame_loop_S by exact Hlen1. cbv zeta.
    apply Z.eqb_neq in Hpend1. rewrite Hpend1, Hseq1. cbn [negb Z.eqb default app].
    change (0 + 1) with 1. rewrite Hrun.
    rewrite readFrame_loop_S by exact Hlenl. cbv zeta.
    apply Z.eqb_neq in Hpendl. rewrite Hpendl, Hseql. cbn [negb].
    replace (seq' =? 0) with false by lia.
    now rewrite <- app_assoc.
Qed.

(** No data for slot [30]: two reports go out, the first chunk and the
    last; the response is two packets. *)
Lemma SendAndReceive_end_to_end_witness :
  let idle := [0; 0; 0; 0; 0; 0; 0; 0] in
  let r1 := [1; 2; 3; 4; 5; 6; 7; 0x40] in
  let r2 := [8; 9; 10; 11; 12; 13; 14; 0x41] in
  let last := [0; 0; 0; 0; 0; 0; 0; 0x40] in
  let frame := formatFrame 0x30 ([] ++ replicate (64 - length (@nil Z)) 0) in
  length (packets 10 frame 0) = 2%nat /\
  rebuild 70 (packets 10 frame 0) = frame /\
  SendAndReceive script_Receive script_Send 3 (fun _ => false) 0x30 [] None
    (([idle] ++ [idle; idle] ++ r1 :: [r2] ++ last :: [], []), tt)
  = (Ok (Some (take 7 r1 ++ take 7 r2 ++ [])),
     (([], [] ++ packets 10 frame 0 ++ [reset_report]), tt)).
Proof.
  intros idle r1 r2 last frame.
  assert (Hn : length (packets 10 frame 0) = 2%nat) by (vm_compute; reflexivity).
  split; [exact Hn|].
  assert (H1 : response_packet r1 0) by (repeat split; discriminate).
  assert (H2 : response_stream 1 [r2] (take 7 r2 ++ [])).
  { apply stream_next; [repeat split; discriminate | apply stream_end]. }
  assert (Hl : response_packet last 0) by (repeat split; discriminate).
  exact (proj2 (SendAndReceive_end_to_end 0x30 [] idle r1 last (take 7 r2 ++ [])
                  [idle; idle] [r2] [] [] tt (fun _ => false) None 3
                  ltac:(vm_compute; discriminate) eq_refl
                  ltac:(repeat constructor) Hn H1 H2 Hl ltac:(cbn; lia))).
Defined.

(** *** [New] and [ReadStatus] *)

Lemma version_bytes (r0 : list Z) :
  len r0 = FEATURE_RPT_SIZE ->
  VersionFromBytes (take 3 (drop 1 r0))
  = inl (mkVersion (nth 1 r0 0) (nth 2 r0 0) (nth 3 r0 0)).
Proof.
  unfold len, FEATURE_RPT_SIZE. intros H.
  do 8 (destruct r0 as [|? r0]; [cbn in H; lia|]). reflexivity.
Qed.

(** X30.  [New] reads the firmware version from bytes 1 to 3 of the first
    report, the bytes that [ReadStatus] returns first.  For a major version
    other than 3 it reads nothing more and sends nothing.  For the major
    version 3 it sends the probe, 51 times ['c'] for the slot [12]; when the
    device takes the frame and answers with a status report whose
    programming sequence is not updated, the rejected command is no error:
    [New] succeeds with the version. *)
Theorem New_probes_the_version {K : Type}
    (r0 : list Z) (rest sent : list (list Z)) (k : K) (fuel : nat)
    (Hlen : len r0 = FEATURE_RPT_SIZE) :
  let ver := mkVersion (nth 1 r0 0) (nth 2 r0 0) (nth 3 r0 0) in
  (ReadStatus script_Receive ((r0 :: rest, sent), k)
   = (Ok (take 6 (drop 1 r0)), ((rest, sent), k)) /\
   take 3 (take 6 (drop 1 r0)) = [Major ver; Minor ver; Patch ver]) /\
  (Major ver <> 3 ->
   New script_Receive script_Send fuel ((r0 :: rest, sent), k)
   = (NewOk ver, ((rest, sent), k))) /\
  (Major ver = 3 ->
   forall (r1 z : list Z) (polls tail : list (list Z)),
     rest = r1 :: polls ++ z :: tail ->
     len r1 = FEATURE_RPT_SIZE ->
     Forall (fun r => ready r = true) polls ->
     length polls = length (packets 10 probe_frame 0) ->
     status_report z = true ->
     isSequenceUpdated z (nth 4 r1 0) = Some false ->
     (0 < fuel)%nat ->
     New script_Receive script_Send fuel ((r0 :: rest, sent), k)
     = (NewOk ver, ((tail, sent ++ packets 10 probe_frame 0), k))).
Proof.
  intros ver. split; [|split].
  - split.
    + unfold ReadStatus, hbind. now rewrite (script_receive r0 rest sent k Hlen).
    + unfold len, FEATURE_RPT_SIZE in Hlen.
      do 8 (destruct r0 as [|? r0]; [cbn in Hlen; lia|]). reflexivity.
  - intros Hmajor. unfold New.
    rewrite (script_receive r0 rest sent k Hlen), (version_bytes r0 Hlen).
    fold ver. now replace (Major ver =? 3) with false by lia.
  - intros Hmajor r1 z polls tail -> Hlen1 Hready Hpolls Hstatus Hseq Hfuel.
    unfold New.
    rewrite (script_receive r0 _ sent k Hlen), (version_bytes r0 Hlen).
    fold ver. replace (Major ver =? 3) with true by lia.
    rewrite (SendAndReceive_sends 0x12 (bytesRepeat 99 51) r1 polls (z :: tail) sent k
               (fun _ => false) None fuel ltac:(vm_compute; discriminate) Hlen1 Hready
               Hpolls).
    fold probe_frame.
    unfold status_report in Hstatus.
    rewrite andb_true_iff, !Z.eqb_eq in Hstatus. destruct Hstatus as [Hlenz Hst].
    destruct fuel as [|fuel]; [lia|].
    unfold readFrame. rewrite readFrame_loop_S by exact Hlenz. cbv zeta.
    rewrite Hst. change (Z.land 0 RESP_PENDING_FLAG =? 0) with true.
    change (0 =? 0) with true. cbn [negb default].
    change (0 <? len []) with false. cbv iota.
    now rewrite Hseq.
Qed.

(** A YubiKey 5 ([5.4.3]) is not probed; a NEO ([3.4.9]) is, with nine
    reports, and is not refused for rejecting the probe. *)
Lemma New_probes_the_version_witness :
  let r5 := [0; 5; 4; 3; 7; 0; 0; 0] in
  let r3 := [0; 3; 4; 9; 7; 0; 0; 0] in
  let idle := [0; 0; 0; 0; 0; 0; 0; 0] in
  New script_Receive script_Send 1 (([r5], []), tt)
  = (NewOk (mkVersion 5 4 3), (([], []), tt)) /\
  New script_Receive script_Send 1 ((r3 :: r3 :: replicate 9 idle ++ r3 :: [], []), tt)
  = (NewOk (mkVersion 3 4 9), (([], [] ++ packets 10 probe_frame 0), tt)).
Proof.
  intros r5 r3 idle. split.
  - exact (proj1 (proj2 (New_probes_the_version r5 [] [] tt 1 eq_refl))
             ltac:(discriminate)).
  - apply (proj2 (proj2 (New_probes_the_version r3
                           (r3 :: replicate 9 idle ++ r3 :: []) [] tt 1 eq_refl))
             eq_refl r3 r3 (replicate 9 idle) []);
      first [ reflexivity | lia | repeat constructor | (vm_compute; reflexivity) ].
Defined.

End HidMoreFacts.

(** ** mhex *)

Module MhexFacts.
Import Mhex MhexSpec.

Lemma get_Some (l : list Z) (i : nat) (x : Z) :
  l !! i = Some x -> get l (Z.of_nat i) = ROk x.
Proof.
  intros H. pose proof (lookup_lt_Some _ _ _ H) as Hlt. unfold get, len.
  replace (0 <=? Z.of_nat i) with true by lia.
  replace (Z.of_nat i <? Z.of_nat (length l)) with true by lia.
  cbn [andb]. now rewrite Nat2Z.id, H.
Qed.

Lemma set_middle (done tail : list Z) (x v : Z) :
  set (done ++ x :: tail) (Z.of_nat (length done)) v = ROk (done ++ v :: tail).
Proof.
  unfold set, len. rewrite length_app. cbn [length].
  replace (0 <=? Z.of_nat (length done)) with true by lia.
  replace (Z.of_nat (length done) <? Z.of_nat (length done + S (length tail)))
    with true by lia.
  cbn [andb]. rewrite Nat2Z.id. f_equal.
  rewrite insert_app_r_alt, Nat.sub_diag by lia. reflexivity.
Qed.

Lemma nibbles (b : Z) :
  is_byte b ->
  Z.shiftr b 4 = b / 16 /\ Z.land b 0x0F = b mod 16 /\
  0 <= b / 16 < 16 /\ 0 <= b mod 16 < 16.
Proof.
  unfold is_byte. intros Hb. split; [|split; [|split]].
  - now rewrite Z.shiftr_div_pow2 by lia.
  - change 15 with (Z.ones 4). now rewrite Z.land_ones by lia.
  - split; [apply Z.div_pos; lia | apply Z.div_lt_upper_bound; lia].
  - apply Z.mod_pos_bound. lia.
Qed.

Lemma nth_lookup_Z (l : list Z) (i : nat) :
  (i < length l)%nat -> l !! i = Some (nth i l 0).
Proof.
  revert i. induction l as [|x l IH]; intros [|i] H; cbn in *; try lia;
    [reflexivity | apply IH; lia].
Qed.

(** The loop of [Encode] fills the array from left to right. *)
Lemma Encode_loop_modhex (encoding : list Z) (Hsize : length encoding = 16%nat)
    (data : list Z) :
  Forall is_byte data ->
  forall (i : nat) (done tail : list Z),
    length done = (2 * i)%nat -> length tail = (2 * length data)%nat ->
    Encode_loop encoding data (Z.of_nat i) (done ++ tail)
    = ROk (done ++ modhex encoding data).
Proof.
  induction 1 as [|b data Hb _ IH]; intros i done tail Hdone Htail.
  - destruct tail; [|discriminate Htail]. reflexivity.
  - destruct tail as [|t0 [|t1 tail]]; try (cbn in Htail; lia).
    destruct (nibbles b Hb) as (Hhi & Hlo & Hhr & Hlr).
    assert (Hg : forall n, 0 <= n < 16 ->
              get encoding n = ROk (nth (Z.to_nat n) encoding 0)).
    { intros n Hn. rewrite <- (Z2Nat.id n) at 1 by lia.
      apply get_Some, nth_lookup_Z. lia. }
    cbn [Encode_loop]. rewrite Hhi, Hlo, !Hg by assumption.
    unfold mbind, result_bind. cbn [rbind].
    replace (Z.of_nat i * 2) with (Z.of_nat (length done)) by lia.
    rewrite set_middle. cbn [rbind].
    replace (Z.of_nat (length done) + 1)
      with (Z.of_nat (length (done ++ [nth (Z.to_nat (b / 16)) encoding 0])))
      by (rewrite length_app; cbn [length]; lia).
    replace (done ++ nth (Z.to_nat (b / 16)) encoding 0 :: t1 :: tail)
      with ((done ++ [nth (Z.to_nat (b / 16)) encoding 0]) ++ t1 :: tail)
      by (now rewrite <- app_assoc).
    rewrite set_middle. cbn [rbind].
    replace (Z.of_nat i + 1) with (Z.of_nat (S i)) by lia.
    replace ((done ++ [nth (Z.to_nat (b / 16)) encoding 0])
             ++ nth (Z.to_nat (b mod 16)) encoding 0 :: tail)
      with ((done ++ digits encoding b) ++ tail)
      by (unfold digits; now rewrite <- !app_assoc).
    rewrite IH.
    + unfold modhex. cbn [flat_map]. now rewrite <- app_assoc.
    + rewrite length_app. unfold digits. cbn [length]. lia.
    + cbn [length] in Htail. lia.
Qed.

Lemma Encoding_Encode_modhex (encoding data : list Z) :
  length encoding = 16%nat -> Forall is_byte data ->
  Encoding_Encode encoding data = ROk (modhex encoding data).
Proof.
  intros Hsize Hb. unfold Encoding_Encode, make.
  apply (Encode_loop_modhex encoding Hsize data Hb 0 [] _); [reflexivity|].
  rewrite length_replicate. unfold len. lia.
Qed.

(** *** [Decode]: two characters at a time *)

Lemma get_middle (done tail : list Z) (x : Z) :
  get (done ++ x :: tail) (len done) = ROk x.
Proof.
  unfold len. apply get_Some.
  now rewrite lookup_app_r, Nat.sub_diag by lia.
Qed.

Lemma rbind_ROk {A : Type} (m : result A) : rbind m ROk = m.
Proof. now destruct m. Qed.

Lemma Decode_loop_pairs (encoding : list Z) (m : nat) :
  forall (rest done outdone outtail : list Z) (fuel : nat),
    length rest = (2 * m)%nat -> length done = (2 * length outdone)%nat ->
    length outtail = m -> (m <= fuel)%nat ->
    Decode_loop fuel encoding (done ++ rest) (len done) (outdone ++ outtail)
    = rbind (decode_pairs encoding rest) (fun o => ROk (outdone ++ o)).
Proof.
  induction m as [|m IH]; intros rest done outdone outtail fuel Hrest Hdone Htail Hfuel.
  - destruct rest; [|discriminate Hrest]. destruct outtail; [|discriminate Htail].
    rewrite app_nil_r.
    destruct fuel; cbn [Decode_loop decode_pairs rbind];
      now replace (len done <? len done) with false by lia.
  - destruct rest as [|c1 [|c2 rest]]; try (cbn in Hrest; lia).
    destruct outtail as [|t outtail]; [discriminate Htail|].
    destruct fuel as [|fuel]; [lia|].
    cbn [Decode_loop decode_pairs].
    replace (len done <? len (done ++ c1 :: c2 :: rest)) with true
      by (unfold len; rewrite length_app; cbn [length]; lia).
    unfold mbind, result_bind. rewrite get_middle. cbn [rbind].
    destruct (index encoding c1) as [hi|e| |]; cbn [rbind]; try reflexivity.
    assert (Hc2 : get (done ++ c1 :: c2 :: rest) (len done + 1) = ROk c2).
    { replace (done ++ c1 :: c2 :: rest) with ((done ++ [c1]) ++ c2 :: rest)
        by (now rewrite <- app_assoc).
      replace (len done + 1) with (len (done ++ [c1]))
        by (unfold len; rewrite length_app; cbn [length]; lia).
      apply get_middle. }
    rewrite Hc2. cbn [rbind].
    destruct (index encoding c2) as [lo|e| |]; cbn [rbind]; try reflexivity.
    replace (len done / 2) with (Z.of_nat (length outdone)).
    2:{ unfold len. rewrite Hdone.
        apply Z.div_unique with (r := 0); lia. }
    rewrite set_middle. cbn [rbind].
    set (v := byte (Z.land (Z.lor (Z.shiftl hi 4) lo) 255)).
    replace (done ++ c1 :: c2 :: rest) with ((done ++ [c1; c2]) ++ rest)
      by (now rewrite <- !app_assoc).
    replace (len done + 2) with (len (done ++ [c1; c2]))
      by (unfold len; rewrite !length_app; cbn [length]; lia).
    replace (outdone ++ v :: outtail) with ((outdone ++ [v]) ++ outtail)
      by (now rewrite <- app_assoc).
    rewrite IH.
    + destruct (decode_pairs encoding rest); cbn [rbind]; try reflexivity.
      now rewrite <- app_assoc.
    + cbn [length] in Hrest. lia.
    + rewrite !length_app. cbn [length]. lia.
    + cbn [length] in Htail. lia.
    + lia.
Qed.

Lemma Encoding_Decode_pairs (encoding s : list Z) :
  Encoding_Decode encoding s
  = if len s mod 2 =? 0 then decode_pairs encoding s else RErr ErrLength.
Proof.
  unfold Encoding_Decode. destruct (len s mod 2 =? 0) eqn:Heven; [|reflexivity].
  cbn [negb]. apply Z.eqb_eq in Heven.
  pose proof (Z.div_mod (len s) 2 ltac:(lia)) as Hdiv.
  pose proof (Decode_loop_pairs encoding (Z.to_nat (len s / 2)) s [] []
                (make (len s / 2)) (length s)) as H.
  cbn [app length] in H. change (len []) with 0 in H.
  rewrite H, rbind_ROk; [reflexivity | | reflexivity | |].
  - unfold len in *. lia.
  - unfold make. now rewrite length_replicate.
  - unfold len in *. lia.
Qed.

(** *** The closure [index] *)

Lemma index_from_Ok (rest : list Z) :
  forall (i j c : Z),
    index_from rest i c = ROk j ->
    i <= j < i + len rest /\ rest !! Z.to_nat (j - i) = Some c.
Proof.
  induction rest as [|e rest IH]; intros i j c; cbn [index_from]; [discriminate|].
  destruct (e =? c) eqn:He.
  - intros [= <-]. apply Z.eqb_eq in He as ->. rewrite Z.sub_diag.
    unfold len. cbn [length]. split; [lia | reflexivity].
  - intros H. apply IH in H as [Hr Hl]. unfold len in *. cbn [length].
    split; [lia|].
    replace (Z.to_nat (j - i)) with (S (Z.to_nat (j - (i + 1)))) by lia.
    exact Hl.
Qed.

Lemma index_from_nth (rest : list Z) :
  NoDup rest ->
  forall (i : Z) (k : nat) (c : Z),
    rest !! k = Some c -> index_from rest i c = ROk (i + Z.of_nat k).
Proof.
  induction 1 as [|e rest Hnot _ IH]; intros i k c Hk; [discriminate|].
  cbn [index_from]. destruct k as [|k].
  - injection Hk as ->. rewrite Z.eqb_refl. f_equal. lia.
  - cbn in Hk. destruct (e =? c) eqn:He.
    + apply Z.eqb_eq in He as ->. exfalso. apply Hnot.
      now apply list_elem_of_lookup_2 in Hk.
    + rewrite (IH (i + 1) k c Hk). f_equal. lia.
Qed.

Lemma index_from_not_in (rest : list Z) (i c : Z) :
  c ∉ rest -> index_from rest i c = RErr (ErrInvalidChar c).
Proof.
  revert i. induction rest as [|e rest IH]; intros i Hc; [reflexivity|].
  cbn [index_from]. apply not_elem_of_cons in Hc as [Hne Hc].
  replace (e =? c) with false by lia. now apply IH.
Qed.

Lemma index_from_in (rest : list Z) (i c : Z) :
  c ∈ rest -> exists j, index_from rest i c = ROk j.
Proof.
  revert i. induction rest as [|e rest IH]; intros i Hc; [now apply elem_of_nil in Hc|].
  cbn [index_from]. destruct (e =? c) eqn:He; [eauto|].
  apply elem_of_cons in Hc as [->|Hc]; [lia|]. now apply IH.
Qed.

Lemma join_nibbles (hi lo : Z) :
  0 <= hi < 16 -> 0 <= lo < 16 ->
  byte (Z.land (Z.lor (Z.shiftl hi 4) lo) 0xFF) = 16 * hi + lo.
Proof.
  intros Hhi Hlo. rewrite Z.lor_comm.
  rewrite (HidMoreFacts.lor_shiftl_add lo hi 4) by lia.
  change 255 with (Z.ones 8). rewrite Z.land_ones by lia.
  unfold byte. change (2 ^ 4) with 16. change (2 ^ 8) with 256.
  rewrite (Z.mod_small (lo + 16 * hi) 256) by lia.
  rewrite (Z.mod_small (lo + 16 * hi) 256) by lia. lia.
Qed.

(** *** Round trips *)

Lemma decode_pairs_modhex (encoding data : list Z) :
  length encoding = 16%nat -> NoDup encoding -> Forall is_byte data ->
  decode_pairs encoding (modhex encoding data) = ROk data.
Proof.
  intros Hsize Hnd. induction 1 as [|b data Hb _ IH]; [reflexivity|].
  destruct (nibbles b Hb) as (_ & _ & Hhr & Hlr).
  unfold modhex. cbn [flat_map digits app decode_pairs]. fold (modhex encoding data).
  unfold index.
  rewrite (index_from_nth encoding Hnd 0 (Z.to_nat (b / 16))
             (nth (Z.to_nat (b / 16)) encoding 0))
    by (apply nth_lookup_Z; lia).
  rewrite (index_from_nth encoding Hnd 0 (Z.to_nat (b mod 16))
             (nth (Z.to_nat (b mod 16)) encoding 0))
    by (apply nth_lookup_Z; lia).
  rewrite IH. unfold mbind, result_bind. cbn [rbind].
  rewrite !Z.add_0_l, !Z2Nat.id, join_nibbles by lia.
  do 2 f_equal. unfold is_byte in Hb.
  pose proof (Z.div_mod b 16 ltac:(lia)). lia.
Qed.

Lemma modhex_length (encoding data : list Z) :
  length (modhex encoding data) = (2 * length data)%nat.
Proof.
  induction data as [|b data IH]; [reflexivity|].
  unfold modhex in *. cbn [flat_map digits app length]. lia.
Qed.

(** X20.  Decoding undoes encoding.  For an alphabet of 16 different
    characters, as the standard one is, and every byte string, [Encode]
    returns two characters for each byte, and [Decode] of that text gives
    the bytes back. *)
Theorem Decode_undoes_Encode (encoding data : list Z)
    (Hsize : length encoding = 16%nat)
    (Hdistinct : NoDup encoding)
    (Hbytes : Forall is_byte data) :
  exists s,
    Encoding_Encode encoding data = ROk s /\
    length s = (2 * length data)%nat /\
    Encoding_Decode encoding s = ROk data.
Proof.
  exists (modhex encoding data). split; [|split].
  - now apply Encoding_Encode_modhex.
  - apply modhex_length.
  - rewrite Encoding_Decode_pairs. unfold len. rewrite modhex_length.
    replace (Z.of_nat (2 * length data) mod 2 =? 0) with true.
    + now apply decode_pairs_modhex.
    + symmetry. apply Z.eqb_eq.
      replace (Z.of_nat (2 * length data)) with (Z.of_nat (length data) * 2) by lia.
      apply Z.mod_mul. lia.
Qed.

Lemma decode_pairs_inv (encoding : list Z) (Hsize : length encoding = 16%nat)
    (n : nat) :
  forall s data,
    (length s <= n)%nat -> decode_pairs encoding s = ROk data ->
    modhex encoding data = s /\ Forall is_byte data.
Proof.
  induction n as [|n IH]; intros s data Hn.
  - destruct s; [|cbn in Hn; lia]. intros [= <-]. split; [reflexivity | constructor].
  - destruct s as [|c1 [|c2 s]]; cbn [decode_pairs].
    + intros [= <-]. split; [reflexivity | constructor].
    + discriminate.
    + unfold mbind, result_bind, index.
      destruct (index_from encoding 0 c1) as [hi|?| |] eqn:H1; cbn [rbind];
        try discriminate.
      destruct (index_from encoding 0 c2) as [lo|?| |] eqn:H2; cbn [rbind];
        try discriminate.
      destruct (decode_pairs encoding s) as [out|?| |] eqn:Hs; cbn [rbind];
        try discriminate.
      intros [= <-].
      apply index_from_Ok in H1 as [Hr1 Hl1]. apply index_from_Ok in H2 as [Hr2 Hl2].
      unfold len in Hr1, Hr2. rewrite Hsize in Hr1, Hr2.
      rewrite Z.sub_0_r in Hl1, Hl2.
      destruct (IH s out ltac:(cbn in Hn; lia) Hs) as [Hm Hbytes].
      rewrite join_nibbles by lia.
      assert (Hq : (16 * hi + lo) / 16 = hi)
        by (symmetry; apply Z.div_unique with (r := lo); lia).
      assert (Hr : (16 * hi + lo) mod 16 = lo)
        by (symmetry; apply Z.mod_unique with (q := hi); lia).
      split.
      * unfold modhex. cbn [flat_map]. fold (modhex encoding out). rewrite Hm.
        unfold digits. rewrite Hq, Hr. cbn [app].
        rewrite (nth_lookup_Z encoding (Z.to_nat hi)) in Hl1 by lia.
        rewrite (nth_lookup_Z encoding (Z.to_nat lo)) in Hl2 by lia.
        injection Hl1 as ->. injection Hl2 as ->. reflexivity.
      * constructor; [unfold is_byte; lia | exact Hbytes].
Qed.

(** X21.  Encoding undoes decoding.  For an alphabet of 16 characters,
    when [Decode] accepts a text, the result is a byte string and [Encode]
    of it is the text. *)
Theorem Encode_undoes_Decode (encoding s data : list Z)
    (Hsize : length encoding = 16%nat)
    (Hdecoded : Encoding_Decode encoding s = ROk data) :
  Forall is_byte data /\ Encoding_Encode encoding data = ROk s.
Proof.
  rewrite Encoding_Decode_pairs in Hdecoded.
  destruct (len s mod 2 =? 0); [|discriminate Hdecoded].
  destruct (decode_pairs_inv encoding Hsize (length s) s data (le_n _) Hdecoded)
    as [Hm Hb].
  split; [exact Hb|]. rewrite Encoding_Encode_modhex by assumption. now rewrite Hm.
Qed.

(** *** Errors *)

Lemma decode_pairs_accepts (encoding : list Z) (k : nat) :
  forall s,
    length s = (2 * k)%nat -> Forall (fun c => c ∈ encoding) s ->
    exists data, decode_pairs encoding s = ROk data /\ length data = k.
Proof.
  induction k as [|k IH]; intros s Hlen Hin.
  - destruct s; [|discriminate Hlen]. now exists [].
  - destruct s as [|c1 [|c2 s]]; try (cbn in Hlen; lia).
    apply Forall_cons in Hin as [H1 Hin]. apply Forall_cons in Hin as [H2 Hin].
    destruct (index_from_in encoding 0 c1 H1) as [hi Hhi].
    destruct (index_from_in encoding 0 c2 H2) as [lo Hlo].
    destruct (IH s ltac:(cbn in Hlen; lia) Hin) as (out & Hout & Hk).
    cbn [decode_pairs]. unfold index, mbind, result_bind.
    rewrite Hhi, Hlo, Hout. cbn [rbind]. eexists. split; [reflexivity|].
    cbn [length]. now rewrite Hk.
Qed.

Lemma decode_pairs_rejects (encoding : list Z) (n : nat) :
  forall (good : list Z) (c : Z) (rest : list Z) (k : nat),
    (length good <= n)%nat ->
    length (good ++ c :: rest) = (2 * k)%nat ->
    Forall (fun c => c ∈ encoding) good -> c ∉ encoding ->
    decode_pairs encoding (good ++ c :: rest) = RErr (ErrInvalidChar c).
Proof.
  induction n as [|n IH]; intros good c rest k Hn Hlen Hin Hc.
  - destruct good; [|cbn in Hn; lia].
    destruct rest as [|c2 rest]; [cbn in Hlen; lia|].
    cbn [app decode_pairs]. unfold index, mbind, result_bind.
    now rewrite (index_from_not_in encoding 0 c Hc).
  - destruct good as [|g1 [|g2 good]].
    + destruct rest as [|c2 rest]; [cbn in Hlen; lia|].
      cbn [app decode_pairs]. unfold index, mbind, result_bind.
      now rewrite (index_from_not_in encoding 0 c Hc).
    + apply Forall_cons in Hin as [H1 _].
      destruct (index_from_in encoding 0 g1 H1) as [hi Hhi].
      cbn [app decode_pairs]. unfold index, mbind, result_bind.
      rewrite Hhi. cbn [rbind].
      now rewrite (index_from_not_in encoding 0 c Hc).
    + apply Forall_cons in Hin as [H1 Hin]. apply Forall_cons in Hin as [H2 Hin].
      destruct (index_from_in encoding 0 g1 H1) as [hi Hhi].
      destruct (index_from_in encoding 0 g2 H2) as [lo Hlo].
      cbn [app decode_pairs]. unfold index, mbind, result_bind.
      rewrite Hhi, Hlo. cbn [rbind].
      rewrite (IH good c rest (k - 1)%nat); [reflexivity | | | exact Hin | exact Hc].
      * cbn in Hn. lia.
      * cbn [app length] in Hlen. lia.
Qed.

(** X22.  What [Decode] refuses, for every alphabet.  A text of odd
    length is the length error.  A text of even length is decoded, to half
    as many bytes, when all its characters are in the alphabet; otherwise
    the error names the first character that is not.  [Decode] never
    panics. *)
Theorem Decode_errors (encoding s : list Z) :
  (len s mod 2 = 1 -> Encoding_Decode encoding s = RErr ErrLength) /\
  (len s mod 2 = 0 -> Forall (fun c => c ∈ encoding) s ->
   exists data,
     Encoding_Decode encoding s = ROk data /\ len s = 2 * len data) /\
  (len s mod 2 = 0 ->
   forall (good : list Z) (c : Z) (rest : list Z),
     s = good ++ c :: rest ->
     Forall (fun c => c ∈ encoding) good -> c ∉ encoding ->
     Encoding_Decode encoding s = RErr (ErrInvalidChar c)) /\
  Encoding_Decode encoding s <> RPanic.
Proof.
  rewrite Encoding_Decode_pairs.
  pose proof (Z.div_mod (len s) 2 ltac:(lia)) as Hdiv.
  pose proof (Z.mod_pos_bound (len s) 2 ltac:(lia)) as Hmod.
  assert (Heven : len s mod 2 = 0 -> length s = (2 * Z.to_nat (len s / 2))%nat)
    by (unfold len in *; lia).
  split; [|split; [|split]].
  - intros Hodd. now rewrite Hodd.
  - intros H0 Hin. rewrite H0. cbn [Z.eqb].
    destruct (decode_pairs_accepts encoding _ s (Heven H0) Hin) as (data & Hd & Hl).
    exists data. split; [exact Hd|]. unfold len in *. lia.
  - intros H0 good c rest -> Hin Hc. rewrite H0. cbn [Z.eqb].
    apply (decode_pairs_rejects encoding (length good) good c rest _ (le_n _)
             (Heven H0) Hin Hc).
  - destruct (len s mod 2 =? 0) eqn:H0; [|discriminate].
    apply Z.eqb_eq in H0. specialize (Heven H0).
    set (k := Z.to_nat (len s / 2)) in Heven. clearbody k.
    clear Hdiv Hmod H0. revert s Heven.
    induction k as [|k IH]; intros s Hlen.
    + destruct s; [discriminate | discriminate Hlen].
    + destruct s as [|c1 [|c2 s]]; try (cbn in Hlen; lia).
      cbn [decode_pairs]. unfold index, mbind, result_bind.
      destruct (index_from encoding 0 c1) as [hi|?| |] eqn:H1; cbn [rbind];
        try discriminate.
      2:{ exfalso. clear -H1. revert H1. generalize 0.
          induction encoding as [|e enc IHe]; intros i; cbn [index_from];
            [discriminate | destruct (e =? c1); [discriminate | apply IHe]]. }
      destruct (index_from encoding 0 c2) as [lo|?| |] eqn:H2; cbn [rbind];
        try discriminate.
      2:{ exfalso. clear -H2. revert H2. generalize 0.
          induction encoding as [|e enc IHe]; intros i; cbn [index_from];
            [discriminate | destruct (e =? c2); [discriminate | apply IHe]]. }
      specialize (IH s ltac:(cbn in Hlen; lia)).
      destruct (decode_pairs encoding s); cbn [rbind]; (discriminate || congruence).
Qed.

(** The standard alphabet has 16 different characters: the bytes [9c cb]
    and their text. *)
Lemma Decode_undoes_Encode_witness :
  NoDup std_alphabet /\
  exists s,
    Encoding_Encode std_alphabet [0x9c; 0xcb] = ROk s /\
    length s = (2 * length [0x9c; 0xcb])%nat /\
    Encoding_Decode std_alphabet s = ROk [0x9c; 0xcb].
Proof.
  assert (Hnd : NoDup std_alphabet)
    by (apply (bool_decide_unpack _); vm_compute; reflexivity).
  split; [exact Hnd|].
  apply (Decode_undoes_Encode std_alphabet [0x9c; 0xcb] eq_refl Hnd).
  repeat constructor; unfold is_byte; lia.
Defined.

(** The text ["krrn"]. *)
Lemma Encode_undoes_Decode_witness :
  Encoding_Decode std_alphabet [107; 114; 114; 110] = ROk [0x9c; 0xcb] /\
  Forall is_byte [0x9c; 0xcb] /\
  Encoding_Encode std_alphabet [0x9c; 0xcb] = ROk [107; 114; 114; 110].
Proof.
  assert (H : Encoding_Decode std_alphabet [107; 114; 114; 110] = ROk [0x9c; 0xcb])
    by reflexivity.
  split; [exact H|].
  exact (Encode_undoes_Decode std_alphabet [107; 114; 114; 110] [0x9c; 0xcb] eq_refl H).
Defined.

End MhexFacts.

(** ** cmd/examples/run/main.go *)

Module RunExampleFacts.
Import RunExample RunExampleSpec.

(** *** [DecodeSimple] *)

Lemma get_lt {A : Type} (l : list A) (i : Z) :
  0 <= i < len l -> exists x, get l i = ROk x /\ l !! Z.to_nat i = Some x.
Proof.
  intros Hi. unfold get.
  replace (0 <=? i) with true by lia. replace (i <? len l) with true by lia.
  destruct (lookup_lt_is_Some_2 l (Z.to_nat i)) as [x Hx]; [unfold len in Hi; lia|].
  exists x. cbn [andb]. now rewrite Hx.
Qed.

Lemma get_nat {A : Type} (l : list A) (i : nat) (x : A) :
  l !! i = Some x -> get l (Z.of_nat i) = ROk x.
Proof.
  intros H. pose proof (lookup_lt_Some _ _ _ H) as Hlt.
  destruct (get_lt l (Z.of_nat i)) as (y & -> & Hy); [unfold len; lia|].
  rewrite Nat2Z.id in Hy. congruence.
Qed.

Lemma slice_within {A : Type} (l : list A) (lo hi : Z) :
  0 <= lo <= hi -> hi <= len l ->
  slice l lo hi = ROk (take (Z.to_nat (hi - lo)) (drop (Z.to_nat lo) l)).
Proof.
  intros H1 H2. unfold slice.
  replace (0 <=? lo) with true by lia. replace (lo <=? hi) with true by lia.
  now replace (hi <=? len l) with true by lia.
Qed.

Lemma slice_from_rest {A : Type} (l : list A) (lo : Z) :
  0 <= lo <= len l -> slice_from l lo = ROk (drop (Z.to_nat lo) l).
Proof.
  intros H. unfold slice_from. rewrite slice_within by lia. f_equal.
  apply take_ge. rewrite length_drop. unfold len. lia.
Qed.

(** A run of the loop on a record. *)
Lemma DecodeSimple_loop_record (fuel : nat) (t : Z) (v h rest : list Z)
    (acc : TagValues) :
  simple_header t (len v) h ->
  DecodeSimple_loop (S fuel) (h ++ v ++ rest) acc
  = DecodeSimple_loop fuel rest (acc ++ [mkTagValue t v [] false]).
Proof.
  intros Hh.
  assert (Hlen : forall (h' : list Z), len (h' ++ v ++ rest) = len h' + len v + len rest)
    by (intros; unfold len; rewrite !length_app; lia).
  assert (Hv : 0 <= len v) by (unfold len; lia).
  assert (Hr : 0 <= len rest) by (unfold len; lia).
  cbn [DecodeSimple_loop].
  inversion Hh as [t' l Hl Ht Hl' Hh' | t' l Hl Ht Hl' Hh']; subst t' l h; clear Hh.
  - rewrite Hlen. change (len [t; len v]) with 2.
    replace (0 <? 2 + len v + len rest) with true by lia.
    replace (2 + len v + len rest <? 2) with false by lia.
    rewrite (get_nat _ 1%nat (len v)) by reflexivity.
    rewrite (get_nat _ 0%nat t) by reflexivity.
    unfold mbind, result_bind. cbn [rbind].
    replace (len v =? 255) with false by lia. cbn [negb rbind].
    replace (2 + len v + len rest <? 2 + len v) with false by lia.
    rewrite slice_within by (rewrite ?Hlen; change (len [t; len v]) with 2; lia).
    cbn [rbind]. rewrite slice_from_rest
      by (rewrite ?Hlen; change (len [t; len v]) with 2; lia).
    cbn [rbind].
    assert (E1 : take (Z.to_nat (2 + len v - 2))
                   (drop (Z.to_nat 2) ([t; len v] ++ v ++ rest)) = v).
    { rewrite (drop_app_length' [t; len v] (v ++ rest)) by reflexivity.
      apply take_app_length'. unfold len. lia. }
    assert (E2 : drop (Z.to_nat (2 + len v)) ([t; len v] ++ v ++ rest) = rest).
    { rewrite (app_assoc [t; len v] v rest). apply drop_app_length'.
      rewrite length_app. unfold len. cbn [length]. lia. }
    now rewrite E1, E2.
  - set (h := [t; 255; len v / 256; len v mod 256]).
    assert (Hl2 : Z.shiftl (len v / 256) 8 + len v mod 256 = len v).
    { rewrite Z.shiftl_mul_pow2 by lia. change (2 ^ 8) with 256.
      pose proof (Z.div_mod (len v) 256 ltac:(lia)). lia. }
    rewrite Hlen. change (len h) with 4.
    replace (0 <? 4 + len v + len rest) with true by lia.
    replace (4 + len v + len rest <? 2) with false by lia.
    rewrite (get_nat _ 1%nat 255) by reflexivity.
    rewrite (get_nat _ 0%nat t) by reflexivity.
    unfold mbind, result_bind. cbn [rbind Z.eqb Pos.eqb negb].
    replace (4 + len v + len rest <? 4) with false by lia.
    rewrite (get_nat _ 2%nat (len v / 256)) by reflexivity.
    rewrite (get_nat _ 3%nat (len v mod 256)) by reflexivity.
    cbn [rbind]. rewrite Hl2.
    replace (4 + len v + len rest <? 4 + len v) with false by lia.
    cbn [rbind].
    rewrite slice_within by (rewrite ?Hlen; change (len h) with 4; lia).
    cbn [rbind]. rewrite slice_from_rest by (rewrite ?Hlen; change (len h) with 4; lia).
    cbn [rbind].
    assert (E1 : take (Z.to_nat (4 + len v - 4))
                   (drop (Z.to_nat 4) (h ++ v ++ rest)) = v).
    { rewrite (drop_app_length' h (v ++ rest)) by reflexivity.
      apply take_app_length'. unfold len. lia. }
    assert (E2 : drop (Z.to_nat (4 + len v)) (h ++ v ++ rest) = rest).
    { rewrite (app_assoc h v rest). apply drop_app_length'.
      rewrite length_app. unfold len. subst h. cbn [length]. lia. }
    replace (4 + len v + len rest <? 4 + len v) with false by lia.
    now rewrite E1, E2.
Qed.

Lemma DecodeSimple_loop_nil (fuel : nat) (acc : TagValues) :
  DecodeSimple_loop fuel [] acc = ROk acc.
Proof. now destruct fuel. Qed.

Lemma simple_header_length (t l : Z) (h : list Z) :
  simple_header t l h -> (2 <= length h)%nat.
Proof. intros []; cbn [length]; lia. Qed.

Lemma simple_records_length (tvs : TagValues) (bytes : list Z) :
  simple_records tvs bytes -> (2 * length tvs <= length bytes)%nat.
Proof.
  induction 1 as [|t v h tvs rest Hh _ IH]; [cbn; lia|].
  apply simple_header_length in Hh. rewrite !length_app. cbn [length]. lia.
Qed.

(** The records at the start of the buffer are taken one by one. *)
Lemma DecodeSimple_loop_records (tvs : TagValues) (pre : list Z) :
  simple_records tvs pre ->
  forall (tail : list Z) (fuel : nat) (acc : TagValues),
    DecodeSimple_loop (length tvs + fuel) (pre ++ tail) acc
    = DecodeSimple_loop fuel tail (acc ++ tvs).
Proof.
  induction 1 as [|t v h tvs rest Hh _ IH]; intros tail fuel acc.
  - cbn [length Nat.add app]. now rewrite app_nil_r.
  - cbn [length Nat.add].
    replace ((h ++ v ++ rest) ++ tail) with (h ++ v ++ rest ++ tail)
      by (now rewrite <- !app_assoc).
    rewrite (DecodeSimple_loop_record _ t v h (rest ++ tail) acc Hh), IH.
    now rewrite <- app_assoc.
Qed.

(** X23.  [DecodeSimple] reads a sequence of records: each one a tag byte,
    the length as one byte below [FF] or as [FF] and two bytes, high byte
    first, and the value.  It returns the records in their order, each with
    its tag and its value, no children and no flag; an empty buffer gives no
    record. *)
Theorem DecodeSimple_reads_the_records (tvs : TagValues) (bytes : list Z)
    (Hrecords : simple_records tvs bytes) :
  DecodeSimple bytes = ROk tvs.
Proof.
  pose proof (simple_records_length tvs bytes Hrecords) as Hlen.
  unfold DecodeSimple.
  replace (length bytes) with (length tvs + (length bytes - length tvs))%nat by lia.
  rewrite <- (app_nil_r bytes) at 2.
  rewrite (DecodeSimple_loop_records tvs bytes Hrecords).
  apply DecodeSimple_loop_nil.
Qed.

(** X24.  A buffer that ends inside a record is refused, wherever the cut
    is: after complete records, the first [k] bytes of a further record,
    for every [k] from 1 to one less than its length, give the error
    "invalid length", and none of the complete records is returned. *)
Theorem DecodeSimple_refuses_a_cut_record
    (tvs : TagValues) (pre : list Z) (t : Z) (v h : list Z) (k : nat)
    (Hrecords : simple_records tvs pre)
    (Hheader : simple_header t (len v) h)
    (Hcut : (0 < k < length (h ++ v))%nat) :
  DecodeSimple (pre ++ take k (h ++ v)) = RErr errInvalidLength.
Proof.
  pose proof (simple_records_length tvs pre Hrecords) as Hlen.
  unfold DecodeSimple. rewrite length_app, length_take.
  replace (length pre + k `min` length (h ++ v))%nat
    with (length tvs + S (length pre + k - length tvs - 1))%nat by lia.
  rewrite (DecodeSimple_loop_records tvs pre Hrecords).
  generalize (length pre + k - length tvs - 1)%nat ([] ++ tvs). intros fuel acc.
  rewrite length_app in Hcut.
  inversion Hheader as [t' l Hl Ht Hl' Hh' | t' l Hl Ht Hl' Hh']; subst t' l h;
    clear Hheader; cbn [length] in Hcut.
  - destruct k as [|[|k]]; [lia | reflexivity |].
    cbn [app take DecodeSimple_loop].
    assert (Hk : len (t :: len v :: take k v) = 2 + Z.of_nat k)
      by (unfold len; cbn [length]; rewrite length_take; lia).
    rewrite Hk.
    replace (0 <? 2 + Z.of_nat k) with true by lia.
    replace (2 + Z.of_nat k <? 2) with false by lia.
    rewrite (get_nat _ 1%nat (len v)) by reflexivity.
    unfold mbind, result_bind. cbn [rbind].
    replace (len v =? 255) with false by lia. cbn [negb rbind].
    now replace (2 + Z.of_nat k <? 2 + len v) with true by (unfold len; lia).
  - destruct k as [|[|[|[|k]]]]; [lia | reflexivity | reflexivity | reflexivity |].
    cbn [app take DecodeSimple_loop].
    set (buf := t :: 255 :: len v / 256 :: len v mod 256 :: take k v).
    assert (Hk : len buf = 4 + Z.of_nat k)
      by (subst buf; unfold len; cbn [length]; rewrite length_take; lia).
    assert (Hl2 : Z.shiftl (len v / 256) 8 + len v mod 256 = len v).
    { rewrite Z.shiftl_mul_pow2 by lia. change (2 ^ 8) with 256.
      pose proof (Z.div_mod (len v) 256 ltac:(lia)). lia. }
    rewrite Hk.
    replace (0 <? 4 + Z.of_nat k) with true by lia.
    replace (4 + Z.of_nat k <? 2) with false by lia.
    rewrite (get_nat _ 1%nat 255) by reflexivity.
    unfold mbind, result_bind. cbn [rbind Z.eqb Pos.eqb negb].
    replace (4 + Z.of_nat k <? 4) with false by lia.
    rewrite (get_nat _ 2%nat (len v / 256)) by reflexivity.
    rewrite (get_nat _ 3%nat (len v mod 256)) by reflexivity.
    cbn [rbind]. rewrite Hl2.
    now replace (4 + Z.of_nat k <? 4 + len v) with true by (unfold len; lia).
Qed.

(** Two records, the second with the long form of the length. *)
Lemma DecodeSimple_reads_the_records_witness :
  DecodeSimple ([0x02; 0x04] ++ [1; 2; 3; 4] ++ [0x05; 0xff; 0; 3] ++ [5; 4; 3] ++ [])
  = ROk [mkTagValue 0x02 [1; 2; 3; 4] [] false; mkTagValue 0x05 [5; 4; 3] [] false].
Proof.
  apply DecodeSimple_reads_the_records.
  apply (simple_cons 0x02 [1; 2; 3; 4] [0x02; 0x04]);
    [apply (header_short 0x02 4); lia|].
  apply (simple_cons 0x05 [5; 4; 3] [0x05; 0xff; 0; 3]);
    [apply (header_long 0x05 3); lia|].
  apply simple_nil.
Defined.

(** The serial number record [02 04 01 02 03 04] cut after its third
    value byte, behind a complete record. *)
Lemma DecodeSimple_refuses_a_cut_record_witness :
  DecodeSimple (([0x08; 0x01] ++ [0x40] ++ []) ++ take 5 ([0x02; 0x04] ++ [1; 2; 3; 4]))
  = RErr errInvalidLength.
Proof.
  apply (DecodeSimple_refuses_a_cut_record [mkTagValue 0x08 [0x40] [] false]
           ([0x08; 0x01] ++ [0x40] ++ []) 0x02 [1; 2; 3; 4] [0x02; 0x04] 5).
  - apply (simple_cons 0x08 [0x40] [0x08; 0x01]);
      [apply (header_short 0x08 1); lia | apply simple_nil].
  - apply (header_short 0x02 4). lia.
  - cbn. lia.
Defined.

(** *** [GetAll], [DeleteAll], [PopAll] *)

Lemma GetAll_fold (tag : Z) (l acc : list TagValue) :
  fold_left (fun s tv => if Tag tv =? tag then s ++ [tv] else s) l acc
  = acc ++ filter (fun tv => Tag tv = tag) l.
Proof.
  revert acc. induction l as [|tv l IH]; intros acc; cbn [fold_left].
  - now rewrite app_nil_r.
  - rewrite IH, filter_cons. destruct (Tag tv =? tag) eqn:E.
    + rewrite decide_True by lia. now rewrite <- app_assoc.
    + now rewrite decide_False by lia.
Qed.

Lemma get_in_middle {A : Type} (front tail : list A) (x : A) (n : Z) :
  len front < n ->
  get_in (front ++ x :: tail) n (len front) = ROk x.
Proof.
  intros Hn. unfold get_in, len in *.
  replace (0 <=? Z.of_nat (length front)) with true by lia.
  replace (Z.of_nat (length front) <? n) with true by lia.
  cbn [andb]. now rewrite Nat2Z.id, lookup_app_r, Nat.sub_diag by lia.
Qed.

(** Writing a kept element to the front of the array. *)
Lemma set_in_front (front tail : TagValues) (tv : TagValue) (n : nat) (slen : Z) :
  (n <= length front)%nat -> len front < slen ->
  exists front',
    set_in (front ++ tv :: tail) slen (Z.of_nat n) tv = ROk (front' ++ tail) /\
    length front' = S (length front) /\
    take (S n) front' = take n front ++ [tv].
Proof.
  intros Hn Hs. exists (<[n := tv]> (front ++ [tv])).
  assert (Hlt : (n < length (front ++ [tv]))%nat)
    by (rewrite length_app; cbn [length]; lia).
  split; [|split].
  - unfold set_in, len in *. rewrite length_app. cbn [length].
    replace (0 <=? Z.of_nat n) with true by lia.
    replace (Z.of_nat n <? slen) with true by lia.
    replace (Z.of_nat n <? Z.of_nat (length front + S (length tail)))
      with true by lia.
    cbn [andb]. rewrite Nat2Z.id. f_equal.
    replace (front ++ tv :: tail) with ((front ++ [tv]) ++ tail)
      by (now rewrite <- app_assoc).
    now rewrite insert_app_l by exact Hlt.
  - rewrite length_insert, length_app. cbn [length]. lia.
  - rewrite (take_S_r _ n tv) by (now apply list_lookup_insert_eq).
    rewrite take_insert_ge by lia. now rewrite take_app_le by exact Hn.
Qed.

(** The loop of [DeleteAll] on the elements [todo] still to be read:
    [front] is what the array holds in front of them, and the first [n]
    elements of [front] are the ones kept so far. *)
Lemma DeleteAll_loop_inv (tag : Z) (tvs : tvslice) (spare todo : list TagValue) :
  forall (front : list TagValue) (n : nat) (r : Z),
    (n <= length front)%nat ->
    len front + len todo = slen tvs ->
    exists front',
      DeleteAll_loop (length todo) (len front) tag tvs (front ++ todo ++ spare)
        (Z.of_nat n) r
      = ROk (front' ++ spare,
             Z.of_nat (n + length (filter (fun tv => Tag tv <> tag) todo)),
             r + len (filter (fun tv => Tag tv = tag) todo)) /\
      length front' = (length front + length todo)%nat /\
      take (n + length (filter (fun tv => Tag tv <> tag) todo)) front'
      = take n front ++ filter (fun tv => Tag tv <> tag) todo.
Proof.
  induction todo as [|tv todo IH]; intros front n r Hn Hlen.
  - exists front. cbn [length DeleteAll_loop app filter list_filter].
    change (len []) with 0. rewrite !Nat.add_0_r, Z.add_0_r, app_nil_r.
    repeat split; reflexivity.
  - assert (Hlt : len front < slen tvs) by (unfold len in *; cbn [length] in Hlen; lia).
    cbn [length DeleteAll_loop app]. rewrite get_in_middle by exact Hlt.
    unfold mbind, result_bind. cbn [rbind].
    rewrite !filter_cons.
    destruct (Tag tv =? tag) eqn:E; cbn [negb].
    + rewrite decide_False, decide_True by lia.
      replace (front ++ tv :: todo ++ spare) with ((front ++ [tv]) ++ todo ++ spare)
        by (now rewrite <- app_assoc).
      replace (len front + 1) with (len (front ++ [tv]))
        by (unfold len; rewrite length_app; cbn [length]; lia).
      destruct (IH (front ++ [tv]) n (r + 1)) as (front' & Hrun & Hl & Ht).
      * rewrite length_app. lia.
      * unfold len in *. rewrite length_app. cbn [length] in *. lia.
      * exists front'. split; [|split].
        -- rewrite Hrun. do 2 f_equal. unfold len. cbn [length]. lia.
        -- rewrite Hl, length_app. cbn [length]. lia.
        -- rewrite Ht. now rewrite take_app_le by exact Hn.
    + rewrite decide_True, decide_False by lia.
      destruct (set_in_front front (todo ++ spare) tv n (slen tvs) Hn Hlt)
        as (f1 & Hset & Hl1 & Ht1).
      rewrite Hset. cbn [rbind].
      replace (len front + 1) with (len f1) by (unfold len; lia).
      replace (Z.of_nat n + 1) with (Z.of_nat (S n)) by lia.
      destruct (IH f1 (S n) r) as (front' & Hrun & Hl & Ht).
      * lia.
      * unfold len in *. cbn [length] in *. lia.
      * exists front'. split; [|split].
        -- rewrite Hrun. do 3 f_equal. cbn [length]. lia.
        -- rewrite Hl, Hl1. cbn [length]. lia.
        -- cbn [length]. replace (n + S (length (filter (fun tv => Tag tv <> tag) todo)))%nat
             with (S n + length (filter (fun tv => Tag tv <> tag) todo))%nat by lia.
           rewrite Ht, Ht1. now rewrite <- app_assoc.
Qed.

(** The loop of [PopAll] writes the array as the loop of [DeleteAll] does
    and collects what [DeleteAll] counts. *)
Lemma PopAll_loop_inv (tag : Z) (tvs : tvslice) (spare todo : list TagValue) :
  forall (front : list TagValue) (n : nat) (s : list TagValue),
    (n <= length front)%nat ->
    len front + len todo = slen tvs ->
    exists front',
      PopAll_loop (length todo) (len front) tag tvs (front ++ todo ++ spare)
        (Z.of_nat n) s
      = ROk (front' ++ spare,
             Z.of_nat (n + length (filter (fun tv => Tag tv <> tag) todo)),
             s ++ filter (fun tv => Tag tv = tag) todo) /\
      length front' = (length front + length todo)%nat /\
      take (n + length (filter (fun tv => Tag tv <> tag) todo)) front'
      = take n front ++ filter (fun tv => Tag tv <> tag) todo.
Proof.
  induction todo as [|tv todo IH]; intros front n s Hn Hlen.
  - exists front. cbn [length PopAll_loop app filter list_filter].
    rewrite !Nat.add_0_r, !app_nil_r.
    repeat split; reflexivity.
  - assert (Hlt : len front < slen tvs) by (unfold len in *; cbn [length] in Hlen; lia).
    cbn [length PopAll_loop app]. rewrite get_in_middle by exact Hlt.
    unfold mbind, result_bind. cbn [rbind].
    rewrite !filter_cons.
    destruct (Tag tv =? tag) eqn:E; cbn [negb].
    + rewrite decide_False, decide_True by lia.
      replace (front ++ tv :: todo ++ spare) with ((front ++ [tv]) ++ todo ++ spare)
        by (now rewrite <- app_assoc).
      replace (len front + 1) with (len (front ++ [tv]))
        by (unfold len; rewrite length_app; cbn [length]; lia).
      destruct (IH (front ++ [tv]) n (s ++ [tv])) as (front' & Hrun & Hl & Ht).
      * rewrite length_app. lia.
      * unfold len in *. rewrite length_app. cbn [length] in *. lia.
      * exists front'. split; [|split].
        -- rewrite Hrun. do 2 f_equal. now rewrite <- app_assoc.
        -- rewrite Hl, length_app. cbn [length]. lia.
        -- rewrite Ht. now rewrite take_app_le by exact Hn.
    + rewrite decide_True, decide_False by lia.
      destruct (set_in_front front (todo ++ spare) tv n (slen tvs) Hn Hlt)
        as (f1 & Hset & Hl1 & Ht1).
      rewrite Hset. cbn [rbind].
      replace (len front + 1) with (len f1) by (unfold len; lia).
      replace (Z.of_nat n + 1) with (Z.of_nat (S n)) by lia.
      destruct (IH f1 (S n) s) as (front' & Hrun & Hl & Ht).
      * lia.
      * unfold len in *. cbn [length] in *. lia.
      * exists front'. split; [|split].
        -- rewrite Hrun. do 3 f_equal. cbn [length]. lia.
        -- rewrite Hl, Hl1. cbn [length]. lia.
        -- cbn [length]. replace (n + S (length (filter (fun tv => Tag tv <> tag) todo)))%nat
             with (S n + length (filter (fun tv => Tag tv <> tag) todo))%nat by lia.
           rewrite Ht, Ht1. now rewrite <- app_assoc.
Qed.

(** X25.  [DeleteAll] and [PopAll] work in place, and the elements they
    overwrite are elements they have read already: on a slice within its
    array, [DeleteAll] leaves the elements with another tag, in their order,
    and returns the number of elements [GetAll] returns; [PopAll] leaves the
    same elements and returns what [GetAll] returns, the elements with the
    tag in their order.  Neither panics, and the array keeps its size. *)
Theorem DeleteAll_PopAll_in_place (tvs : tvslice) (tag : Z)
    (Hslice : 0 <= slen tvs <= len (array tvs)) :
  GetAll tvs tag = filter (fun tv => Tag tv = tag) (visible tvs) /\
  (exists tvs',
      DeleteAll tvs tag = ROk (tvs', len (GetAll tvs tag)) /\
      visible tvs' = filter (fun tv => Tag tv <> tag) (visible tvs) /\
      length (array tvs') = length (array tvs)) /\
  (exists tvs',
      PopAll tvs tag = ROk (tvs', GetAll tvs tag) /\
      visible tvs' = filter (fun tv => Tag tv <> tag) (visible tvs) /\
      length (array tvs') = length (array tvs)).
Proof.
  assert (Hget : GetAll tvs tag = filter (fun tv => Tag tv = tag) (visible tvs)).
  { unfold GetAll. now rewrite GetAll_fold. }
  set (vis := visible tvs) in *.
  set (spare := drop (Z.to_nat (slen tvs)) (array tvs)).
  assert (Harr : array tvs = [] ++ vis ++ spare)
    by (subst vis spare; unfold visible; now rewrite take_drop).
  assert (Hvis : length vis = Z.to_nat (slen tvs)).
  { subst vis. unfold visible. rewrite length_take. unfold len in Hslice. lia. }
  assert (Hkeep : (length (filter (fun tv => Tag tv <> tag) vis) <= length vis)%nat)
    by apply length_filter.
  split; [exact Hget|]. split.
  - destruct (DeleteAll_loop_inv tag tvs spare vis [] 0 0) as (front' & Hrun & Hl & Ht).
    { cbn. lia. } { unfold len. cbn [length]. lia. }
    cbn [length Nat.add take app] in Hl, Ht. change (len (@nil TagValue)) with 0 in Hrun.
    exists (TVS (front' ++ spare)
                (Z.of_nat (length (filter (fun tv => Tag tv <> tag) vis)))).
    split; [|split].
    + unfold DeleteAll. rewrite <- Hvis, Harr.
      change (Z.of_nat 0) with 0 in Hrun. rewrite Hrun.
      unfold mbind, result_bind. cbn [rbind Nat.add].
      unfold reslice. cbn [array].
      replace (0 <=? Z.of_nat (length (filter (fun tv => Tag tv <> tag) vis)))
        with true by lia.
      replace (Z.of_nat (length (filter (fun tv => Tag tv <> tag) vis))
               <=? len (front' ++ spare))
        with true by (unfold len; rewrite length_app; lia).
      cbn [andb rbind]. now rewrite Hget, Z.add_0_l.
    + unfold visible. cbn [array slen]. rewrite Nat2Z.id.
      now rewrite take_app_le by lia.
    + cbn [array]. rewrite Harr, !length_app, Hl. reflexivity.
  - destruct (PopAll_loop_inv tag tvs spare vis [] 0 []) as (front' & Hrun & Hl & Ht).
    { cbn. lia. } { unfold len. cbn [length]. lia. }
    cbn [length Nat.add take app] in Hl, Ht. change (len (@nil TagValue)) with 0 in Hrun.
    exists (TVS (front' ++ spare)
                (Z.of_nat (length (filter (fun tv => Tag tv <> tag) vis)))).
    split; [|split].
    + unfold PopAll. rewrite <- Hvis, Harr.
      change (Z.of_nat 0) with 0 in Hrun. rewrite Hrun.
      unfold mbind, result_bind. cbn [rbind Nat.add].
      unfold reslice. cbn [array].
      replace (0 <=? Z.of_nat (length (filter (fun tv => Tag tv <> tag) vis)))
        with true by lia.
      replace (Z.of_nat (length (filter (fun tv => Tag tv <> tag) vis))
               <=? len (front' ++ spare))
        with true by (unfold len; rewrite length_app; lia).
      cbn [andb rbind app]. now rewrite Hget.
    + unfold visible. cbn [array slen]. rewrite Nat2Z.id.
      now rewrite take_app_le by lia.
    + cbn [array]. rewrite Harr, !length_app, Hl. reflexivity.
Qed.

(** A slice of three elements in an array of four; the tag [1] is removed. *)
Lemma DeleteAll_PopAll_in_place_witness :
  let a := mkTagValue 1 [0xAA] [] false in
  let b := mkTagValue 2 [0xBB] [] false in
  let tvs := TVS [a; b; a; b] 3 in
  GetAll tvs 1 = filter (fun tv => Tag tv = 1) (visible tvs) /\
  (exists tvs',
      DeleteAll tvs 1 = ROk (tvs', len (GetAll tvs 1)) /\
      visible tvs' = filter (fun tv => Tag tv <> 1) (visible tvs) /\
      length (array tvs') = length (array tvs)) /\
  (exists tvs',
      PopAll tvs 1 = ROk (tvs', GetAll tvs 1) /\
      visible tvs' = filter (fun tv => Tag tv <> 1) (visible tvs) /\
      length (array tvs') = length (array tvs)).
Proof.
  intros a b tvs. apply (DeleteAll_PopAll_in_place tvs 1).
  unfold len. cbn. lia.
Defined.

(** *** [Version.Less] *)

(** X26.  [Less] is the order "is the newer version": [v.Less(w)] holds
    exactly when [v] is above [w], the major number counting first, then the
    minor, then the patch number.  It is a strict total order: no version is
    [Less] than itself, it never holds both ways, it is transitive, and of
    two different versions one is [Less] than the other. *)
Theorem Less_is_newer (v w x : Version) :
  (Less v w = true <-> newer v w) /\
  Less v v = false /\
  (Less v w = true -> Less w v = false) /\
  (Less v w = true -> Less w x = true -> Less v x = true) /\
  (v <> w -> Less v w = true \/ Less w v = true).
Proof.
  destruct v as [a1 b1 c1], w as [a2 b2 c2], x as [a3 b3 c3].
  unfold Less, newer. cbn [Major Minor Patch].
  repeat split.
  - destruct (a1 =? a2) eqn:Ea, (b1 =? b2) eqn:Eb; cbn [negb]; lia.
  - destruct (a1 =? a2) eqn:Ea, (b1 =? b2) eqn:Eb; cbn [negb]; lia.
  - rewrite !Z.eqb_refl. cbn [negb]. lia.
  - destruct (a1 =? a2) eqn:Ea, (b1 =? b2) eqn:Eb,
             (a2 =? a1) eqn:Ea', (b2 =? b1) eqn:Eb'; cbn [negb]; lia.
  - destruct (a1 =? a2) eqn:E1, (b1 =? b2) eqn:E2,
             (a2 =? a3) eqn:E3, (b2 =? b3) eqn:E4,
             (a1 =? a3) eqn:E5, (b1 =? b3) eqn:E6; cbn [negb]; lia.
  - intros Hne.
    destruct (a1 =? a2) eqn:Ea, (b1 =? b2) eqn:Eb,
             (a2 =? a1) eqn:Ea', (b2 =? b1) eqn:Eb'; cbn [negb]; try lia.
    destruct (Z.eq_dec c1 c2) as [Hc|Hc]; [|lia].
    exfalso. apply Hne. f_equal; lia.
Qed.

(** *** [Unmarshal] *)

Lemma get_byte (l : list Z) (i : Z) :
  Forall is_byte l -> 0 <= i < len l -> exists x, get l i = ROk x /\ is_byte x.
Proof.
  intros Hb Hi. destruct (get_lt l i Hi) as (x & Hx & Hl).
  exists x. split; [exact Hx|]. exact (Forall_lookup_1 _ _ _ _ Hb Hl).
Qed.

(** [DecodeSimple] does not panic: it returns records or the error. *)
Lemma DecodeSimple_loop_safe (fuel : nat) :
  forall (buf : list Z) (acc : TagValues),
    Forall is_byte buf -> (length buf <= fuel)%nat ->
    (exists tvs, DecodeSimple_loop fuel buf acc = ROk tvs) \/
    DecodeSimple_loop fuel buf acc = RErr errInvalidLength.
Proof.
  induction fuel as [|fuel IH]; intros buf acc Hb Hfuel.
  - destruct buf; [|cbn in Hfuel; lia]. left. now exists acc.
  - cbn [DecodeSimple_loop].
    destruct (0 <? len buf) eqn:H0; [|left; now exists acc].
    destruct (len buf <? 2) eqn:H2; [now right|].
    destruct (get_byte buf 1 Hb ltac:(lia)) as (b1 & -> & Hb1).
    destruct (get_byte buf 0 Hb ltac:(lia)) as (b0 & Hg0 & Hb0).
    unfold mbind, result_bind. cbn [rbind]. unfold is_byte in *.
    assert (Hstep : forall o l, 2 <= o -> 0 <= l ->
      (exists tvs,
          (if len buf <? o + l then RErr errInvalidLength
           else rbind (get buf 0) (fun b0 =>
                rbind (slice buf o (o + l)) (fun v =>
                rbind (slice_from buf (o + l)) (fun buf' =>
                DecodeSimple_loop fuel buf' (acc ++ [mkTagValue b0 v [] false])))))
          = ROk tvs) \/
      (if len buf <? o + l then RErr errInvalidLength
       else rbind (get buf 0) (fun b0 =>
            rbind (slice buf o (o + l)) (fun v =>
            rbind (slice_from buf (o + l)) (fun buf' =>
            DecodeSimple_loop fuel buf' (acc ++ [mkTagValue b0 v [] false])))))
      = RErr errInvalidLength).
    { intros o l Ho Hl. destruct (len buf <? o + l) eqn:Hfit; [now right|].
      rewrite Hg0, slice_within, slice_from_rest by lia. cbn [rbind].
      apply IH; [now apply Forall_drop|].
      rewrite length_drop. unfold len in *. lia. }
    destruct (b1 =? 255) eqn:Hff; cbn [negb rbind].
    + destruct (len buf <? 4) eqn:H4; [now right|].
      destruct (get_byte buf 2 Hb ltac:(lia)) as (b2 & -> & Hb2).
      destruct (get_byte buf 3 Hb ltac:(lia)) as (b3 & -> & Hb3).
      cbn [rbind]. unfold is_byte in *.
      assert (Hl : 0 <= Z.shiftl b2 8 + b3)
        by (rewrite Z.shiftl_mul_pow2 by lia; lia).
      destruct (len buf <? 4 + (Z.shiftl b2 8 + b3)); [now right|].
      cbn [rbind]. apply Hstep; lia.
    + apply Hstep; lia.
Qed.

Lemma get_len_1 (l : list Z) :
  len l = 1 -> exists a, get l 0 = ROk a.
Proof. intros H. destruct (get_lt l 0 ltac:(lia)) as (a & -> & _). eauto. Qed.

Lemma Uint16_len_2 (l : list Z) :
  len l = 2 -> exists v, BigEndian_Uint16 l = ROk v.
Proof.
  intros H. unfold BigEndian_Uint16.
  destruct (get_lt l 1 ltac:(lia)) as (b1 & -> & _).
  destruct (get_lt l 0 ltac:(lia)) as (b0 & -> & _).
  cbn. eauto.
Qed.

Lemma Uint32_len_4 (l : list Z) :
  len l = 4 -> exists v, BigEndian_Uint32 l = ROk v.
Proof.
  intros H. unfold BigEndian_Uint32.
  destruct (get_lt l 3 ltac:(lia)) as (b3 & -> & _).
  destruct (get_lt l 0 ltac:(lia)) as (b0 & -> & _).
  destruct (get_lt l 1 ltac:(lia)) as (b1 & -> & _).
  destruct (get_lt l 2 ltac:(lia)) as (b2 & -> & _).
  cbn. eauto.
Qed.

(** One record: the fields other than [CapsSupportedUSB] may change, and
    the only failure is the error for a value of the wrong length. *)
Lemma Unmarshal_step_cases (di : DeviceInfo) (tv : TagValue) :
  (exists di', Unmarshal_step di tv = ROk di' /\
               CapsSupportedUSB di' = CapsSupportedUSB di) \/
  (exists field, Unmarshal_step di tv = RErr (ErrInvalidResponseLength field)).
Proof.
  unfold Unmarshal_step, readCap, expect_len, mbind, result_bind.
  repeat match goal with
         | |- context [if Tag tv =? ?t then _ else _] => destruct (Tag tv =? t)
         end;
    try (left; eexists; split; reflexivity);
    repeat match goal with
           | |- context [len (Value tv) =? ?n] =>
             let E := fresh "E" in
             destruct (len (Value tv) =? n) eqn:E;
             [apply Z.eqb_eq in E|]
           end;
    cbn [negb rbind];
    try (right; eexists; reflexivity);
    try match goal with
        | E : len (Value tv) = 1 |- _ =>
          destruct (get_len_1 _ E) as [a ->]
        | E : len (Value tv) = 2 |- _ =>
          destruct (Uint16_len_2 _ E) as [a ->]
        | E : len (Value tv) = 4 |- _ =>
          destruct (Uint32_len_4 _ E) as [a ->]
        | E : len (Value tv) = 3 |- _ =>
          destruct (get_lt (Value tv) 0 ltac:(lia)) as (a0 & -> & _);
          destruct (get_lt (Value tv) 1 ltac:(lia)) as (a1 & -> & _);
          destruct (get_lt (Value tv) 2 ltac:(lia)) as (a2 & -> & _)
        end;
    cbn [rbind]; left; eexists; split; reflexivity.
Qed.

Lemma Unmarshal_loop_cases (tvs : TagValues) :
  forall di,
    (exists di', Unmarshal_loop tvs di = ROk di' /\
                 CapsSupportedUSB di' = CapsSupportedUSB di) \/
    (exists field, Unmarshal_loop tvs di = RErr (ErrInvalidResponseLength field)).
Proof.
  induction tvs as [|tv tvs IH]; intros di; cbn [Unmarshal_loop].
  - left. now exists di.
  - unfold mbind, result_bind.
    destruct (Unmarshal_step_cases di tv) as [(di1 & -> & H1)|(f & ->)]; cbn [rbind].
    + destruct (IH di1) as [(di2 & -> & H2)|(f & ->)].
      * left. exists di2. split; [reflexivity | congruence].
      * right. now exists f.
    + right. now exists f.
Qed.

(** X27.  [Unmarshal] panics on the empty response and on no other: it
    cuts off the first byte before it looks at the length.  (An answer of
    the card that is the status word [90 00] alone comes out of [Transmit]
    as the empty response.)  On every other byte string it returns the
    device information or an error. *)
Theorem Unmarshal_panics_on_empty_only (b : list Z) (Hbytes : Forall is_byte b) :
  (Unmarshal b = RPanic <-> b = []) /\ Unmarshal b <> RNoFuel.
Proof.
  destruct b as [|x b].
  - split; [split; reflexivity | discriminate].
  - assert (Hrest : slice_from (x :: b) 1 = ROk b).
    { rewrite slice_from_rest by (unfold len; cbn [length]; lia). reflexivity. }
    unfold Unmarshal, mbind, result_bind. rewrite Hrest. cbn [rbind].
    apply Forall_cons in Hbytes as [_ Hb].
    unfold DecodeSimple.
    destruct (DecodeSimple_loop_safe (length b) b [] Hb (le_n _)) as [(tvs & ->)| ->].
    + destruct (Unmarshal_loop_cases tvs zero_DeviceInfo) as [(di & -> & _)|(f & ->)];
        (split; [split; discriminate | discriminate]).
    + split; [split; discriminate | discriminate].
Qed.

Lemma Unmarshal_panics_on_empty_only_witness :
  Unmarshal [] = RPanic /\ Unmarshal [0x00] <> RPanic.
Proof.
  split.
  - apply (proj1 (Unmarshal_panics_on_empty_only [] (List.Forall_nil _))). reflexivity.
  - intros H.
    assert (Hb : Forall is_byte [0x00]) by (repeat constructor; unfold is_byte; lia).
    apply (proj1 (Unmarshal_panics_on_empty_only [0x00] Hb)) in H. discriminate H.
Defined.

(** X28.  [Unmarshal] never fills in [CapsSupportedUSB]: whatever the
    response, the field is 0 in the device information returned.  The value
    of the record with the tag [TagCapsSupportedUSB] goes to
    [CapsSupportedNFC]. *)
Theorem Unmarshal_never_sets_CapsSupportedUSB (b : list Z) (di : DeviceInfo)
    (Hok : Unmarshal b = ROk di) :
  CapsSupportedUSB di = 0 /\
  (forall (x hi lo : Z),
      Unmarshal [x; TagCapsSupportedUSB; 2; hi; lo]
      = ROk (set_CapsSupportedNFC zero_DeviceInfo (Z.lor lo (Z.shiftl hi 8)))).
Proof.
  split; [|reflexivity].
  unfold Unmarshal, mbind, result_bind in Hok.
  destruct (slice_from b 1) as [rest|?| |]; cbn [rbind] in Hok; try discriminate.
  destruct (DecodeSimple rest) as [tvs|?| |]; try discriminate.
  destruct (Unmarshal_loop_cases tvs zero_DeviceInfo) as [(di' & H & Hz)|(f & H)];
    rewrite H in Hok; [|discriminate].
  injection Hok as <-. exact Hz.
Qed.

(** A response with the supported USB capabilities [02 3F] and the serial
    number. *)
Lemma Unmarshal_never_sets_CapsSupportedUSB_witness :
  let b := [0x0a; 0x01; 0x02; 0x02; 0x3f; 0x02; 0x04; 0x00; 0xbc; 0x61; 0x4e] in
  let di := set_SerialNumber (set_CapsSupportedNFC zero_DeviceInfo 0x023f) 12345678 in
  Unmarshal b = ROk di /\ CapsSupportedUSB di = 0.
Proof.
  intros b di.
  assert (H : Unmarshal b = ROk di) by reflexivity.
  split; [exact H|].
  exact (proj1 (Unmarshal_never_sets_CapsSupportedUSB b di H)).
Defined.

End RunExampleFacts.
